(** * Breach arbiter: retribution store, on-disk encoding, sweep builders

    A shallow embedding of [breacharbiter.go] (package main of lnd): the
    on-disk encoding of [retributionInfo] and [breachedOutput], the
    bolt-backed [retributionStore], the builders [createJusticeTx] and
    [craftCommitSweepTx], and the executor [exactRetribution].

    Conventions.
    - Go integers are [Z] with the wrap-around of each conversion written
      out ([to_int64], [to_uint64], ...).
    - Byte slices, buffers and readers are [list byte].
    - A Go function returning [(T, error)] returns [result T]; one that
      returns only [error] returns [option error] ([None] is Go's nil).
    - Code of other packages (wallet, signer, notifier, channeldb, btcec,
      wire, the outpoint and sign-descriptor codecs) is not part of
      breacharbiter.go: it enters as the fields of [Collaborators] and
      [Signing] (pure code) and of [Node] (code with effects). bolt is
      modelled by finite maps.
    - A task of the arbiter runs in the state monad [M] over the
      collaborators' state, the bolt file and the trace of calls made.

    The first part holds the embedding and the vocabulary of the
    statements, the second part the proofs. *)

From Stdlib Require Import ZArith List String Lia.
From Stdlib.Strings Require Import Byte.
From stdpp Require Import base option list gmap sorting.

Local Open Scope Z_scope.

(** ** Errors and results *)

Inductive error : Type :=
| ErrString (msg : string)      (* errors.New / fmt.Errorf *)
| EOF                           (* io.EOF *)
| ErrUnexpectedEOF              (* io.ErrUnexpectedEOF *)
| ErrBucketNameRequired         (* bolt *)
| ErrKeyRequired                (* bolt *)
| ErrKeyTooLarge                (* bolt *)
| ErrValueTooLarge              (* bolt *)
| ErrPanic (msg : string)       (* a Go run-time panic *)
| ErrCollaborator (code : Z).   (* any error raised by a collaborator *)

Inductive result (A : Type) : Type :=
| Ok (a : A)
| Err (e : error).
Arguments Ok {A} a.
Arguments Err {A} e.

#[global] Instance result_ret : MRet result := @Ok.
#[global] Instance result_bind : MBind result :=
  fun A B f m => match m with Ok a => f a | Err e => Err e end.
#[global] Instance result_fmap : FMap result :=
  fun A B f m => match m with Ok a => Ok (f a) | Err e => Err e end.

Definition is_Ok {A} (m : result A) : Prop := exists a, m = Ok a.

(** ** Bytes and fixed-width integers *)

#[global] Instance byte_eq_dec : EqDecision byte := Byte.byte_eq_dec.
#[global] Instance byte_countable : Countable byte :=
  inj_countable Byte.to_N Byte.of_N Byte.of_to_N.

Definition Z_of_byte (b : byte) : Z := Z.of_N (Byte.to_N b).

Definition byte_of_Z (z : Z) : byte :=
  match Byte.of_N (Z.to_N (z mod 256)) with
  | Some b => b
  | None => x00
  end.

Definition to_uint16 (z : Z) : Z := z mod 2 ^ 16.
Definition to_uint32 (z : Z) : Z := z mod 2 ^ 32.
Definition to_uint64 (z : Z) : Z := z mod 2 ^ 64.
Definition to_int64 (z : Z) : Z := (z + 2 ^ 63) mod 2 ^ 64 - 2 ^ 63.

Definition is_uint16 (z : Z) : Prop := 0 <= z < 2 ^ 16.
Definition is_uint64 (z : Z) : Prop := 0 <= z < 2 ^ 64.
Definition is_int64 (z : Z) : Prop := - 2 ^ 63 <= z < 2 ^ 63.

(** encoding/binary, [binary.BigEndian]: [PutUintN] writes the [n] low
    bytes of [v], most significant first; [UintN] reads them back. *)
Module BigEndian.

Fixpoint put (n : nat) (v : Z) : list byte :=
  match n with
  | O => []
  | S n' => byte_of_Z (Z.shiftr v (8 * Z.of_nat n')) :: put n' v
  end.

Definition get (bs : list byte) : Z :=
  fold_left (fun acc b => acc * 256 + Z_of_byte b) bs 0.

Definition PutUint16 (v : Z) : list byte := put 2 v.
Definition PutUint64 (v : Z) : list byte := put 8 v.
Definition Uint16 (bs : list byte) : Z := get bs.
Definition Uint64 (bs : list byte) : Z := get bs.

End BigEndian.

(** ** io.Writer / io.Reader over an in-memory buffer

    The store serialises into a [bytes.Buffer] and deserialises from
    [bytes.NewBuffer]: a writer is the bytes written so far, a reader the
    bytes not yet consumed. *)

Definition Writer := list byte.
Definition Reader := list byte.

(** [w.Write(p)] on a [bytes.Buffer]: appends, never fails. *)
Definition Write (w : Writer) (p : list byte) : result Writer := Ok (w ++ p).

(** [take_exact n r] splits off the first [n] bytes when there are that many. *)
Fixpoint take_exact (n : nat) (r : list byte) : option (list byte * list byte) :=
  match n with
  | O => Some ([], r)
  | S n' =>
      match r with
      | [] => None
      | b :: r' =>
          match take_exact n' r' with
          | Some (bs, rest) => Some (b :: bs, rest)
          | None => None
          end
      end
  end.

(** [io.ReadFull(r, buf)] with [len(buf) = n]: [io.EOF] when nothing could
    be read, [io.ErrUnexpectedEOF] after a short read. *)
Definition ReadFull (r : Reader) (n : nat) : result (list byte * Reader) :=
  match take_exact n r with
  | Some p => Ok p
  | None => match r with [] => Err EOF | _ :: _ => Err ErrUnexpectedEOF end
  end.

(** ** Types of the wire package used by the arbiter *)

(** chainhash.Hash is [32]byte. *)
Definition Hash := list byte.
Definition HashSize : nat := 32.
Definition zeroHash : Hash := replicate HashSize x00.

(** chainhash.NewHash: fails unless exactly [HashSize] bytes are given. *)
Definition NewHash (bs : list byte) : result Hash :=
  if decide (length bs = HashSize) then Ok bs
  else Err (ErrString "invalid hash length").

Record OutPoint : Type := mkOutPoint {
  op_Hash : Hash;
  op_Index : Z;                       (* uint32 *)
}.

#[global] Instance OutPoint_eq_dec : EqDecision OutPoint.
Proof. solve_decision. Defined.

Definition zeroOutPoint : OutPoint := mkOutPoint zeroHash 0.

Record TxOut : Type := mkTxOut {
  Value : Z;                          (* int64 *)
  PkScript : list byte;
}.

Definition TxWitness := list (list byte).

Record TxIn : Type := mkTxIn {
  PreviousOutPoint : OutPoint;
  SignatureScript : list byte;
  Witness : TxWitness;
  Sequence : Z;                       (* uint32 *)
}.

Record MsgTx : Type := mkMsgTx {
  Version : Z;                        (* int32 *)
  tx_TxIn : list TxIn;
  tx_TxOut : list TxOut;
  LockTime : Z;                       (* uint32 *)
}.

(** wire.NewMsgTx, AddTxIn, AddTxOut. *)
Definition NewMsgTx (version : Z) : MsgTx := mkMsgTx version [] [] 0.
Definition AddTxIn (tx : MsgTx) (ti : TxIn) : MsgTx :=
  mkMsgTx (Version tx) (tx_TxIn tx ++ [ti]) (tx_TxOut tx) (LockTime tx).
Definition AddTxOut (tx : MsgTx) (to : TxOut) : MsgTx :=
  mkMsgTx (Version tx) (tx_TxIn tx) (tx_TxOut tx ++ [to]) (LockTime tx).

(** [&wire.TxIn{PreviousOutPoint: o}]: the other fields are Go zero values. *)
Definition TxIn_of (o : OutPoint) : TxIn := mkTxIn o [] [] 0.

(** [tx.TxIn[i].Witness = w]; indexing out of range panics in Go. *)
Definition setWitness (tx : MsgTx) (i : nat) (w : TxWitness) : result MsgTx :=
  match tx_TxIn tx !! i with
  | Some ti =>
      Ok (mkMsgTx (Version tx)
            (<[i := mkTxIn (PreviousOutPoint ti) (SignatureScript ti) w
                      (Sequence ti)]> (tx_TxIn tx))
            (tx_TxOut tx) (LockTime tx))
  | None => Err (ErrPanic "index out of range")
  end.

(** txscript.TxSigHashes: the three cached sighash midstates. *)
Record TxSigHashes : Type := mkTxSigHashes {
  HashPrevOuts : Hash;
  HashSequence : Hash;
  HashOutputs : Hash;
}.

(** lnwallet.WitnessType is a uint16. *)
Definition WitnessType := Z.

(** ** Collaborators without effects

    Code the arbiter calls but which lives in other packages: btcec public
    keys, the outpoint codec ([writeOutpoint]/[readOutpoint]), the
    sign-descriptor codec of lnwallet, wire's variable-length integers,
    txscript's sighash cache and the signer. *)

Class Collaborators : Type := {
  (* btcec *)
  PublicKey : Type;
  zeroPublicKey : PublicKey;
  SerializeCompressed : PublicKey -> list byte;
  ParsePubKey : list byte -> result PublicKey;
  (* outpoint codec: the bytes writeOutpoint emits, and readOutpoint,
     which fills the outpoint it is handed *)
  encodeOutpoint : OutPoint -> list byte;
  readOutpoint : Reader -> OutPoint -> result (OutPoint * Reader);
  (* wire.WriteVarInt / wire.ReadVarInt at protocol version 0 *)
  encodeVarInt : Z -> list byte;
  ReadVarInt : Reader -> result (Z * Reader);
  (* txscript.NewTxSigHashes *)
  NewTxSigHashes : MsgTx -> TxSigHashes;
  (* chainhash of a transaction *)
  TxHash : MsgTx -> Hash;
  (* lnwallet.TweakPubKeyWithTweak *)
  TweakPubKeyWithTweak : PublicKey -> list byte -> PublicKey;
}.

(** Modelled from the spec: lnwallet.SignDescriptor is declared in the
    lnwallet package. It is the bundle of parameters (keys, tweaks, redeem
    script, input value) from which the signer produces one signature; the
    last two fields are the ones the arbiter assigns before signing. *)
Record SignDescriptor {C : Collaborators} : Type := mkSignDescriptor {
  sd_PubKey : PublicKey;
  SingleTweak : list byte;
  DoubleTweak : list byte;
  WitnessScript : list byte;
  Output : TxOut;
  HashType : Z;
  SigHashes : option TxSigHashes;
  InputIndex : Z;
}.

Arguments mkSignDescriptor {C}.

Definition zeroSignDescriptor {C : Collaborators} : SignDescriptor :=
  mkSignDescriptor zeroPublicKey [] [] [] (mkTxOut 0 []) 0 None 0.

(** lnwallet.WitnessGenerator: [func(tx, hashCache, inputIndex)]. *)
Definition WitnessGenerator : Type :=
  MsgTx -> TxSigHashes -> Z -> result TxWitness.

(** The sign-descriptor codec and the signer, both of lnwallet. *)
Class Signing {C : Collaborators} : Type := {
  encodeSignDescriptor : SignDescriptor -> list byte;
  ReadSignDescriptor : Reader -> SignDescriptor -> result (SignDescriptor * Reader);
  (* WitnessType.GenWitnessFunc(signer, descriptor) *)
  GenWitnessFunc : WitnessType -> SignDescriptor -> WitnessGenerator;
  (* Signer.SignOutputRaw(tx, signDesc) *)
  SignOutputRaw : MsgTx -> SignDescriptor -> result (list byte);
}.

(** txscript.SigHashAll. *)
Definition SigHashAll : byte := x01.

(** ** The data model of the arbiter *)

(** [breachedOutput]: an output of a revoked commitment transaction.
    [amt] is a btcutil.Amount (int64); [witnessFunc] is transient and
    [None] is Go's nil function value. *)
Record breachedOutput {C : Collaborators} : Type := mkBreachedOutput {
  amt : Z;
  outpoint : OutPoint;
  signDescriptor : SignDescriptor;
  witnessType : WitnessType;
  witnessFunc : option WitnessGenerator;
  twoStageClaim : bool;
}.
Arguments mkBreachedOutput {C}.

(** [&breachedOutput{}]. *)
Definition zeroBreachedOutput {C : Collaborators} : breachedOutput :=
  mkBreachedOutput 0 zeroOutPoint zeroSignDescriptor 0 None false.

(** A Go channel is identified by a number; [None] is the nil channel. *)
Definition Chan := nat.

(** [retributionInfo]: the per-breach record. [selfOutput] and
    [revokedOutput] are pointers the code dereferences unconditionally;
    they are modelled as always present. [doneChan] is transient. *)
Record retributionInfo {C : Collaborators} : Type := mkRetributionInfo {
  commitHash : Hash;
  chanPoint : OutPoint;
  remoteIdentity : PublicKey;
  capacity : Z;
  settledBalance : Z;
  selfOutput : breachedOutput;
  revokedOutput : breachedOutput;
  htlcOutputs : list breachedOutput;
  doneChan : option Chan;
}.
Arguments mkRetributionInfo {C}.

(** [&retributionInfo{}]. *)
Definition zeroRetributionInfo {C : Collaborators} : retributionInfo :=
  mkRetributionInfo zeroHash zeroOutPoint zeroPublicKey 0 0
    zeroBreachedOutput zeroBreachedOutput [] None.

(** ** On-disk encoding *)

Section Encoding.
Context {C : Collaborators} {Sg : Signing}.

(** The three writers of other packages, on a buffer. *)
Definition writeOutpoint (w : Writer) (o : OutPoint) : result Writer :=
  Write w (encodeOutpoint o).
Definition WriteSignDescriptor (w : Writer) (sd : SignDescriptor) : result Writer :=
  Write w (encodeSignDescriptor sd).
Definition WriteVarInt (w : Writer) (val : Z) : result Writer :=
  Write w (encodeVarInt val).

(** [func (bo *breachedOutput) Encode(w io.Writer) error]. *)
Definition breachedOutput_Encode (bo : breachedOutput) (w : Writer) : result Writer :=
  w ← Write w (BigEndian.PutUint64 (to_uint64 (amt bo)));
  w ← writeOutpoint w (outpoint bo);
  w ← WriteSignDescriptor w (signDescriptor bo);
  w ← Write w (BigEndian.PutUint16 (to_uint16 (witnessType bo)));
  w ← Write w [if twoStageClaim bo then x01 else x00];
  Ok w.

(** [func (bo *breachedOutput) Decode(r io.Reader) error]. The receiver
    [bo] is overwritten field by field; [witnessFunc] is not touched. *)
Definition breachedOutput_Decode (bo : breachedOutput) (r : Reader)
  : result (breachedOutput * Reader) :=
  '(scratch, r) ← ReadFull r 8;
  let amt' := to_int64 (BigEndian.Uint64 scratch) in
  '(outpoint', r) ← readOutpoint r (outpoint bo);
  '(signDescriptor', r) ← ReadSignDescriptor r (signDescriptor bo);
  '(scratch, r) ← ReadFull r 2;
  let witnessType' := BigEndian.Uint16 scratch in
  '(scratch, r) ← ReadFull r 1;
  let twoStageClaim' := bool_decide (scratch = [x01]) in
  Ok (mkBreachedOutput amt' outpoint' signDescriptor' witnessType'
        (witnessFunc bo) twoStageClaim', r).

(** The loop [for i := 0; i < numHtlcOutputs; i++] of [Encode]. *)
Fixpoint encodeHtlcOutputs (bos : list breachedOutput) (w : Writer) : result Writer :=
  match bos with
  | [] => Ok w
  | bo :: bos' => w ← breachedOutput_Encode bo w; encodeHtlcOutputs bos' w
  end.

(** [func (ret *retributionInfo) Encode(w io.Writer) error]. *)
Definition retributionInfo_Encode (ret : retributionInfo) (w : Writer) : result Writer :=
  w ← Write w (commitHash ret);
  w ← writeOutpoint w (chanPoint ret);
  w ← Write w (SerializeCompressed (remoteIdentity ret));
  w ← Write w (BigEndian.PutUint64 (to_uint64 (capacity ret)));
  w ← Write w (BigEndian.PutUint64 (to_uint64 (settledBalance ret)));
  w ← breachedOutput_Encode (selfOutput ret) w;
  w ← breachedOutput_Encode (revokedOutput ret) w;
  let numHtlcOutputs := Z.of_nat (length (htlcOutputs ret)) in
  w ← WriteVarInt w (to_uint64 numHtlcOutputs);
  encodeHtlcOutputs (htlcOutputs ret) w.

(** The loop of [Decode]: each slot is a fresh [&breachedOutput{}]. *)
Fixpoint decodeHtlcOutputs (n : nat) (r : Reader)
  : result (list breachedOutput * Reader) :=
  match n with
  | O => Ok ([], r)
  | S n' =>
      '(bo, r) ← breachedOutput_Decode zeroBreachedOutput r;
      '(bos, r) ← decodeHtlcOutputs n' r;
      Ok (bo :: bos, r)
  end.

(** [func (ret *retributionInfo) Decode(r io.Reader) error]. [doneChan]
    is not touched; [make] panics on a negative length (a length too
    large to allocate is not modelled). On an error the partially filled
    receiver is not returned. *)
Definition retributionInfo_Decode (ret : retributionInfo) (r : Reader)
  : result (retributionInfo * Reader) :=
  '(scratch, r) ← ReadFull r 32;
  hash ← NewHash scratch;
  '(chanPoint', r) ← readOutpoint r (chanPoint ret);
  '(scratch, r) ← ReadFull r 33;
  remoteIdentity' ← ParsePubKey scratch;
  '(scratch, r) ← ReadFull r 8;
  let capacity' := to_int64 (BigEndian.Uint64 scratch) in
  '(scratch, r) ← ReadFull r 8;
  let settledBalance' := to_int64 (BigEndian.Uint64 scratch) in
  '(selfOutput', r) ← breachedOutput_Decode zeroBreachedOutput r;
  '(revokedOutput', r) ← breachedOutput_Decode zeroBreachedOutput r;
  '(numHtlcOutputsU64, r) ← ReadVarInt r;
  let numHtlcOutputs := to_int64 numHtlcOutputsU64 in
  if decide (numHtlcOutputs < 0) then
    Err (ErrPanic "makeslice: len out of range")
  else
    '(htlcOutputs', r) ← decodeHtlcOutputs (Z.to_nat numHtlcOutputs) r;
    Ok (mkRetributionInfo hash chanPoint' remoteIdentity' capacity'
          settledBalance' selfOutput' revokedOutput' htlcOutputs'
          (doneChan ret), r).

End Encoding.

(** ** bolt: buckets of byte-string keys and values

    The part of the bolt API the store uses. A transaction sees the
    top-level buckets by name; a bucket is a finite map whose [ForEach]
    visits the keys in ascending byte order. [Delete] of a key that is not
    there does nothing and returns nil; [Put] rejects an empty or oversized
    key and an oversized value. *)
Module bolt.

Abbreviation Bucket := (gmap (list byte) (list byte)).
Abbreviation Tx := (gmap (list byte) (gmap (list byte) (list byte))).

Definition MaxKeySize : Z := 32768.
Definition MaxValueSize : Z := 2 ^ 31 - 2.

(** [tx.Bucket(name)]: [None] is the nil bucket. *)
Definition Bucket_of (tx : Tx) (name : list byte) : option Bucket := tx !! name.

(** [tx.CreateBucketIfNotExists(name)]. *)
Definition CreateBucketIfNotExists (tx : Tx) (name : list byte) : result Tx :=
  if decide (name = []) then Err ErrBucketNameRequired
  else match tx !! name with
       | Some _ => Ok tx
       | None => Ok (<[name := ∅]> tx)
       end.

(** [b.Put(key, value)] on the bucket called [name]. *)
Definition Put (tx : Tx) (name key value : list byte) : result Tx :=
  if decide (key = []) then Err ErrKeyRequired
  else if decide (MaxKeySize < Z.of_nat (length key)) then Err ErrKeyTooLarge
  else if decide (MaxValueSize < Z.of_nat (length value)) then Err ErrValueTooLarge
  else Ok (alter (fun b : Bucket => <[key := value]> b) name tx).

(** [b.Delete(key)] on the bucket called [name]. *)
Definition Delete (tx : Tx) (name key : list byte) : result Tx :=
  Ok (alter (fun b : Bucket => delete key b) name tx).

(** Byte-wise lexicographic order on keys ([bytes.Compare <= 0]). *)
Fixpoint bytes_leb (a b : list byte) : bool :=
  match a, b with
  | [], _ => true
  | _ :: _, [] => false
  | x :: a', y :: b' =>
      if decide (x = y) then bytes_leb a' b'
      else (Byte.to_N x <? Byte.to_N y)%N
  end.

Definition entry_le (x y : list byte * list byte) : Prop :=
  bytes_leb (fst x) (fst y) = true.

#[global] Instance entry_le_dec x y : Decision (entry_le x y).
Proof. unfold entry_le. solve_decision. Defined.

(** The (key, value) pairs of a bucket in cursor order. *)
Definition entries (b : Bucket) : list (list byte * list byte) :=
  merge_sort entry_le (map_to_list b).

(** The loop of [b.ForEach(fn)]: [fn]'s first error stops it. The state
    [St] stands for whatever the Go closure captures and mutates. *)
Fixpoint forEach {St : Type}
    (fn : list byte -> list byte -> St -> St * option error)
    (kvs : list (list byte * list byte)) (s : St) : St * option error :=
  match kvs with
  | [] => (s, None)
  | (k, v) :: kvs' =>
      match fn k v s with
      | (s', None) => forEach fn kvs' s'
      | (s', Some e) => (s', Some e)
      end
  end.

Definition ForEach {St : Type} (b : Bucket)
    (fn : list byte -> list byte -> St -> St * option error) (s : St)
  : St * option error :=
  forEach fn (entries b) s.

(** [db.Update(fn)]: commits [fn]'s writes unless it returns an error. *)
Definition Update (db : Tx) (fn : Tx -> result Tx) : Tx * option error :=
  match fn db with
  | Ok db' => (db', None)
  | Err e => (db, Some e)
  end.

(** [db.View(fn)]: a read-only transaction. *)
Definition View {St : Type} (db : Tx) (fn : Tx -> St -> St * option error)
    (s : St) : St * option error :=
  fn db s.

End bolt.

(** ** The retribution store *)

(** [[]byte("retribution")]. *)
Definition retributionBucket : list byte :=
  Eval cbv in String.list_byte_of_string "retribution".

Section Store.
Context {C : Collaborators} {Sg : Signing}.

(** [func (rs *retributionStore) Add(ret *retributionInfo) error]. *)
Definition retributionStore_Add (ret : retributionInfo) (db : bolt.Tx)
  : bolt.Tx * option error :=
  bolt.Update db (fun tx =>
    tx ← bolt.CreateBucketIfNotExists tx retributionBucket;
    outBuf ← writeOutpoint [] (chanPoint ret);
    retBuf ← retributionInfo_Encode ret [];
    bolt.Put tx retributionBucket outBuf retBuf).

(** [func (rs *retributionStore) Remove(key *wire.OutPoint) error]. *)
Definition retributionStore_Remove (key : OutPoint) (db : bolt.Tx)
  : bolt.Tx * option error :=
  bolt.Update db (fun tx =>
    match bolt.Bucket_of tx retributionBucket with
    | None =>
        Err (ErrString
               "unable to remove retribution because the db bucket doesn't exist.")
    | Some _ =>
        outBuf ← writeOutpoint [] key;
        bolt.Delete tx retributionBucket outBuf
    end).

(** [func (rs *retributionStore) ForAll(cb) error], where [cb] takes a
    decoded record and returns an error; [St] is the state captured by
    the callback. *)
Definition retributionStore_ForAll {St : Type}
    (cb : retributionInfo -> St -> St * option error)
    (db : bolt.Tx) (s : St) : St * option error :=
  bolt.View db (fun tx s =>
    match bolt.Bucket_of tx retributionBucket with
    | None => (s, None)
    | Some retBucket =>
        bolt.ForEach retBucket (fun outBytes retBytes s =>
          match retributionInfo_Decode zeroRetributionInfo retBytes with
          | Err e => (s, Some e)
          | Ok (ret, _) => cb ret s
          end) s
    end) s.

End Store.

(** ** Collaborators with effects

    The wallet, the chain backend, the notifier and channeldb, seen from
    the arbiter: each call reads and changes a state [World] the arbiter
    cannot inspect. A blocking [select] over a confirmation channel and
    the quit channel is a call whose answer is the case that fired. *)

(** chainntnfs.ConfirmationEvent: the channel confirmations arrive on. *)
Record ConfirmationEvent : Type := mkConfirmationEvent {
  Confirmed : Chan;
}.

(** What [select { case _, ok := <-confChan.Confirmed: ; case <-b.quit: }]
    observed. *)
Inductive Receipt : Type :=
| Recv (ok : bool)
| Quit.

Class Node : Type := {
  World : Type;
  (* newSweepPkScript(b.wallet) *)
  newSweepPkScript : World -> result (list byte) * World;
  (* b.wallet.PublishTransaction(tx) *)
  PublishTransaction : MsgTx -> World -> option error * World;
  (* b.chainIO.GetBestBlock() *)
  GetBestBlock : World -> result (Hash * Z) * World;
  (* b.notifier.RegisterConfirmationsNtfn(txid, numConfs, heightHint) *)
  RegisterConfirmationsNtfn :
    Hash -> Z -> Z -> World -> result ConfirmationEvent * World;
  (* b.db.MarkChanFullyClosed(chanPoint) *)
  MarkChanFullyClosed : OutPoint -> World -> option error * World;
  (* the select described above *)
  awaitConfirmed : ConfirmationEvent -> World -> Receipt * World;
}.

Inductive LogLevel : Type := Debugf | Infof | Warnf | Errorf.

(** What an observer of the node sees the arbiter do, in order. *)
Inductive event : Type :=
| EvNewSweepPkScript
| EvGetBestBlock
| EvPublishTransaction (tx : MsgTx) (err : option error)
| EvRegisterConfirmationsNtfn (txid : Hash) (numConfs heightHint : Z)
| EvReceive (ev : ConfirmationEvent) (r : Receipt)
| EvMarkChanFullyClosed (cp : OutPoint) (err : option error)
| EvStoreRemove (cp : OutPoint) (err : option error)
| EvClose (ch : Chan)
| EvPanic (msg : string)
| EvLog (lvl : LogLevel) (fmt : string).

(** The state a task of the arbiter runs against: the collaborators, the
    bolt file holding the retribution bucket, and the calls made so far. *)
Record State {N : Node} : Type := mkState {
  world : World;
  retdb : bolt.Tx;
  trace : list event;
}.
Arguments mkState {N}.

Definition M {N : Node} (A : Type) : Type := State -> A * State.

#[global] Instance M_ret {N : Node} : MRet M := fun A a st => (a, st).
#[global] Instance M_bind {N : Node} : MBind M :=
  fun A B f m st => let '(a, st') := m st in f a st'.

Section Effects.
Context {N : Node}.

Definition emit (e : event) : M unit :=
  fun st => (tt, mkState (world st) (retdb st) (trace st ++ [e])).

(** A collaborator call, recorded as [ev] applied to its answer. *)
Definition call {A : Type} (f : World -> A * World) (ev : A -> event) : M A :=
  fun st =>
    let '(a, w) := f (world st) in
    (a, mkState w (retdb st) (trace st ++ [ev a])).

(** A store operation on the bolt file. *)
Definition onStore (f : bolt.Tx -> bolt.Tx * option error)
    (ev : option error -> event) : M (option error) :=
  fun st =>
    let '(db, err) := f (retdb st) in
    (err, mkState (world st) db (trace st ++ [ev err])).

Definition brarLog (lvl : LogLevel) (fmt : string) : M unit :=
  emit (EvLog lvl fmt).

(** [close(ch)]; closing the nil channel panics. *)
Definition closeChan (ch : option Chan) : M unit :=
  match ch with
  | Some c => emit (EvClose c)
  | None => emit (EvPanic "close of nil channel")
  end.

End Effects.

(** Modelled from the spec: lnwallet.UnilateralCloseSummary is declared in
    the lnwallet package; these are the fields the arbiter reads from the
    summary of a non-revoked unilateral close. [SelfOutPoint] is a pointer
    the code tests against nil. *)
Record UnilateralCloseSummary {C : Collaborators} : Type := mkUnilateralCloseSummary {
  SpenderTxHash : Hash;
  SpendingHeight : Z;
  SelfOutPoint : option OutPoint;
  SelfOutputSignDesc : SignDescriptor;
}.
Arguments mkUnilateralCloseSummary {C}.

(** ** Sweep-transaction builders and the retribution executor *)

Section Arbiter.
Context {C : Collaborators} {Sg : Signing} {N : Node}.

(** [bo.witnessFunc = bo.witnessType.GenWitnessFunc(signer, &bo.signDescriptor)]. *)
Definition attachWitnessFunc (bo : breachedOutput) : breachedOutput :=
  mkBreachedOutput (amt bo) (outpoint bo) (signDescriptor bo) (witnessType bo)
    (Some (GenWitnessFunc (witnessType bo) (signDescriptor bo)))
    (twoStageClaim bo).

(** [bo.witnessFunc(tx, hc, inputIndex)]; calling a nil function panics. *)
Definition callWitnessFunc (bo : breachedOutput) (tx : MsgTx)
    (hc : TxSigHashes) (inputIndex : Z) : result TxWitness :=
  match witnessFunc bo with
  | Some f => f tx hc inputIndex
  | None => Err (ErrPanic "nil function call")
  end.

(** [func (b *breachArbiter) createJusticeTx(r *retributionInfo)]. The
    record is passed by pointer and gets its witness functions attached,
    so it is returned next to the result. *)
Definition createJusticeTx (r : retributionInfo)
  : M (retributionInfo * result MsgTx) :=
  res ← call newSweepPkScript (fun _ => EvNewSweepPkScript);
  match res with
  | Err e => mret (r, Err e)
  | Ok pkScriptOfJustice =>
      let r :=
        mkRetributionInfo (commitHash r) (chanPoint r) (remoteIdentity r)
          (capacity r) (settledBalance r)
          (attachWitnessFunc (selfOutput r))
          (attachWitnessFunc (revokedOutput r))
          (attachWitnessFunc <$> htlcOutputs r)
          (doneChan r) in
      let totalAmt := to_int64 (amt (selfOutput r) + amt (revokedOutput r)) in
      let sweepedAmt := to_int64 (totalAmt - 5000) in
      let justiceTx := NewMsgTx 2 in
      let justiceTx := AddTxOut justiceTx (mkTxOut sweepedAmt pkScriptOfJustice) in
      let justiceTx := AddTxIn justiceTx (TxIn_of (outpoint (selfOutput r))) in
      let justiceTx := AddTxIn justiceTx (TxIn_of (outpoint (revokedOutput r))) in
      let hashCache := NewTxSigHashes justiceTx in
      mret (r,
        localWitness ← callWitnessFunc (selfOutput r) justiceTx hashCache 0;
        justiceTx ← setWitness justiceTx 0 localWitness;
        remoteWitness ← callWitnessFunc (revokedOutput r) justiceTx hashCache 1;
        justiceTx ← setWitness justiceTx 1 remoteWitness;
        Ok justiceTx)
  end.

(** [func (b *breachArbiter) craftCommitSweepTx(closeInfo)]. *)
Definition craftCommitSweepTx (closeInfo : UnilateralCloseSummary)
  : M (result MsgTx) :=
  res ← call newSweepPkScript (fun _ => EvNewSweepPkScript);
  match res with
  | Err e => mret (Err e)
  | Ok sweepPkScript =>
      let outputAmt := Value (Output (SelfOutputSignDesc closeInfo)) in
      let sweepAmt := to_int64 (outputAmt - 5000) in
      if decide (sweepAmt <= 0) then
        mret (Err (ErrString "output to small to sweep in isolation"))
      else
        match SelfOutPoint closeInfo with
        | None => mret (Err (ErrPanic "nil pointer dereference"))
        | Some selfOutPoint =>
            let sweepTx := NewMsgTx 1 in
            let sweepTx := AddTxIn sweepTx (TxIn_of selfOutPoint) in
            let sweepTx := AddTxOut sweepTx (mkTxOut (to_int64 sweepAmt) sweepPkScript) in
            let d := SelfOutputSignDesc closeInfo in
            let signDesc :=
              mkSignDescriptor (sd_PubKey d) (SingleTweak d) (DoubleTweak d)
                (WitnessScript d) (Output d) (HashType d)
                (Some (NewTxSigHashes sweepTx)) 0 in
            match SignOutputRaw sweepTx signDesc with
            | Err e => mret (Err e)
            | Ok sweepSig =>
                let witness :=
                  [ sweepSig ++ [SigHashAll];
                    SerializeCompressed
                      (TweakPubKeyWithTweak (sd_PubKey signDesc)
                         (SingleTweak signDesc)) ] in
                match setWitness sweepTx 0 witness with
                | Err e => mret (Err e)
                | Ok sweepTx =>
                    _ ← brarLog Infof "Sweeping commitment output with: %v";
                    mret (Ok sweepTx)
                end
            end
        end
  end.

(** The callback [breachObserver] hands to [waitForChanToClose] after a
    unilateral close: sweep the self output if there is one, then mark
    the channel fully closed. *)
Definition sweepAndMarkClosed (closeInfo : UnilateralCloseSummary)
    (chanPoint : OutPoint) : M unit :=
  _ ← match SelfOutPoint closeInfo with
      | None => mret tt
      | Some _ =>
          res ← craftCommitSweepTx closeInfo;
          match res with
          | Err _ => brarLog Errorf "unable to generate sweep tx: %v"
          | Ok sweepTx =>
              err ← call (PublishTransaction sweepTx) (EvPublishTransaction sweepTx);
              match err with
              | Some _ => brarLog Errorf "unable to broadcast tx: %v"
              | None => mret tt
              end
          end
      end;
  _ ← brarLog Infof "Force closed ChannelPoint(%v) is fully closed, updating DB";
  err ← call (MarkChanFullyClosed chanPoint) (EvMarkChanFullyClosed chanPoint);
  match err with
  | Some _ => brarLog Errorf "unable to mark chan as closed: %v"
  | None => mret tt
  end.

(** [func (b *breachArbiter) exactRetribution(confChan, breachInfo)]. *)
Definition exactRetribution (confChan : ConfirmationEvent)
    (breachInfo : retributionInfo) : M unit :=
  rcpt ← call (awaitConfirmed confChan) (EvReceive confChan);
  match rcpt with
  | Quit => mret tt
  | Recv false => mret tt
  | Recv true =>
      _ ← brarLog Debugf
            "Breach transaction %v has been confirmed, sweeping revoked funds";
      '(breachInfo, res) ← createJusticeTx breachInfo;
      match res with
      | Err _ => brarLog Errorf "unable to create justice tx: %v"
      | Ok justiceTx =>
          _ ← brarLog Debugf "Broadcasting justice tx: %v";
          res ← call GetBestBlock (fun _ => EvGetBestBlock);
          match res with
          | Err _ => brarLog Errorf "unable to get current height: %v"
          | Ok (_, currentHeight) =>
              err ← call (PublishTransaction justiceTx)
                         (EvPublishTransaction justiceTx);
              match err with
              | Some _ => brarLog Errorf "unable to broadcast justice tx: %v"
              | None =>
                  let justiceTXID := TxHash justiceTx in
                  res ← call (RegisterConfirmationsNtfn justiceTXID 1
                                (to_uint32 currentHeight))
                             (fun _ => EvRegisterConfirmationsNtfn justiceTXID 1
                                         (to_uint32 currentHeight));
                  match res with
                  | Err _ =>
                      brarLog Errorf "unable to register for conf for txid: %v"
                  | Ok confChan =>
                      rcpt ← call (awaitConfirmed confChan) (EvReceive confChan);
                      match rcpt with
                      | Quit => mret tt
                      | Recv false => mret tt
                      | Recv true =>
                          _ ← brarLog Infof
                                "Justice for ChannelPoint(%v) has been served, %v revoked funds (%v total) have been claimed";
                          err ← call (MarkChanFullyClosed (chanPoint breachInfo))
                                     (EvMarkChanFullyClosed (chanPoint breachInfo));
                          _ ← match err with
                              | Some _ =>
                                  brarLog Errorf "unable to mark chan as closed: %v"
                              | None => mret tt
                              end;
                          err ← onStore (retributionStore_Remove (chanPoint breachInfo))
                                        (EvStoreRemove (chanPoint breachInfo));
                          _ ← match err with
                              | Some _ =>
                                  brarLog Errorf
                                    "unable to remove retribution from the db: %v"
                              | None => mret tt
                              end;
                          closeChan (doneChan breachInfo)
                      end
                  end
              end
          end
      end
  end.

End Arbiter.

(** Modelled from the spec: the variants of lnwallet.WitnessType, which is
    declared in the lnwallet package: [CommitmentNoDelay] for the local
    output and [CommitmentRevoke] for the counterparty's revoked output,
    after the time-locked commitment output; HTLC variants are reserved. *)
Definition CommitmentTimeLock : WitnessType := 0.
Definition CommitmentNoDelay : WitnessType := 1.
Definition CommitmentRevoke : WitnessType := 2.

Definition knownWitnessType (wt : WitnessType) : bool :=
  bool_decide (wt = CommitmentTimeLock \/ wt = CommitmentNoDelay
               \/ wt = CommitmentRevoke).

(** ** Stand-ins for the collaborators

    Deterministic test doubles: a Bitcoin-like
    codec for outpoints, variable-length integers and sign descriptors, a
    public key kept in its compressed form, a signer that signs with a
    fixed byte, and a node whose answers are scripted. The theorems below
    hold for every instance of [Collaborators], [Signing] and [Node];
    the doubles serve to run the code on concrete inputs. *)
Module Double.

(** Little-endian integers, as wire uses for compact sizes. *)
Definition putLE (n : nat) (v : Z) : list byte := rev (BigEndian.put n v).
Definition getLE (bs : list byte) : Z := BigEndian.get (rev bs).

(** Bitcoin's compact size. *)
Definition varint_bytes (v : Z) : list byte :=
  if decide (v < 253) then [byte_of_Z v]
  else if decide (v <= 65535) then xfd :: putLE 2 v
  else if decide (v <= 4294967295) then xfe :: putLE 4 v
  else xff :: putLE 8 v.

Definition readLE (n : nat) (min : Z) (r : Reader) : result (Z * Reader) :=
  '(bs, r) ← ReadFull r n;
  let v := getLE bs in
  if decide (v < min) then Err (ErrString "non-canonical varint")
  else Ok (v, r).

Definition varint_read (r : Reader) : result (Z * Reader) :=
  '(d, r) ← ReadFull r 1;
  match d with
  | [b] =>
      if decide (b = xff) then readLE 8 4294967296 r
      else if decide (b = xfe) then readLE 4 65536 r
      else if decide (b = xfd) then readLE 2 253 r
      else Ok (Z_of_byte b, r)
  | _ => Err ErrUnexpectedEOF
  end.

(** A length-prefixed byte string. *)
Definition varbytes_bytes (bs : list byte) : list byte :=
  varint_bytes (Z.of_nat (length bs)) ++ bs.

Definition varbytes_read (r : Reader) (maxAllowed : Z) : result (list byte * Reader) :=
  '(n, r) ← varint_read r;
  if decide (maxAllowed < n) then Err (ErrString "larger than the max allowed size")
  else ReadFull r (Z.to_nat n).

Definition outpoint_bytes (o : OutPoint) : list byte :=
  varbytes_bytes (op_Hash o) ++ BigEndian.put 4 (op_Index o).

Definition outpoint_read (r : Reader) (o : OutPoint) : result (OutPoint * Reader) :=
  '(txid, r) ← varbytes_read r 32;
  '(scratch, r) ← ReadFull r 4;
  Ok (mkOutPoint (txid ++ drop (length txid) (op_Hash o)) (BigEndian.get scratch), r).

(** A public key is kept as its 33-byte compressed serialisation. *)
Definition pubkey_parse (bs : list byte) : result (list byte) :=
  match bs with
  | b :: xs =>
      if decide ((b = x02 \/ b = x03) /\ length xs = 32%nat) then Ok bs
      else Err (ErrString "invalid pub key")
  | [] => Err (ErrString "pubkey string is empty")
  end.

(** Sighash midstates and transaction ids are not computed by the
    doubles: the cache is a constant, the id a digest of the shape. *)
Definition sighashes (tx : MsgTx) : TxSigHashes :=
  mkTxSigHashes zeroHash zeroHash zeroHash.

Definition txid (tx : MsgTx) : Hash :=
  BigEndian.put 32
    (Version tx + 256 * Z.of_nat (length (tx_TxIn tx))
     + 65536 * Z.of_nat (length (tx_TxOut tx))).

#[global] Instance collaborators : Collaborators := {|
  PublicKey := list byte;
  zeroPublicKey := [];
  SerializeCompressed := fun k => k;
  ParsePubKey := pubkey_parse;
  encodeOutpoint := outpoint_bytes;
  readOutpoint := outpoint_read;
  encodeVarInt := varint_bytes;
  ReadVarInt := varint_read;
  NewTxSigHashes := sighashes;
  TxHash := txid;
  TweakPubKeyWithTweak := fun k _ => k;
|}.

Definition txout_bytes (o : TxOut) : list byte :=
  BigEndian.put 8 (to_uint64 (Value o)) ++ varbytes_bytes (PkScript o).

Definition txout_read (r : Reader) : result (TxOut * Reader) :=
  '(scratch, r) ← ReadFull r 8;
  '(pkScript, r) ← varbytes_read r 10000;
  Ok (mkTxOut (to_int64 (BigEndian.get scratch)) pkScript, r).

Definition signdesc_bytes (sd : SignDescriptor) : list byte :=
  varbytes_bytes (sd_PubKey sd) ++ varbytes_bytes (SingleTweak sd)
  ++ varbytes_bytes (DoubleTweak sd) ++ varbytes_bytes (WitnessScript sd)
  ++ txout_bytes (Output sd) ++ BigEndian.put 4 (HashType sd).

(** Fills the persisted fields of [sd]; [SigHashes] and [InputIndex]
    stay as they are. *)
Definition signdesc_read (r : Reader) (sd : @SignDescriptor collaborators)
  : result (@SignDescriptor collaborators * Reader) :=
  '(pub, r) ← varbytes_read r 33;
  pub ← pubkey_parse pub;
  '(singleTweak, r) ← varbytes_read r 32;
  '(doubleTweak, r) ← varbytes_read r 32;
  '(witnessScript, r) ← varbytes_read r 500;
  '(output, r) ← txout_read r;
  '(scratch, r) ← ReadFull r 4;
  Ok (@mkSignDescriptor collaborators pub singleTweak doubleTweak
        witnessScript output (BigEndian.get scratch) (SigHashes sd)
        (InputIndex sd), r).

(** The signer: a one-byte signature followed by the key, for the
    witness types it knows. *)
Definition genWitness (wt : WitnessType) (sd : SignDescriptor) : WitnessGenerator :=
  fun tx hc inputIndex =>
    if knownWitnessType wt then Ok [[x30]; sd_PubKey sd]
    else Err (ErrString "unknown witness type: %v").

#[global] Instance signing : Signing := {|
  encodeSignDescriptor := signdesc_bytes;
  ReadSignDescriptor := signdesc_read;
  GenWitnessFunc := genWitness;
  SignOutputRaw := fun _ _ => Ok [x30];
|}.

(** A scripted node: the receipts its selects will observe, in order,
    and the error (if any) with which channeldb answers
    [MarkChanFullyClosed]. Everything else succeeds. *)
Record Script : Type := mkScript {
  receipts : list Receipt;
  markErr : option error;
}.

Definition sweepScript : list byte := [x00; x14].

#[global] Instance node : Node := {|
  World := Script;
  newSweepPkScript := fun w => (Ok sweepScript, w);
  PublishTransaction := fun _ w => (None, w);
  GetBestBlock := fun w => (Ok (zeroHash, 100), w);
  RegisterConfirmationsNtfn := fun _ _ _ w => (Ok (mkConfirmationEvent 1%nat), w);
  MarkChanFullyClosed := fun _ w => (markErr w, w);
  awaitConfirmed := fun _ w =>
    match receipts w with
    | r :: rs => (r, mkScript rs (markErr w))
    | [] => (Quit, w)
    end;
|}.

(** Sample data. *)
Definition key1 : list byte := x02 :: replicate 32 x11.
Definition hash1 : Hash := replicate 32 xaa.
Definition hash2 : Hash := replicate 32 xbb.
Definition hash3 : Hash := replicate 32 xcc.

Definition signDesc1 (value : Z) : SignDescriptor :=
  mkSignDescriptor key1 [x01; x02] [] [x51] (mkTxOut value [x00; x14]) 1 None 0.

Definition output1 (value : Z) (index : Z) (wt : WitnessType) : breachedOutput :=
  mkBreachedOutput value (mkOutPoint hash2 index) (signDesc1 value) wt None false.

Definition ret1 (a b : Z) (htlcs : list breachedOutput) : retributionInfo :=
  mkRetributionInfo hash2 (mkOutPoint hash1 0) key1 (a + b) a
    (output1 a 0 CommitmentNoDelay) (output1 b 1 CommitmentRevoke)
    htlcs (Some 5%nat).

End Double.

(** ** Sample data for the doubles *)
Module Sample.
Import Double.

Definition sampleRetribution : retributionInfo :=
  ret1 7000 3000 [output1 1500 2 CommitmentRevoke; output1 20 3 65535].

Definition sampleOutput : breachedOutput := output1 1500 2 CommitmentRevoke.

(** An output whose witness type, 0xffff, is none of the known ones. *)
Definition oddOutput : breachedOutput := output1 20 3 65535.

(** The stream of [oddOutput] after its amount, and after its outpoint. *)
Definition oddTail : list byte :=
  encodeSignDescriptor (signDesc1 20) ++ [xff; xff; x00].
Definition oddStream : list byte :=
  encodeOutpoint (mkOutPoint hash2 3) ++ oddTail.

(** A node on which every call succeeds and both confirmations arrive. *)
Definition calm : State := mkState (mkScript [Recv true; Recv true] None) ∅ [].

(** The justice transaction for [sampleRetribution]: 7000 + 3000 - 5000. *)
Definition sampleJusticeTx : MsgTx :=
  mkMsgTx 2
    [ mkTxIn (mkOutPoint hash2 0) [] [[x30]; key1] 0;
      mkTxIn (mkOutPoint hash2 1) [] [[x30]; key1] 0 ]
    [ mkTxOut 5000 sweepScript ]
    0.

(** A unilateral close whose self output is worth 4999 satoshis. *)
Definition dustClose : UnilateralCloseSummary :=
  mkUnilateralCloseSummary hash3 100 (Some (mkOutPoint hash3 0)) (signDesc1 4999).

(** A breach whose two outputs add up to 4000 satoshis. *)
Definition smallRetribution : retributionInfo := ret1 3000 1000 [].


(** An earlier record for the channel of [sampleRetribution]. *)
Definition staleRetribution : retributionInfo := ret1 1 2 [].

Definition dbOnce : bolt.Tx := fst (retributionStore_Add staleRetribution ∅).
Definition dbTwice : bolt.Tx := fst (retributionStore_Add sampleRetribution dbOnce).

(** The file after one [Add] and the matching [Remove]. *)
Definition dbEmptied : bolt.Tx :=
  fst (retributionStore_Remove (chanPoint sampleRetribution)
         (fst (retributionStore_Add sampleRetribution ∅))).

(** A node holding the record of [sampleRetribution], on which both
    confirmations arrive but channeldb refuses to mark the channel. *)
Definition stormy : State :=
  mkState (mkScript [Recv true; Recv true] (Some (ErrCollaborator 1))) dbTwice [].

(** The subscription for the breach transaction's confirmation. *)
Definition breachConf : ConfirmationEvent := mkConfirmationEvent 0%nat.

(** The same node when the notifier shuts down instead. *)
Definition closing : State := mkState (mkScript [Recv false] None) dbTwice [].

End Sample.

(** Further sample data: a second channel, a damaged file, a callback
    that refuses what it is shown, a close worth sweeping. *)
Module MoreSamples.
Import Double Sample.

Definition otherRetribution : retributionInfo :=
  mkRetributionInfo hash3 (mkOutPoint hash3 1) key1 900 400
    (output1 400 0 CommitmentNoDelay) (output1 500 1 CommitmentRevoke)
    [] None.

Definition dbTwoChannels : bolt.Tx :=
  fst (retributionStore_Add otherRetribution dbTwice).


Definition refusing (ret : retributionInfo) (seen : list retributionInfo)
  : list retributionInfo * option error :=
  (seen ++ [ret], Some (ErrCollaborator 7)).

Definition bigClose : UnilateralCloseSummary :=
  mkUnilateralCloseSummary hash3 100 (Some (mkOutPoint hash3 0)) (signDesc1 5001).

Definition bigSweepTx : MsgTx :=
  mkMsgTx 1 [mkTxIn (mkOutPoint hash3 0) [] [[x30; x01]; key1] 0]
    [mkTxOut 1 sweepScript] 0.

End MoreSamples.

(** A second node, whose wallet has no script to give:
    [newSweepPkScript] returns an error. Everything else is [node]. *)
Module DryWallet.
Import Double Sample.

Definition errNoScript : error := ErrCollaborator 3.

Definition dryNode : Node := {|
  World := Script;
  newSweepPkScript := fun w => (Err errNoScript, w);
  PublishTransaction := @PublishTransaction node;
  GetBestBlock := @GetBestBlock node;
  RegisterConfirmationsNtfn := @RegisterConfirmationsNtfn node;
  MarkChanFullyClosed := @MarkChanFullyClosed node;
  awaitConfirmed := @awaitConfirmed node;
|}.

Definition dry : @State dryNode := @mkState dryNode (mkScript [] None) ∅ [].

End DryWallet.

(** ** The coordinator: Start, Stop, contractObserver, breachObserver

    The arbiter's goroutines share the [breachArbiter] struct. Each
    function below is one goroutine's code run from its first statement
    to its return; [go f(..)] records the goroutine it starts and does
    not run it. What a [select] receives is an input of the function. The
    wait group is not modelled, except for whether a goroutine is started
    under it. *)

#[global] Instance error_eq_dec : EqDecision error.
Proof. solve_decision. Defined.

#[global] Instance OutPoint_countable : Countable OutPoint.
Proof.
  refine (inj_countable' (fun o => (op_Hash o, op_Index o))
            (fun p => mkOutPoint p.1 p.2) _).
  now intros [].
Defined.

(** channeldb.ChannelSnapshot: the fields [breachObserver] copies. *)
Record ChannelSnapshot {C : Collaborators} : Type := mkChannelSnapshot {
  RemoteIdentity : PublicKey;
  snap_Capacity : Z;                  (* btcutil.Amount *)
  LocalBalance : Z;                   (* lnwire.MilliSatoshi *)
}.
Arguments mkChannelSnapshot {C}.

(** lnwallet.BreachRetribution: the fields [breachObserver] reads. *)
Record BreachRetribution {C : Collaborators} : Type := mkBreachRetribution {
  BreachTransaction : MsgTx;
  RevokedStateNum : Z;
  LocalOutputSignDesc : SignDescriptor;
  LocalOutpoint : OutPoint;
  RemoteOutputSignDesc : SignDescriptor;
  RemoteOutpoint : OutPoint;
}.
Arguments mkBreachRetribution {C}.

(** channeldb.ChannelCloseSummary: the fields set or read here; a field
    a composite literal leaves out has its zero value. *)
Record ChannelCloseSummary {C : Collaborators} : Type := mkChannelCloseSummary {
  ChanPoint : OutPoint;
  ClosingTXID : Hash;
  RemotePub : option PublicKey;       (* *btcec.PublicKey *)
  Capacity : Z;
  SettledBalance : Z;
  TimeLockedBalance : Z;
  CloseType : Z;                      (* channeldb.ClosureType *)
  IsPending : bool;
}.
Arguments mkChannelCloseSummary {C}.

(** The subsystems the coordinator talks to beyond those of [Node]:
    channeldb, the channel state machines of lnwallet, the HTLC switch.
    [heightWithError] is the height [GetBestBlock] returns next to an
    error; [rangeMap] is the order in which a [range] over a Go map
    yields its entries, which the language leaves open. *)
Class Daemon {C : Collaborators} {Sg : Signing} {N : Node} : Type := {
  LightningChannel : Type;
  OpenChannel : Type;
  (* contract.ChannelPoint() and chanState.FundingOutpoint *)
  ChannelPoint : LightningChannel -> OutPoint;
  FundingOutpoint : OpenChannel -> OutPoint;
  (* channeldb.ForceClose, channeldb.BreachClose, channeldb.ErrNoActiveChannels *)
  ForceClose : Z;
  BreachClose : Z;
  ErrNoActiveChannels : error;
  (* lnwire.MilliSatoshi.ToSatoshis *)
  ToSatoshis : Z -> Z;
  (* lnwallet.CommitSpendNoDelay(signer, desc, tx), lnwallet.CommitSpendRevoke *)
  CommitSpendNoDelay : SignDescriptor -> MsgTx -> result TxWitness;
  CommitSpendRevoke : SignDescriptor -> MsgTx -> result TxWitness;
  (* b.db.FetchAllChannels() *)
  FetchAllChannels : World -> (list OpenChannel * option error) * World;
  (* lnwallet.NewLightningChannel(nil, b.notifier, b.estimator, chanState) *)
  NewLightningChannel : OpenChannel -> World -> result LightningChannel * World;
  (* b.htlcSwitch.CloseLink(chanPoint, htlcswitch.CloseBreach) *)
  CloseLink : OutPoint -> World -> unit * World;
  (* channel.DeleteState(closeSummary) *)
  DeleteState : LightningChannel -> ChannelCloseSummary -> World -> option error * World;
  (* contract.StateSnapshot() *)
  StateSnapshot : LightningChannel -> World -> ChannelSnapshot * World;
  (* contract.Stop() *)
  StopChannel : LightningChannel -> World -> unit * World;
  (* b.db.FetchClosedChannels(true) *)
  FetchClosedChannels : World -> result (list ChannelCloseSummary) * World;
  heightWithError : World -> Z;
  rangeMap : forall A : Type, gmap OutPoint A -> World -> list (OutPoint * A);
  rangeMap_Permutation :
    forall (A : Type) (m : gmap OutPoint A) (w : World),
      rangeMap A m w ≡ₚ map_to_list m;
}.

Section Coordinator.
Context {C : Collaborators} {Sg : Signing} {N : Node} {D : Daemon}.

(** The goroutines the coordinator starts, with their arguments. *)
Inductive Goroutine : Type :=
| GoExactRetribution (confChan : ConfirmationEvent) (breachInfo : retributionInfo)
| GoContractObserver (activeChannels : list LightningChannel)
| GoBreachObserver (contract : LightningChannel) (settleSignal : Chan)
(* the anonymous goroutine offering chanPoint on b.settledContracts *)
| GoSettledContract (chanPoint : OutPoint)
(* waitForChanToClose(height, b.notifier, nil, chanPoint, txid, callback):
   the callback is [sweepAndMarkClosed closeInfo chanPoint] *)
| GoWaitForChanToClose (bestHeight : Z) (chanPoint : OutPoint) (txid : Hash)
    (closeInfo : UnilateralCloseSummary)
(* the anonymous goroutine of Start awaiting a pending close *)
| GoPendingClose (confNtfn : ConfirmationEvent) (chanPoint : OutPoint).

(** What an observer sees the coordinator do, in order. [ActCall] wraps
    the calls the tasks also make. *)
Inductive action : Type :=
| ActCall (e : event)
| ActTracef (fmt : string)
| ActStoreForAll (err : option error)
| ActStoreAdd (ret : retributionInfo) (err : option error)
| ActFetchAllChannels (activeChannels : list OpenChannel) (err : option error)
| ActNewLightningChannel (chanState : OpenChannel) (err : option error)
| ActCloseLink (chanPoint : OutPoint)
| ActDeleteState (channel : LightningChannel) (summary : ChannelCloseSummary)
    (err : option error)
| ActStateSnapshot (contract : LightningChannel)
| ActStop (contract : LightningChannel)
| ActFetchClosedChannels (err : option error)
| ActMake (ch : Chan)
| ActCloseQuit
| ActWait
(* select { case b.breachedContracts <- retInfo: ; case <-b.quit: } *)
| ActOffer (retInfo : retributionInfo) (sent : bool)
| ActGo (tracked : bool) (g : Goroutine).

(** The [breachArbiter] struct and its surroundings: the collaborators,
    the bolt file, the observers' map, the number of channels made so
    far, the two start/stop flags, and what was done so far. *)
Record Arbiter : Type := mkArbiter {
  a_world : World;
  a_retdb : bolt.Tx;
  breachObservers : gmap OutPoint Chan;
  made : nat;
  started : Z;
  stopped : Z;
  acts : list action;
}.

Definition Co (A : Type) : Type := Arbiter -> A * Arbiter.

#[global] Instance Co_ret : MRet Co := fun A a st => (a, st).
#[global] Instance Co_bind : MBind Co :=
  fun A B f m st => let '(a, st') := m st in f a st'.

Definition act (a : action) : Co unit :=
  fun b => (tt, mkArbiter (a_world b) (a_retdb b) (breachObservers b) (made b)
                  (started b) (stopped b) (acts b ++ [a])).

(** A task-level computation run by the coordinator. *)
Definition lift {A : Type} (m : M A) : Co A :=
  fun b =>
    let '(a, st) := m (mkState (a_world b) (a_retdb b) []) in
    (a, mkArbiter (world st) (retdb st) (breachObservers b) (made b)
          (started b) (stopped b) (acts b ++ (ActCall <$> trace st))).

(** A call to one of the subsystems of [Daemon]. *)
Definition ask {A : Type} (f : World -> A * World) (a : A -> action) : Co A :=
  fun b =>
    let '(x, w) := f (a_world b) in
    (x, mkArbiter w (a_retdb b) (breachObservers b) (made b)
          (started b) (stopped b) (acts b ++ [a x])).

Definition logf (lvl : LogLevel) (fmt : string) : Co unit :=
  act (ActCall (EvLog lvl fmt)).

(** [go f(..)], under the wait group ([b.wg.Add(1)] before it) or not. *)
Definition go (tracked : bool) (g : Goroutine) : Co unit :=
  act (ActGo tracked g).

(** [make(chan struct{})]: a channel different from all made before. *)
Definition makeChan : Co Chan :=
  fun b => (made b, mkArbiter (a_world b) (a_retdb b) (breachObservers b)
                      (S (made b)) (started b) (stopped b)
                      (acts b ++ [ActMake (made b)])).

(** [close(ch)] of a signal channel. *)
Definition closeSignal (ch : Chan) : Co unit := act (ActCall (EvClose ch)).

Definition getObserver (chanPoint : OutPoint) : Co (option Chan) :=
  fun b => (breachObservers b !! chanPoint, b).

Definition setObserver (chanPoint : OutPoint) (ch : Chan) : Co unit :=
  fun b => (tt, mkArbiter (a_world b) (a_retdb b)
                  (<[chanPoint := ch]> (breachObservers b)) (made b)
                  (started b) (stopped b) (acts b)).

Definition deleteObserver (chanPoint : OutPoint) : Co unit :=
  fun b => (tt, mkArbiter (a_world b) (a_retdb b)
                  (delete chanPoint (breachObservers b)) (made b)
                  (started b) (stopped b) (acts b)).

(** [atomic.CompareAndSwapUint32(&b.started, 0, 1)] and the same on
    [b.stopped]. *)
Definition casStarted : Co bool :=
  fun b =>
    if decide (started b = 0)
    then (true, mkArbiter (a_world b) (a_retdb b) (breachObservers b) (made b)
                  1 (stopped b) (acts b))
    else (false, b).

Definition casStopped : Co bool :=
  fun b =>
    if decide (stopped b = 0)
    then (true, mkArbiter (a_world b) (a_retdb b) (breachObservers b) (made b)
                  (started b) 1 (acts b))
    else (false, b).

(** [b.chainIO.GetBestBlock()] where the height is used whether or not
    an error came with it. *)
Definition bestHeight : Co (Z * option error) :=
  res ← lift (call GetBestBlock (fun _ => EvGetBestBlock));
  match res with
  | Ok (_, currentHeight) => mret (currentHeight, None)
  | Err e => fun b => ((heightWithError (a_world b), Some e), b)
  end.

Definition register (txid : Hash) (currentHeight : Z) : Co (result ConfirmationEvent) :=
  lift (call (RegisterConfirmationsNtfn txid 1 (to_uint32 currentHeight))
             (fun _ => EvRegisterConfirmationsNtfn txid 1 (to_uint32 currentHeight))).

(** [b.retributionStore.ForAll(cb)] and [b.retributionStore.Add(ret)]
    on the bolt file. *)
Definition storeForAll {St : Type}
    (cb : retributionInfo -> St -> St * option error) (s : St)
  : Co (St * option error) :=
  fun b =>
    let '(s', err) := retributionStore_ForAll cb (a_retdb b) s in
    ((s', err), mkArbiter (a_world b) (a_retdb b) (breachObservers b) (made b)
                  (started b) (stopped b) (acts b ++ [ActStoreForAll err])).

Definition storeAdd (ret : retributionInfo) : Co (option error) :=
  fun b =>
    let '(db, err) := retributionStore_Add ret (a_retdb b) in
    (err, mkArbiter (a_world b) db (breachObservers b) (made b)
            (started b) (stopped b) (acts b ++ [ActStoreAdd ret err])).

(** [for k, v := range m] over a Go map: the entries in the order the
    runtime yields them. *)
Definition rangeOver {A : Type} (m : gmap OutPoint A) : Co (list (OutPoint * A)) :=
  fun b => (rangeMap A m (a_world b), b).

(** The arbiter [newBreachArbiter] returns, on a given node and file:
    no observers, both flags zero. *)
Definition newArbiter (w : World) (db : bolt.Tx) : Arbiter :=
  mkArbiter w db ∅ 0 0 0 [].

(** *** Start and Stop *)

(** The close summary [Start] reconstructs from a persisted record. *)
Definition closeSummaryOf (ret : retributionInfo) : ChannelCloseSummary :=
  mkChannelCloseSummary (chanPoint ret) (commitHash ret)
    (Some (remoteIdentity ret)) (capacity ret) (settledBalance ret) 0
    BreachClose true.

(** The callback [Start] hands to [ForAll]; it fills the two maps
    [breachRetInfos] and [closeSummaries]. *)
Definition loadRetribution (ret : retributionInfo)
    (maps : gmap OutPoint retributionInfo * gmap OutPoint ChannelCloseSummary)
  : (gmap OutPoint retributionInfo * gmap OutPoint ChannelCloseSummary)
    * option error :=
  ((<[chanPoint ret := ret]> maps.1,
    <[chanPoint ret := closeSummaryOf ret]> maps.2), None).

(** The loop [for _, chanState := range activeChannels]: the channels
    left to watch, or the error that made [Start] return. *)
Fixpoint promoteBreached (closeSummaries : gmap OutPoint ChannelCloseSummary)
    (activeChannels : list OpenChannel) (channelsToWatch : list LightningChannel)
  : Co (result (list LightningChannel)) :=
  match activeChannels with
  | [] => mret (Ok channelsToWatch)
  | chanState :: rest =>
      res ← ask (NewLightningChannel chanState)
                (fun res => ActNewLightningChannel chanState
                              (match res with Ok _ => None | Err e => Some e end));
      match res with
      | Err e =>
          _ ← logf Errorf "unable to load channel from disk: %v";
          mret (Err e)
      | Ok channel =>
          let chanPoint := FundingOutpoint chanState in
          match closeSummaries !! chanPoint with
          | Some closeSummary =>
              _ ← ask (CloseLink (FundingOutpoint chanState))
                      (fun _ => ActCloseLink (FundingOutpoint chanState));
              err ← ask (DeleteState channel closeSummary)
                        (ActDeleteState channel closeSummary);
              match err with
              | Some e =>
                  _ ← logf Errorf "unable to delete channel state: %v";
                  mret (Err e)
              | None => promoteBreached closeSummaries rest channelsToWatch
              end
          | None =>
              promoteBreached closeSummaries rest (channelsToWatch ++ [channel])
          end
      end
  end.

(** The loop [for chanPoint, closeSummary := range closeSummaries]. *)
Fixpoint resumeRetributions (currentHeight : Z)
    (breachRetInfos : gmap OutPoint retributionInfo)
    (summaries : list (OutPoint * ChannelCloseSummary)) : Co (option error) :=
  match summaries with
  | [] => mret None
  | (chanPoint, closeSummary) :: rest =>
      let breachTXID := ClosingTXID closeSummary in
      res ← register breachTXID currentHeight;
      match res with
      | Err e =>
          _ ← logf Errorf "unable to register for conf updates for txid: %v, err: %v";
          mret (Some e)
      | Ok confChan =>
          let retInfo := default zeroRetributionInfo (breachRetInfos !! chanPoint) in
          _ ← go true (GoExactRetribution confChan retInfo);
          resumeRetributions currentHeight breachRetInfos rest
      end
  end.

(** The loop [for _, pendingClose := range pendingCloseChans]. *)
Fixpoint watchPendingCloses (currentHeight : Z)
    (pendingCloseChans : list ChannelCloseSummary) : Co (option error) :=
  match pendingCloseChans with
  | [] => mret None
  | pendingClose :: rest =>
      if decide (CloseType pendingClose = ForceClose
                 /\ TimeLockedBalance pendingClose <> 0)
      then watchPendingCloses currentHeight rest
      else
        _ ← logf Infof "Watching for the closure of ChannelPoint(%v)";
        let closeTXID := ClosingTXID pendingClose in
        res ← register closeTXID currentHeight;
        match res with
        | Err e => mret (Some e)
        | Ok confNtfn =>
            _ ← go true (GoPendingClose confNtfn (ChanPoint pendingClose));
            watchPendingCloses currentHeight rest
        end
  end.

(** [func (b *breachArbiter) Start() error]. *)
Definition Start : Co (option error) :=
  swapped ← casStarted;
  if negb swapped then mret None
  else
    _ ← act (ActTracef "Starting breach arbiter");
    '(maps, err) ← storeForAll loadRetribution (∅, ∅);
    let breachRetInfos := maps.1 in
    let closeSummaries := maps.2 in
    match err with
    | Some e => mret (Some e)
    | None =>
        '(activeChannels, err) ← ask FetchAllChannels
                                   (fun r => ActFetchAllChannels r.1 r.2);
        if decide (err <> None /\ err <> Some ErrNoActiveChannels) then
          _ ← logf Errorf "unable to fetch active channels: %v";
          mret err
        else
          let nActive := length activeChannels in
          _ ← (if decide (0 < nActive)%nat
               then logf Infof
                      "Retrieved %v channels from database, watching with vigilance!"
               else mret tt);
          res ← promoteBreached closeSummaries activeChannels [];
          match res with
          | Err e => mret (Some e)
          | Ok channelsToWatch =>
              res ← lift (call GetBestBlock (fun _ => EvGetBestBlock));
              match res with
              | Err e => mret (Some e)
              | Ok (_, currentHeight) =>
                  summaries ← rangeOver closeSummaries;
                  err ← resumeRetributions currentHeight breachRetInfos summaries;
                  match err with
                  | Some e => mret (Some e)
                  | None =>
                      _ ← go true (GoContractObserver channelsToWatch);
                      res ← ask FetchClosedChannels
                                (fun res => ActFetchClosedChannels
                                              (match res with
                                               | Ok _ => None
                                               | Err e => Some e
                                               end));
                      match res with
                      | Err e =>
                          _ ← logf Errorf "unable to fetch closing channels: %v";
                          mret (Some e)
                      | Ok pendingCloseChans =>
                          watchPendingCloses currentHeight pendingCloseChans
                      end
                  end
              end
          end
    end.

(** The goroutine [Start] launches for a pending close: wait for the
    closing transaction to confirm, then mark the channel fully closed. *)
Definition awaitPendingClose (confNtfn : ConfirmationEvent) (chanPoint : OutPoint)
  : M unit :=
  rcpt ← call (awaitConfirmed confNtfn) (EvReceive confNtfn);
  match rcpt with
  | Quit => mret tt
  | Recv false => mret tt
  | Recv true =>
      _ ← brarLog Infof "ChannelPoint(%v) is fully closed, at height: %v";
      err ← call (MarkChanFullyClosed chanPoint) (EvMarkChanFullyClosed chanPoint);
      match err with
      | Some _ => brarLog Errorf "unable to mark chan as closed: %v"
      | None => mret tt
      end
  end.

(** [func (b *breachArbiter) Stop() error]. *)
Definition Stop : Co (option error) :=
  swapped ← casStopped;
  if negb swapped then mret None
  else
    _ ← logf Infof "Breach arbiter shutting down";
    _ ← act ActCloseQuit;
    _ ← act ActWait;
    mret None.

(** *** contractObserver *)

(** What the [select] of [contractObserver] receives. *)
Inductive Message : Type :=
| Breached (breachInfo : retributionInfo)        (* <-b.breachedContracts *)
| NewContract (contract : LightningChannel)      (* <-b.newContracts *)
| Settled (chanPoint : OutPoint)                 (* <-b.settledContracts *)
| QuitSignal.                                    (* <-b.quit *)

(** The loop [for _, channel := range activeChannels]. *)
Fixpoint watchActive (activeChannels : list LightningChannel) : Co unit :=
  match activeChannels with
  | [] => mret tt
  | channel :: rest =>
      settleSignal ← makeChan;
      let chanPoint := ChannelPoint channel in
      _ ← setObserver chanPoint settleSignal;
      _ ← go true (GoBreachObserver channel settleSignal);
      watchActive rest
  end.

(** One round of the [select]; [false] when the loop is left. *)
Definition handle (msg : Message) : Co bool :=
  match msg with
  | Breached breachInfo =>
      '(currentHeight, err) ← bestHeight;
      _ ← match err with
          | Some _ => logf Errorf "unable to get best height: %v"
          | None => mret tt
          end;
      let breachTXID := commitHash breachInfo in
      res ← register breachTXID currentHeight;
      match res with
      | Err _ =>
          _ ← logf Errorf "unable to register for conf updates for txid: %v, err: %v";
          mret true
      | Ok confChan =>
          _ ← logf Warnf
                "A channel has been breached with txid: %v. Waiting for confirmation, then justice will be served!";
          _ ← go true (GoExactRetribution confChan breachInfo);
          _ ← deleteObserver (chanPoint breachInfo);
          mret true
      end
  | NewContract contract =>
      settleSignal ← makeChan;
      let chanPoint := ChannelPoint contract in
      oldSignal ← getObserver chanPoint;
      _ ← match oldSignal with
          | Some oldSignal =>
              _ ← logf Infof
                    "ChannelPoint(%v) is now live, abandoning state contract for live version";
              closeSignal oldSignal
          | None => mret tt
          end;
      _ ← setObserver chanPoint settleSignal;
      _ ← logf Debugf "New contract detected, launching breachObserver";
      _ ← go true (GoBreachObserver contract settleSignal);
      mret true
  | Settled chanPoint =>
      killSignal ← getObserver chanPoint;
      match killSignal with
      | None =>
          _ ← logf Errorf "Unable to find contract: %v";
          mret true
      | Some killSignal =>
          _ ← logf Debugf "ChannelPoint(%v) has been settled, cancelling breachObserver";
          _ ← closeSignal killSignal;
          _ ← deleteObserver chanPoint;
          mret true
      end
  | QuitSignal => mret false
  end.

(** The loop [for { select { .. } }] on the messages that arrive; when
    they run out the goroutine is waiting in its [select]. *)
Fixpoint observeContracts (msgs : list Message) : Co unit :=
  match msgs with
  | [] => mret tt
  | msg :: rest =>
      continue ← handle msg;
      if continue : bool then observeContracts rest else mret tt
  end.

(** [func (b *breachArbiter) contractObserver(activeChannels)]. *)
Definition contractObserver (activeChannels : list LightningChannel)
    (msgs : list Message) : Co unit :=
  _ ← watchActive activeChannels;
  observeContracts msgs.

(** *** breachObserver *)

(** What the [select] of [breachObserver] receives. *)
Inductive Wake : Type :=
| SettleSignal                                        (* <-settleSignal *)
| UnilateralClose (closeInfo : UnilateralCloseSummary) (* <-contract.UnilateralClose *)
| ContractBreach (breachInfo : BreachRetribution)      (* <-contract.ContractBreach *)
| QuitWake.                                           (* <-b.quit *)

(** The two closures [breachObserver] builds. *)
Definition localWitness (localSignDesc : SignDescriptor) : WitnessGenerator :=
  fun tx hc inputIndex =>
    CommitSpendNoDelay
      (mkSignDescriptor (sd_PubKey localSignDesc) (SingleTweak localSignDesc)
         (DoubleTweak localSignDesc) (WitnessScript localSignDesc)
         (Output localSignDesc) (HashType localSignDesc) (Some hc) inputIndex)
      tx.

Definition remoteWitness (breachInfo : BreachRetribution) : WitnessGenerator :=
  fun tx hc inputIndex =>
    let desc := RemoteOutputSignDesc breachInfo in
    CommitSpendRevoke
      (mkSignDescriptor (sd_PubKey desc) (SingleTweak desc) (DoubleTweak desc)
         (WitnessScript desc) (Output desc) (HashType desc) (Some hc) inputIndex)
      tx.

(** The record [breachObserver] assembles. *)
Definition newRetributionInfo (chanPoint : OutPoint) (breachInfo : BreachRetribution)
    (chanInfo : ChannelSnapshot) (doneChan : Chan) : retributionInfo :=
  let localSignDesc := LocalOutputSignDesc breachInfo in
  let remoteSignDesc := RemoteOutputSignDesc breachInfo in
  mkRetributionInfo (TxHash (BreachTransaction breachInfo)) chanPoint
    (RemoteIdentity chanInfo) (snap_Capacity chanInfo)
    (ToSatoshis (LocalBalance chanInfo))
    (mkBreachedOutput (Value (Output localSignDesc)) (LocalOutpoint breachInfo)
       localSignDesc CommitmentNoDelay (Some (localWitness localSignDesc)) false)
    (mkBreachedOutput (Value (Output remoteSignDesc)) (RemoteOutpoint breachInfo)
       remoteSignDesc CommitmentRevoke (Some (remoteWitness breachInfo)) false)
    [] (Some doneChan).

(** [func (b *breachArbiter) breachObserver(contract, settleSignal)];
    [sent] tells whether the final [select] delivered the record or the
    arbiter quit first. *)
Definition breachObserver (contract : LightningChannel) (settleSignal : Chan)
    (wake : Wake) (sent : bool) : Co unit :=
  let chanPoint := ChannelPoint contract in
  _ ← logf Debugf "Breach observer for ChannelPoint(%v) started";
  match wake with
  | SettleSignal =>
      ask (StopChannel contract) (fun _ => ActStop contract)
  | UnilateralClose closeInfo =>
      _ ← go true (GoSettledContract chanPoint);
      go false (GoWaitForChanToClose (to_uint32 (SpendingHeight closeInfo))
                  chanPoint (SpenderTxHash closeInfo) closeInfo)
  | ContractBreach breachInfo =>
      _ ← logf Warnf
            "REVOKED STATE #%v FOR ChannelPoint(%v) broadcast, REMOTE PEER IS DOING SOMETHING SKETCHY!!!";
      _ ← ask (CloseLink chanPoint) (fun _ => ActCloseLink chanPoint);
      chanInfo ← ask (StateSnapshot contract) (fun _ => ActStateSnapshot contract);
      doneChan ← makeChan;
      let retInfo := newRetributionInfo chanPoint breachInfo chanInfo doneChan in
      err ← storeAdd retInfo;
      _ ← match err with
          | Some _ => logf Errorf "unable to persist retribution info to db: %v"
          | None => mret tt
          end;
      let closeInfo :=
        mkChannelCloseSummary chanPoint (TxHash (BreachTransaction breachInfo))
          (Some (RemoteIdentity chanInfo)) (snap_Capacity chanInfo)
          (ToSatoshis (LocalBalance chanInfo)) 0 BreachClose true in
      err ← ask (DeleteState contract closeInfo) (ActDeleteState contract closeInfo);
      _ ← match err with
          | Some _ => logf Errorf "unable to delete channel state: %v"
          | None => mret tt
          end;
      act (ActOffer retInfo sent)
  | QuitWake => mret tt
  end.

End Coordinator.

(** ** A stand-in for the daemon

    Two channels are open on disk, one of them the channel of
    [sampleRetribution]; two closes are pending, one of them a force close
    with a time-locked balance. Every call succeeds. *)
Module DaemonDouble.
Import Double Sample MoreSamples.

(** A channel: its funding outpoint and the number of its state. *)
Record Channel : Type := mkChannel {
  funding : OutPoint;
  stateNum : nat;
}.

Definition breachedChannel : Channel := mkChannel (mkOutPoint hash1 0) 4.
Definition healthyChannel : Channel := mkChannel (mkOutPoint hash2 7) 9.

Definition activeOnDisk : list Channel := [breachedChannel; healthyChannel].

Definition snapshot1 : ChannelSnapshot := mkChannelSnapshot key1 10000 7000000.

Definition nurseryClose : ChannelCloseSummary :=
  mkChannelCloseSummary (mkOutPoint hash3 5) hash3 (Some key1) 500 100 40 1 true.
Definition coopClose : ChannelCloseSummary :=
  mkChannelCloseSummary (mkOutPoint hash3 6) hash2 (Some key1) 500 100 0 0 true.

Definition pendingOnDisk : list ChannelCloseSummary := [nurseryClose; coopClose].

#[global] Instance daemon : Daemon := {|
  LightningChannel := Channel;
  OpenChannel := Channel;
  ChannelPoint := funding;
  FundingOutpoint := funding;
  ForceClose := 1;
  BreachClose := 2;
  ErrNoActiveChannels := ErrString "no active channels exist";
  ToSatoshis := fun m => Z.quot m 1000;
  CommitSpendNoDelay := fun sd tx => Ok [[x30]; sd_PubKey sd];
  CommitSpendRevoke := fun sd tx => Ok [[x30]; [x01]; WitnessScript sd];
  FetchAllChannels := fun w => ((activeOnDisk, None), w);
  NewLightningChannel := fun chanState w => (Ok chanState, w);
  CloseLink := fun _ w => (tt, w);
  DeleteState := fun _ _ w => (None, w);
  StateSnapshot := fun _ w => (snapshot1, w);
  StopChannel := fun _ w => (tt, w);
  FetchClosedChannels := fun w => (Ok pendingOnDisk, w);
  heightWithError := fun _ => 0;
  rangeMap := fun A m _ => map_to_list m;
  rangeMap_Permutation := fun A m _ => reflexivity (map_to_list m);
|}.

(** A breach of [healthyChannel]. *)
Definition breach1 : BreachRetribution :=
  mkBreachRetribution (mkMsgTx 2 [] [] 0) 3 (signDesc1 7000) (mkOutPoint hash3 0)
    (signDesc1 3000) (mkOutPoint hash3 1).

(** A fresh arbiter on the node of [calm], with the file of [dbTwice]. *)
Definition arbiter1 : Arbiter := newArbiter (world calm) dbTwice.


(** A newer state machine for [healthyChannel]. *)
Definition healthyChannel' : Channel := mkChannel (mkOutPoint hash2 7) 10.

Definition inbox : list Message :=
  [ NewContract healthyChannel';
    Breached sampleRetribution;
    Settled (mkOutPoint hash2 7);
    Settled (mkOutPoint hash2 7);
    QuitSignal;
    NewContract breachedChannel ].

End DaemonDouble.

(** ** Vocabulary of the statements *)

Section Vocabulary.
Context {C : Collaborators} {Sg : Signing}.

(** The contract of each collaborator codec at one value: what the
    writer emits, the reader takes back off the front of any stream,
    starting from a Go zero value. *)
Definition OutpointCodec (o : OutPoint) : Prop :=
  forall rest, readOutpoint (encodeOutpoint o ++ rest) zeroOutPoint = Ok (o, rest).

Definition SignDescCodec (sd : SignDescriptor) : Prop :=
  forall rest,
    ReadSignDescriptor (encodeSignDescriptor sd ++ rest) zeroSignDescriptor
    = Ok (sd, rest).

Definition VarIntCodec (v : Z) : Prop :=
  forall rest, ReadVarInt (encodeVarInt v ++ rest) = Ok (v, rest).

(** A valid compressed public key: 33 bytes that parse back to the key. *)
Definition ValidPubKey (k : PublicKey) : Prop :=
  length (SerializeCompressed k) = 33%nat
  /\ ParsePubKey (SerializeCompressed k) = Ok k.

(** Values the Go types can hold, with codecs that handle their parts. *)
Record wf_breachedOutput (bo : breachedOutput) : Prop := {
  wf_amt : is_int64 (amt bo);
  wf_outpoint : OutpointCodec (outpoint bo);
  wf_signDescriptor : SignDescCodec (signDescriptor bo);
  wf_witnessType : is_uint16 (witnessType bo);
}.

Record wf_retributionInfo (r : retributionInfo) : Prop := {
  wf_commitHash : length (commitHash r) = HashSize;
  wf_chanPoint : OutpointCodec (chanPoint r);
  wf_remoteIdentity : ValidPubKey (remoteIdentity r);
  wf_capacity : is_int64 (capacity r);
  wf_settledBalance : is_int64 (settledBalance r);
  wf_selfOutput : wf_breachedOutput (selfOutput r);
  wf_revokedOutput : wf_breachedOutput (revokedOutput r);
  wf_htlcOutputs : Forall wf_breachedOutput (htlcOutputs r);
  wf_htlcLen : is_int64 (Z.of_nat (length (htlcOutputs r)));
  wf_htlcCount : VarIntCodec (Z.of_nat (length (htlcOutputs r)));
}.

(** Equality on the persisted fields. *)
Definition persisted_eq_output (a b : breachedOutput) : Prop :=
  amt a = amt b /\ outpoint a = outpoint b
  /\ signDescriptor a = signDescriptor b
  /\ witnessType a = witnessType b
  /\ twoStageClaim a = twoStageClaim b.

Definition persisted_eq (a b : retributionInfo) : Prop :=
  commitHash a = commitHash b /\ chanPoint a = chanPoint b
  /\ remoteIdentity a = remoteIdentity b
  /\ capacity a = capacity b /\ settledBalance a = settledBalance b
  /\ persisted_eq_output (selfOutput a) (selfOutput b)
  /\ persisted_eq_output (revokedOutput a) (revokedOutput b)
  /\ Forall2 persisted_eq_output (htlcOutputs a) (htlcOutputs b).

(** A record as it comes back from disk: transient fields are nil. *)
Definition stored_output (bo : breachedOutput) : breachedOutput :=
  mkBreachedOutput (amt bo) (outpoint bo) (signDescriptor bo)
    (witnessType bo) None (twoStageClaim bo).

Definition stored (r : retributionInfo) : retributionInfo :=
  mkRetributionInfo (commitHash r) (chanPoint r) (remoteIdentity r)
    (capacity r) (settledBalance r) (stored_output (selfOutput r))
    (stored_output (revokedOutput r)) (stored_output <$> htlcOutputs r) None.

(** The bytes [Encode] appends. *)
Definition output_bytes (bo : breachedOutput) : list byte :=
  BigEndian.PutUint64 (to_uint64 (amt bo)) ++ encodeOutpoint (outpoint bo)
  ++ encodeSignDescriptor (signDescriptor bo)
  ++ BigEndian.PutUint16 (to_uint16 (witnessType bo))
  ++ [if twoStageClaim bo then x01 else x00].

Definition retribution_bytes (r : retributionInfo) : list byte :=
  commitHash r ++ encodeOutpoint (chanPoint r)
  ++ SerializeCompressed (remoteIdentity r)
  ++ BigEndian.PutUint64 (to_uint64 (capacity r))
  ++ BigEndian.PutUint64 (to_uint64 (settledBalance r))
  ++ output_bytes (selfOutput r) ++ output_bytes (revokedOutput r)
  ++ encodeVarInt (to_uint64 (Z.of_nat (length (htlcOutputs r))))
  ++ concat (output_bytes <$> htlcOutputs r).

End Vocabulary.

(** The error [craftCommitSweepTx] raises for an output it will not sweep. *)
Definition errOutputTooSmall : error :=
  ErrString "output to small to sweep in isolation".

Definition isPublish (e : event) : bool :=
  match e with EvPublishTransaction _ _ => true | _ => false end.

Section StoreVocabulary.
Context {C : Collaborators} {Sg : Signing}.

(** The error [Remove] raises when the bucket is missing. *)
Definition errNoBucket : error :=
  ErrString "unable to remove retribution because the db bucket doesn't exist.".

(** The record a stored value decodes to, if it does. *)
Definition decodeValue (retBytes : list byte) : option retributionInfo :=
  match retributionInfo_Decode zeroRetributionInfo retBytes with
  | Ok (ret, _) => Some ret
  | Err _ => None
  end.

(** Every value in the retribution bucket decodes, and sits under the key
    of its own channel point. The empty file is consistent and [Add] of a
    well-formed record and [Remove] keep a file consistent. *)
Definition store_consistent (db : bolt.Tx) : Prop :=
  forall b k v,
    db !! retributionBucket = Some b -> b !! k = Some v ->
    exists ret, decodeValue v = Some ret /\ encodeOutpoint (chanPoint ret) = k.

(** A callback that appends each record it is given to a list. *)
Definition visit (ret : retributionInfo) (seen : list retributionInfo)
  : list retributionInfo * option error :=
  (seen ++ [ret], None).

(** The body [ForAll] hands to [ForEach]. *)
Definition forAllBody {St : Type}
    (cb : retributionInfo -> St -> St * option error)
    (outBytes retBytes : list byte) (s : St) : St * option error :=
  match retributionInfo_Decode zeroRetributionInfo retBytes with
  | Err e => (s, Some e)
  | Ok (ret, _) => cb ret s
  end.

End StoreVocabulary.

Section BuilderVocabulary.
Context {C : Collaborators} {Sg : Signing}.

(** The record after [createJusticeTx] has attached the witness
    functions. *)
Definition withWitnessFuncs (r : retributionInfo) : retributionInfo :=
  mkRetributionInfo (commitHash r) (chanPoint r) (remoteIdentity r)
    (capacity r) (settledBalance r)
    (attachWitnessFunc (selfOutput r)) (attachWitnessFunc (revokedOutput r))
    (attachWitnessFunc <$> htlcOutputs r) (doneChan r).

(** The transaction [createJusticeTx] has assembled when it asks for the
    witnesses. *)
Definition unsignedJusticeTx (r : retributionInfo) (pkScript : list byte) : MsgTx :=
  mkMsgTx 2
    [TxIn_of (outpoint (selfOutput r)); TxIn_of (outpoint (revokedOutput r))]
    [mkTxOut (to_int64 (amt (selfOutput r) + amt (revokedOutput r) - 5000)) pkScript]
    0.

(** The two witnesses, in input order, each placed on its input. *)
Definition signJusticeTx (r : retributionInfo) (justiceTx : MsgTx) : result MsgTx :=
  let hashCache := NewTxSigHashes justiceTx in
  localWitness ← GenWitnessFunc (witnessType (selfOutput r))
                   (signDescriptor (selfOutput r)) justiceTx hashCache 0;
  justiceTx ← setWitness justiceTx 0 localWitness;
  remoteWitness ← GenWitnessFunc (witnessType (revokedOutput r))
                    (signDescriptor (revokedOutput r)) justiceTx hashCache 1;
  justiceTx ← setWitness justiceTx 1 remoteWitness;
  Ok justiceTx.

End BuilderVocabulary.

(** The three closing steps of a retribution, as they show in the trace,
    each with the channel point and the error it returned. *)
Inductive FinalStep : Type :=
| MarkedClosed (cp : OutPoint) (err : option error)
| RecordRemoved (cp : OutPoint) (err : option error)
| DoneClosed
| Panicked.

Definition finalStep (e : event) : option FinalStep :=
  match e with
  | EvMarkChanFullyClosed cp err => Some (MarkedClosed cp err)
  | EvStoreRemove cp err => Some (RecordRemoved cp err)
  | EvClose _ => Some DoneClosed
  | EvPanic _ => Some Panicked
  | _ => None
  end.

(** What [close(doneChan)] amounts to. *)
Definition closeStep (ch : option Chan) : FinalStep :=
  match ch with Some _ => DoneClosed | None => Panicked end.

(** A confirmation that did arrive on a confirmation channel. *)
Definition isConfirmation (e : event) : bool :=
  match e with EvReceive _ (Recv true) => true | _ => false end.

(** The events that follow the first registration for a confirmation.
    [exactRetribution] is handed the subscription for the breach
    transaction and registers only for the justice transaction, so these
    are the events after it has subscribed to the justice transaction. *)
Fixpoint afterRegistration (evs : list event) : list event :=
  match evs with
  | [] => []
  | EvRegisterConfirmationsNtfn _ _ _ :: evs' => evs'
  | _ :: evs' => afterRegistration evs'
  end.

(** The justice transaction's confirmation was received. *)
Definition justiceConfirmed (evs : list event) : bool :=
  existsb isConfirmation (afterRegistration evs).

Section CoverageVocabulary.
Context {C : Collaborators} {Sg : Signing}.

(** The contents of the retribution bucket; empty when it does not exist. *)
Definition retBucket (db : bolt.Tx) : gmap (list byte) (list byte) :=
  default ∅ (db !! retributionBucket).

(** The records [ForAll] hands to a collecting callback. *)
Definition visited (db : bolt.Tx) : list retributionInfo :=
  fst (retributionStore_ForAll visit db []).

End CoverageVocabulary.

(** The channel points [MarkChanFullyClosed] was called on, the
    transactions handed to [PublishTransaction] with its answer, and the
    confirmation subscriptions asked for, in the order of the trace. *)
Definition markedChannels (evs : list event) : list OutPoint :=
  omap (fun e => match e with
                 | EvMarkChanFullyClosed cp _ => Some cp
                 | _ => None
                 end) evs.

Definition publishedTxs (evs : list event) : list (MsgTx * option error) :=
  omap (fun e => match e with
                 | EvPublishTransaction tx err => Some (tx, err)
                 | _ => None
                 end) evs.

Definition registrations (evs : list event) : list (Hash * Z * Z) :=
  omap (fun e => match e with
                 | EvRegisterConfirmationsNtfn txid n h => Some (txid, n, h)
                 | _ => None
                 end) evs.

Definition storeRemovals (evs : list event) : list OutPoint :=
  omap (fun e => match e with
                 | EvStoreRemove cp _ => Some cp
                 | _ => None
                 end) evs.

(** The calls of a run without their arguments and answers; log lines
    are not calls. Closing [doneChan] counts as the closing call whether
    it succeeds or panics. *)
Inductive CallKind : Type :=
| KReceive | KNewSweepPkScript | KGetBestBlock | KPublishTransaction
| KRegisterConfirmationsNtfn | KMarkChanFullyClosed | KStoreRemove | KClose.

Definition callKind (e : event) : option CallKind :=
  match e with
  | EvReceive _ _ => Some KReceive
  | EvNewSweepPkScript => Some KNewSweepPkScript
  | EvGetBestBlock => Some KGetBestBlock
  | EvPublishTransaction _ _ => Some KPublishTransaction
  | EvRegisterConfirmationsNtfn _ _ _ => Some KRegisterConfirmationsNtfn
  | EvMarkChanFullyClosed _ _ => Some KMarkChanFullyClosed
  | EvStoreRemove _ _ => Some KStoreRemove
  | EvClose _ => Some KClose
  | EvPanic _ => Some KClose
  | EvLog _ _ => None
  end.

(** The calls of a retribution that runs to its end. *)
Definition retributionCalls : list CallKind :=
  [ KReceive; KNewSweepPkScript; KGetBestBlock; KPublishTransaction;
    KRegisterConfirmationsNtfn; KReceive; KMarkChanFullyClosed; KStoreRemove;
    KClose ].

Section CoordinatorVocabulary.
Context {C : Collaborators} {Sg : Signing} {N : Node} {D : Daemon}.

(** The signal channels closed, the breach observers started (channel
    point and settle signal), the retributions started and all
    goroutines started, in the order of the actions. *)
Definition closedSignals (l : list action) : list Chan :=
  omap (fun a => match a with ActCall (EvClose ch) => Some ch | _ => None end) l.

Definition observersStarted (l : list action) : list (OutPoint * Chan) :=
  omap (fun a => match a with
                 | ActGo _ (GoBreachObserver contract ch) =>
                     Some (ChannelPoint contract, ch)
                 | _ => None
                 end) l.

Definition retributionsStarted (l : list action)
  : list (ConfirmationEvent * retributionInfo) :=
  omap (fun a => match a with
                 | ActGo _ (GoExactRetribution confChan breachInfo) =>
                     Some (confChan, breachInfo)
                 | _ => None
                 end) l.

Definition goroutines (l : list action) : list Goroutine :=
  omap (fun a => match a with ActGo _ g => Some g | _ => None end) l.

(** The calls of the task level among the actions. *)
Definition calls (l : list action) : list event :=
  omap (fun a => match a with ActCall e => Some e | _ => None end) l.

(** The two steps by which a retribution gets going: the subscription
    to the confirmation of a transaction, and the start of the task. *)
Inductive RetributionStep : Type :=
| Subscribed (txid : Hash) (numConfs heightHint : Z)
| Retribution (confChan : ConfirmationEvent) (breachInfo : retributionInfo).

Definition retributionSteps (l : list action) : list RetributionStep :=
  omap (fun a => match a with
                 | ActCall (EvRegisterConfirmationsNtfn txid n h) =>
                     Some (Subscribed txid n h)
                 | ActGo _ (GoExactRetribution confChan breachInfo) =>
                     Some (Retribution confChan breachInfo)
                 | _ => None
                 end) l.

(** What became of a breach handed to [contractObserver]: the height
    used as hint, and the subscription if there is one. *)
Definition breachSteps
    (outcome : retributionInfo * Z * option ConfirmationEvent)
  : list RetributionStep :=
  let '(breachInfo, currentHeight, confChan) := outcome in
  Subscribed (commitHash breachInfo) 1 (to_uint32 currentHeight)
  :: match confChan with
     | Some confChan => [Retribution confChan breachInfo]
     | None => []
     end.

(** The messages [contractObserver] handles: those before the first
    quit. *)
Fixpoint untilQuit (msgs : list Message) : list Message :=
  match msgs with
  | [] => []
  | QuitSignal :: _ => []
  | msg :: rest => msg :: untilQuit rest
  end.

(** The breaches reported to [contractObserver]. *)
Definition breaches (msgs : list Message) : list retributionInfo :=
  omap (fun m => match m with Breached breachInfo => Some breachInfo | _ => None end)
       msgs.

(** What the node answers when [contractObserver] is told of a breach:
    the height [GetBestBlock] reports (the one that comes with its error,
    when it fails) and, asked in the world this call left, what
    [RegisterConfirmationsNtfn] says to one confirmation of the record's
    [commitHash] with that height as hint: the subscription, or nothing
    when it returns an error. *)
Definition nodeAnswer (breachInfo : retributionInfo) (w : World)
  : (retributionInfo * Z * option ConfirmationEvent) * World :=
  let best := GetBestBlock w in
  let currentHeight :=
    match fst best with
    | Ok (_, currentHeight) => currentHeight
    | Err _ => heightWithError (snd best)
    end in
  let reg :=
    RegisterConfirmationsNtfn (commitHash breachInfo) 1 (to_uint32 currentHeight)
      (snd best) in
  ((breachInfo, currentHeight,
    match fst reg with Ok confChan => Some confChan | Err _ => None end),
   snd reg).

(** The same for breaches that arrive one after the other, each asked
    about in the world the one before left. *)
Fixpoint nodeAnswers (brs : list retributionInfo) (w : World)
  : list (retributionInfo * Z * option ConfirmationEvent) * World :=
  match brs with
  | [] => ([], w)
  | breachInfo :: rest =>
      let '(outcome, w1) := nodeAnswer breachInfo w in
      let '(outcomes, w2) := nodeAnswers rest w1 in
      (outcome :: outcomes, w2)
  end.

(** The breaches for which the node granted a subscription, each with
    its subscription. *)
Definition granted
    (outcomes : list (retributionInfo * Z * option ConfirmationEvent))
  : list (ConfirmationEvent * retributionInfo) :=
  omap (fun o => (fun confChan => (confChan, o.1.1)) <$> o.2) outcomes.

(** The actions that are not log lines. *)
Definition steps (l : list action) : list action :=
  omap (fun a => match a with
                 | ActCall (EvLog _ _) => None
                 | ActTracef _ => None
                 | _ => Some a
                 end) l.

(** The links closed and the channel states deleted, in order. *)
Definition closedLinks (l : list action) : list OutPoint :=
  omap (fun a => match a with ActCloseLink cp => Some cp | _ => None end) l.

Definition deletedStates (l : list action)
  : list (LightningChannel * ChannelCloseSummary * option error) :=
  omap (fun a => match a with
                 | ActDeleteState channel summary err => Some (channel, summary, err)
                 | _ => None
                 end) l.

(** The record [breachObserver] assembles when it runs from [b]: the
    snapshot is taken after the link was closed, [doneChan] is the next
    channel made. *)
Definition breachRecord (contract : LightningChannel)
    (breachInfo : BreachRetribution) (b : Arbiter) : retributionInfo :=
  newRetributionInfo (ChannelPoint contract) breachInfo
    (fst (StateSnapshot contract
            (snd (CloseLink (ChannelPoint contract) (a_world b)))))
    (made b).

(** The two maps [Start] fills from the file: [breachRetInfos] and
    [closeSummaries]. *)
Definition loadedRetributions (db : bolt.Tx)
  : gmap OutPoint retributionInfo * gmap OutPoint ChannelCloseSummary :=
  fst (retributionStore_ForAll loadRetribution db (∅, ∅)).

(** The pending closes that got a watcher, by channel point. *)
Definition pendingWatched (l : list action) : list OutPoint :=
  omap (fun a => match a with
                 | ActGo _ (GoPendingClose _ cp) => Some cp
                 | _ => None
                 end) l.

(** The contract observers started, with the channels they were given. *)
Definition contractObservers (l : list action) : list (list LightningChannel) :=
  omap (fun a => match a with
                 | ActGo _ (GoContractObserver chans) => Some chans
                 | _ => None
                 end) l.

(** The struct's own fields are as they were: only calls were made and
    actions appended. *)
Definition same_struct (b b' : Arbiter) : Prop :=
  a_retdb b' = a_retdb b /\ breachObservers b' = breachObservers b
  /\ made b' = made b /\ started b' = started b /\ stopped b' = stopped b.

(** Every signal in the observers' map was made, and no two channel
    points share a signal. *)
Definition well_tracked (b : Arbiter) : Prop :=
  (forall cp ch, breachObservers b !! cp = Some ch -> (ch < made b)%nat)
  /\ (forall cp1 cp2 ch,
        breachObservers b !! cp1 = Some ch ->
        breachObservers b !! cp2 = Some ch -> cp1 = cp2).

(** A stretch of the observer's run from [b] to [b'] that appended
    [new]: channels are only made; a signal is closed once, it was
    tracked at [b] or made on the way, and is not tracked at [b']; what
    is tracked at [b'] was tracked at [b] or belongs to an observer
    started on the way, each with a signal of its own. *)
Record tracks (b : Arbiter) (new : list action) (b' : Arbiter) : Prop := mkTracks {
  tr_made : (made b <= made b')%nat;
  tr_closed_once : NoDup (closedSignals new);
  tr_closed_origin :
    forall ch, ch ∈ closedSignals new ->
      exists cp, breachObservers b !! cp = Some ch
                 \/ (cp, ch) ∈ observersStarted new;
  tr_closed_gone :
    forall ch cp, ch ∈ closedSignals new -> breachObservers b' !! cp <> Some ch;
  tr_map_origin :
    forall cp ch, breachObservers b' !! cp = Some ch ->
      breachObservers b !! cp = Some ch \/ (cp, ch) ∈ observersStarted new;
  tr_started_fresh :
    forall cp ch, (cp, ch) ∈ observersStarted new ->
      (made b <= ch < made b')%nat;
  tr_started_own : NoDup (snd <$> observersStarted new);
}.

(** What became of the observers tracked at [b] or started on the way:
    each is still tracked at [b'], or had its signal closed, or its
    channel was handed to a retribution. *)
Definition accounts (b : Arbiter) (new : list action) (b' : Arbiter) : Prop :=
  forall cp ch,
    breachObservers b !! cp = Some ch \/ (cp, ch) ∈ observersStarted new ->
    breachObservers b' !! cp = Some ch
    \/ ch ∈ closedSignals new
    \/ exists confChan breachInfo,
         (confChan, breachInfo) ∈ retributionsStarted new
         /\ chanPoint breachInfo = cp.

End CoordinatorVocabulary.

(** * Verification *)

(** ** Bytes and integers *)

Lemma Z_of_byte_of_Z (z : Z) : Z_of_byte (byte_of_Z z) = z mod 256.
Proof.
  unfold byte_of_Z, Z_of_byte.
  assert (Hr : 0 <= z mod 256 < 256) by (apply Z.mod_pos_bound; lia).
  destruct (Byte.of_N (Z.to_N (z mod 256))) as [b|] eqn:E.
  - apply Byte.to_of_N in E. rewrite E. lia.
  - apply Byte.of_N_None_iff in E. lia.
Qed.

Lemma BigEndian_length_put (n : nat) (v : Z) : length (BigEndian.put n v) = n.
Proof. induction n as [|n IH]; simpl; [reflexivity | now rewrite IH]. Qed.

Lemma BigEndian_get_put_acc (n : nat) (v acc : Z) :
  fold_left (fun a b => a * 256 + Z_of_byte b) (BigEndian.put n v) acc
  = acc * 2 ^ (8 * Z.of_nat n) + v mod 2 ^ (8 * Z.of_nat n).
Proof.
  revert acc. induction n as [|n IH]; intros acc.
  - simpl. rewrite Z.mod_1_r. lia.
  - cbn [BigEndian.put fold_left]. rewrite IH, Z_of_byte_of_Z.
    rewrite Z.shiftr_div_pow2 by lia.
    replace (8 * Z.of_nat (S n)) with (8 * Z.of_nat n + 8) by lia.
    rewrite Z.pow_add_r by lia.
    assert (HP : 0 < 2 ^ (8 * Z.of_nat n)) by (apply Z.pow_pos_nonneg; lia).
    change (2 ^ 8) with 256.
    rewrite (Z.rem_mul_r v (2 ^ (8 * Z.of_nat n)) 256); [ring | lia | lia].
Qed.

Lemma BigEndian_get_put (n : nat) (v : Z) :
  BigEndian.get (BigEndian.put n v) = v mod 2 ^ (8 * Z.of_nat n).
Proof. unfold BigEndian.get. rewrite BigEndian_get_put_acc. lia. Qed.

Lemma Uint64_PutUint64 (v : Z) :
  BigEndian.Uint64 (BigEndian.PutUint64 v) = to_uint64 v.
Proof. apply BigEndian_get_put. Qed.

Lemma Uint16_PutUint16 (v : Z) :
  BigEndian.Uint16 (BigEndian.PutUint16 v) = to_uint16 v.
Proof. apply BigEndian_get_put. Qed.

Lemma to_int64_to_uint64 (a : Z) : is_int64 a -> to_int64 (to_uint64 (to_uint64 a)) = a.
Proof.
  unfold is_int64, to_int64, to_uint64. intros Ha.
  rewrite Z.mod_mod by lia.
  rewrite Zplus_mod_idemp_l.
  rewrite Z.mod_small; lia.
Qed.

Lemma to_uint16_id (w : Z) : is_uint16 w -> to_uint16 (to_uint16 w) = w.
Proof.
  unfold is_uint16, to_uint16. intros Hw.
  rewrite (Z.mod_small w) by lia. apply Z.mod_small. lia.
Qed.

Lemma to_int64_id (a : Z) : is_int64 a -> to_int64 a = a.
Proof.
  unfold is_int64, to_int64. intros Ha. rewrite Z.mod_small; lia.
Qed.

(** ** Readers *)

Lemma take_exact_app (bs rest : list byte) :
  take_exact (length bs) (bs ++ rest) = Some (bs, rest).
Proof.
  induction bs as [|b bs IH]; simpl; [reflexivity | now rewrite IH].
Qed.

Lemma ReadFull_app (bs rest : list byte) (n : nat) :
  length bs = n -> ReadFull (bs ++ rest) n = Ok (bs, rest).
Proof. intros <-. unfold ReadFull. now rewrite take_exact_app. Qed.

(** ** The on-disk encoding *)

Lemma result_bind_Ok {A B : Type} (a : A) (f : A -> result B) :
  (Ok a ≫= f) = f a.
Proof. reflexivity. Qed.

(** One step of a computation in [result] whose head has been evaluated. *)
Ltac ok := repeat (rewrite result_bind_Ok; cbv beta iota).

Section EncodingFacts.
Context {C : Collaborators} {Sg : Signing}.

Lemma breachedOutput_Encode_bytes (bo : breachedOutput) (w : Writer) :
  breachedOutput_Encode bo w = Ok (w ++ output_bytes bo).
Proof.
  unfold breachedOutput_Encode, output_bytes, writeOutpoint,
    WriteSignDescriptor, Write. ok.
  now rewrite <- !app_assoc.
Qed.

Lemma encodeHtlcOutputs_bytes (bos : list breachedOutput) (w : Writer) :
  encodeHtlcOutputs bos w = Ok (w ++ concat (output_bytes <$> bos)).
Proof.
  revert w. induction bos as [|bo bos IH]; intros w;
    cbn [encodeHtlcOutputs fmap list_fmap concat]; ok.
  - now rewrite app_nil_r.
  - rewrite breachedOutput_Encode_bytes. ok.
    rewrite IH. now rewrite <- app_assoc.
Qed.

Lemma retributionInfo_Encode_bytes (r : retributionInfo) (w : Writer) :
  retributionInfo_Encode r w = Ok (w ++ retribution_bytes r).
Proof.
  unfold retributionInfo_Encode, retribution_bytes, writeOutpoint,
    WriteVarInt, Write.
  ok.
  rewrite breachedOutput_Encode_bytes.
  ok.
  rewrite breachedOutput_Encode_bytes.
  ok.
  rewrite encodeHtlcOutputs_bytes.
  now rewrite <- !app_assoc.
Qed.

(** What [Decode] does on a stream whose collaborator-encoded fields
    parse: it accepts any amount, any witness type and any flag byte. *)
Lemma breachedOutput_Decode_fields (bo0 : breachedOutput)
    (scratch : list byte) (r1 r2 rest : Reader) (o : OutPoint)
    (sd : SignDescriptor) (b1 b2 flag : byte) :
  length scratch = 8%nat ->
  readOutpoint r1 (outpoint bo0) = Ok (o, r2) ->
  ReadSignDescriptor r2 (signDescriptor bo0) = Ok (sd, b1 :: b2 :: flag :: rest) ->
  breachedOutput_Decode bo0 (scratch ++ r1)
  = Ok (mkBreachedOutput (to_int64 (BigEndian.Uint64 scratch)) o sd
          (BigEndian.Uint16 [b1; b2]) (witnessFunc bo0)
          (bool_decide (flag = x01)), rest).
Proof.
  intros Hlen Ho Hsd. unfold breachedOutput_Decode.
  rewrite (ReadFull_app scratch r1 8 Hlen). ok.
  rewrite Ho. ok. rewrite Hsd. ok.
  change (b1 :: b2 :: flag :: rest) with ([b1; b2] ++ flag :: rest).
  rewrite (ReadFull_app [b1; b2] _ 2 eq_refl). ok.
  change (flag :: rest) with ([flag] ++ rest).
  rewrite (ReadFull_app [flag] _ 1 eq_refl). ok.
  do 3 f_equal.
  apply bool_decide_ext. split; [now intros [= ->] | now intros ->].
Qed.

Lemma breachedOutput_Decode_bytes (bo : breachedOutput) (rest : Reader) :
  wf_breachedOutput bo ->
  breachedOutput_Decode zeroBreachedOutput (output_bytes bo ++ rest)
  = Ok (stored_output bo, rest).
Proof.
  intros [Hamt Hop Hsd Hwt]. unfold output_bytes.
  rewrite <- app_assoc.
  pose proof (BigEndian_length_put 2 (to_uint16 (witnessType bo))) as Hl.
  destruct (BigEndian.put 2 (to_uint16 (witnessType bo)))
    as [|b1 [|b2 [|? ?]]] eqn:Eput; try discriminate Hl.
  erewrite (breachedOutput_Decode_fields zeroBreachedOutput _ _ _ rest
              (outpoint bo) (signDescriptor bo) b1 b2
              (if twoStageClaim bo then x01 else x00)).
  - unfold stored_output. do 2 f_equal. f_equal.
    + rewrite Uint64_PutUint64. now apply to_int64_to_uint64.
    + rewrite <- Eput. change (BigEndian.put 2) with BigEndian.PutUint16.
      rewrite Uint16_PutUint16. now apply to_uint16_id.
    + now destruct (twoStageClaim bo).
  - apply BigEndian_length_put.
  - rewrite <- app_assoc. apply Hop.
  - cbn [outpoint zeroBreachedOutput signDescriptor].
    unfold BigEndian.PutUint16. rewrite Eput.
    rewrite <- app_assoc. apply Hsd.
Qed.

Lemma decodeHtlcOutputs_bytes (bos : list breachedOutput) (rest : Reader) :
  Forall wf_breachedOutput bos ->
  decodeHtlcOutputs (length bos) (concat (output_bytes <$> bos) ++ rest)
  = Ok (stored_output <$> bos, rest).
Proof.
  induction 1 as [|bo bos Hbo _ IH];
    cbn [length decodeHtlcOutputs fmap list_fmap concat]; [reflexivity|].
  rewrite <- app_assoc, (breachedOutput_Decode_bytes bo) by assumption.
  ok. rewrite IH. reflexivity.
Qed.

Lemma retributionInfo_Decode_bytes (r : retributionInfo) (rest : Reader) :
  wf_retributionInfo r ->
  retributionInfo_Decode zeroRetributionInfo (retribution_bytes r ++ rest)
  = Ok (stored r, rest).
Proof.
  intros [Hh Hcp [Hkl Hk] Hcap Hbal Hself Hrev Hhtlc Hlen Hcnt].
  unfold retributionInfo_Decode, retribution_bytes.
  rewrite <- !app_assoc.
  rewrite (ReadFull_app (commitHash r) _ 32 Hh). ok.
  unfold NewHash. rewrite decide_True by assumption. ok.
  cbn [chanPoint zeroRetributionInfo]. rewrite Hcp. ok.
  rewrite (ReadFull_app _ _ 33 Hkl). ok. rewrite Hk. ok.
  rewrite (ReadFull_app _ _ 8 (BigEndian_length_put 8 _)). ok.
  rewrite (ReadFull_app _ _ 8 (BigEndian_length_put 8 _)). ok.
  rewrite (breachedOutput_Decode_bytes (selfOutput r)) by assumption. ok.
  rewrite (breachedOutput_Decode_bytes (revokedOutput r)) by assumption. ok.
  assert (Hu : to_uint64 (Z.of_nat (length (htlcOutputs r)))
               = Z.of_nat (length (htlcOutputs r))).
  { unfold to_uint64. apply Z.mod_small. unfold is_int64 in Hlen. lia. }
  rewrite Hu, Hcnt. ok.
  rewrite (to_int64_id _ Hlen).
  rewrite decide_False by lia.
  rewrite Nat2Z.id, decodeHtlcOutputs_bytes by assumption. ok.
  unfold stored. cbn [doneChan zeroRetributionInfo].
  change (BigEndian.put 8) with BigEndian.PutUint64.
  rewrite !Uint64_PutUint64, !to_int64_to_uint64 by assumption.
  reflexivity.
Qed.

Lemma persisted_eq_output_stored (bo : breachedOutput) :
  persisted_eq_output (stored_output bo) bo.
Proof. repeat split. Qed.

Lemma persisted_eq_stored (r : retributionInfo) : persisted_eq (stored r) r.
Proof.
  repeat split. cbn. induction (htlcOutputs r); constructor; auto.
  apply persisted_eq_output_stored.
Qed.

End EncodingFacts.

Section EncodingClaims.
Context {C : Collaborators} {Sg : Signing}.

(** C1. Encode/decode round trip: for every [retributionInfo] whose
    remote identity is a valid compressed public key and whose
    [htlcOutputs] has any length, decoding the bytes produced by
    [Encode] succeeds, consumes exactly those bytes and yields a record
    equal to the original in every persisted field ([commitHash],
    [chanPoint], [remoteIdentity], [capacity], [settledBalance],
    [selfOutput], [revokedOutput], [htlcOutputs]); likewise for every
    [breachedOutput] in [amt], [outpoint], [signDescriptor],
    [witnessType] and [twoStageClaim]. *)
Theorem encode_decode_roundtrip
    (r : retributionInfo) (bo : breachedOutput) (rest : list byte) :
  wf_retributionInfo r ->
  wf_breachedOutput bo ->
  (exists buf r',
      retributionInfo_Encode r [] = Ok buf
      /\ retributionInfo_Decode zeroRetributionInfo (buf ++ rest) = Ok (r', rest)
      /\ persisted_eq r' r)
  /\ (exists buf bo',
        breachedOutput_Encode bo [] = Ok buf
        /\ breachedOutput_Decode zeroBreachedOutput (buf ++ rest) = Ok (bo', rest)
        /\ persisted_eq_output bo' bo).
Proof.
  intros Hr Hbo. split.
  - exists (retribution_bytes r), (stored r). split; [|split].
    + apply (retributionInfo_Encode_bytes r []).
    + now apply retributionInfo_Decode_bytes.
    + apply persisted_eq_stored.
  - exists (output_bytes bo), (stored_output bo). split; [|split].
    + apply (breachedOutput_Encode_bytes bo []).
    + now apply breachedOutput_Decode_bytes.
    + apply persisted_eq_output_stored.
Qed.

(** C3, as the code has it: [breachedOutput.Decode] does not validate
    the witness type. On any stream whose amount, outpoint and sign
    descriptor are read successfully and are followed by two bytes and a
    flag byte, it succeeds and stores the big-endian value of the two
    bytes as [witnessType], whatever that value is. *)
Theorem Decode_accepts_any_witnessType
    (bo0 : breachedOutput) (scratch : list byte) (r1 r2 rest : Reader)
    (o : OutPoint) (sd : SignDescriptor) (b1 b2 flag : byte) :
  length scratch = 8%nat ->
  readOutpoint r1 (outpoint bo0) = Ok (o, r2) ->
  ReadSignDescriptor r2 (signDescriptor bo0) = Ok (sd, b1 :: b2 :: flag :: rest) ->
  exists bo,
    breachedOutput_Decode bo0 (scratch ++ r1) = Ok (bo, rest)
    /\ witnessType bo = 256 * Z_of_byte b1 + Z_of_byte b2.
Proof.
  intros Hlen Ho Hsd. eexists. split.
  - eapply breachedOutput_Decode_fields; eassumption.
  - unfold BigEndian.Uint16, BigEndian.get.
    cbn [witnessType fold_left]. lia.
Qed.

End EncodingClaims.

Module DoubleFacts.
Import Double Sample.

(** Well-formedness of concrete records, by evaluation. *)
Ltac by_evaluation :=
  lazymatch goal with
  | |- wf_retributionInfo _ => split; by_evaluation
  | |- wf_breachedOutput _ => split; by_evaluation
  | |- ValidPubKey _ => split; reflexivity
  | |- Forall _ ?l =>
      let l' := eval hnf in l in
      change l with l'; constructor; by_evaluation
  | |- is_int64 _ => unfold is_int64; vm_compute; split; congruence
  | |- is_uint16 _ => unfold is_uint16; vm_compute; split; congruence
  | |- OutpointCodec _ => intros ?; reflexivity
  | |- SignDescCodec _ => intros ?; reflexivity
  | |- VarIntCodec _ => intros ?; reflexivity
  | |- _ => reflexivity
  end.

Lemma sampleRetribution_wf : wf_retributionInfo sampleRetribution.
Proof. by_evaluation. Defined.

Lemma sampleOutput_wf : wf_breachedOutput sampleOutput.
Proof. by_evaluation. Defined.

Lemma encode_decode_roundtrip_witness :
  wf_retributionInfo sampleRetribution
  /\ wf_breachedOutput sampleOutput
  /\ (exists buf r',
        retributionInfo_Encode sampleRetribution [] = Ok buf
        /\ retributionInfo_Decode zeroRetributionInfo (buf ++ [x2a]) = Ok (r', [x2a])
        /\ persisted_eq r' sampleRetribution)
  /\ (exists buf bo',
        breachedOutput_Encode sampleOutput [] = Ok buf
        /\ breachedOutput_Decode zeroBreachedOutput (buf ++ [x2a]) = Ok (bo', [x2a])
        /\ persisted_eq_output bo' sampleOutput).
Proof.
  split; [exact sampleRetribution_wf|].
  split; [exact sampleOutput_wf|].
  exact (encode_decode_roundtrip sampleRetribution sampleOutput [x2a]
           sampleRetribution_wf sampleOutput_wf).
Defined.

(** C3 fails on the code: the encoding of an output whose witness type
    is 0xffff, which is not a known witness type, decodes without
    error to a record carrying that value; so does a [retributionInfo]
    holding such an output. *)
Lemma Decode_unknown_witnessType_accepted :
  knownWitnessType (witnessType oddOutput) = false
  /\ breachedOutput_Decode zeroBreachedOutput (output_bytes oddOutput)
     = Ok (stored_output oddOutput, [])
  /\ witnessType (stored_output oddOutput) = 65535
  /\ retributionInfo_Decode zeroRetributionInfo
       (retribution_bytes sampleRetribution)
     = Ok (stored sampleRetribution, [])
  /\ witnessType <$> htlcOutputs (stored sampleRetribution) = [2; 65535].
Proof. repeat split; vm_compute; reflexivity. Qed.

Lemma Decode_accepts_any_witnessType_witness :
  length (BigEndian.put 8 20) = 8%nat
  /\ readOutpoint oddStream (outpoint zeroBreachedOutput)
     = Ok (mkOutPoint hash2 3, oddTail)
  /\ ReadSignDescriptor oddTail (signDescriptor zeroBreachedOutput)
     = Ok (signDesc1 20, [xff; xff; x00])
  /\ exists bo,
       breachedOutput_Decode zeroBreachedOutput (BigEndian.put 8 20 ++ oddStream)
       = Ok (bo, [])
       /\ witnessType bo = 256 * Z_of_byte xff + Z_of_byte xff.
Proof.
  split; [reflexivity|]. split; [reflexivity|]. split; [reflexivity|].
  apply (Decode_accepts_any_witnessType zeroBreachedOutput
           (BigEndian.put 8 20) oddStream oddTail [] (mkOutPoint hash2 3)
           (signDesc1 20) xff xff x00);
    reflexivity.
Defined.

End DoubleFacts.

(** ** The sweep-transaction builders *)

Lemma to_int64_sub (x y : Z) : to_int64 (to_int64 x - y) = to_int64 (x - y).
Proof.
  unfold to_int64. f_equal.
  replace ((x + 2 ^ 63) mod 2 ^ 64 - 2 ^ 63 - y + 2 ^ 63)
    with ((x + 2 ^ 63) mod 2 ^ 64 - y) by lia.
  rewrite Zminus_mod_idemp_l. f_equal. lia.
Qed.

(** Running the arbiter's monad one bind at a time. *)
Lemma M_bind_run {N : Node} {A B : Type} (m : M A) (f : A -> M B) (st : State) :
  (m ≫= f) st = (let '(a, st') := m st in f a st').
Proof. reflexivity. Qed.

Lemma M_ret_run {N : Node} {A : Type} (a : A) (st : State) :
  (mret a : M A) st = (a, st).
Proof. reflexivity. Qed.

Lemma call_run {N : Node} {A : Type} (f : World -> A * World) (ev : A -> event)
    (st : State) :
  call f ev st =
  (fst (f (world st)),
   mkState (snd (f (world st))) (retdb st) (trace st ++ [ev (fst (f (world st)))])).
Proof. unfold call. now destruct (f (world st)). Qed.

Lemma emit_run {N : Node} (e : event) (st : State) :
  emit e st = (tt, mkState (world st) (retdb st) (trace st ++ [e])).
Proof. reflexivity. Qed.

Lemma onStore_run {N : Node} (f : bolt.Tx -> bolt.Tx * option error)
    (ev : option error -> event) (st : State) :
  onStore f ev st =
  (snd (f (retdb st)),
   mkState (world st) (fst (f (retdb st))) (trace st ++ [ev (snd (f (retdb st)))])).
Proof. unfold onStore. now destruct (f (retdb st)). Qed.

Ltac run :=
  repeat (first [ rewrite M_bind_run | rewrite call_run | rewrite M_ret_run
                | rewrite onStore_run | rewrite emit_run
                | progress unfold brarLog, closeChan ];
          cbv beta iota).

Section BuilderFacts.
Context {C : Collaborators} {Sg : Signing} {N : Node}.

(** [createJusticeTx] in one equation: one call to the wallet, then the
    assembled transaction is signed. *)
Lemma createJusticeTx_run (r : retributionInfo) (st : State) :
  createJusticeTx r st =
  (match fst (newSweepPkScript (world st)) with
   | Err e => (r, Err e)
   | Ok pkScript =>
       (withWitnessFuncs r, signJusticeTx r (unsignedJusticeTx r pkScript))
   end,
   mkState (snd (newSweepPkScript (world st))) (retdb st)
     (trace st ++ [EvNewSweepPkScript])).
Proof.
  unfold createJusticeTx. run.
  destruct (newSweepPkScript (world st)) as [[pkScript|e] w]; cbn [fst snd];
    run; [|reflexivity].
  unfold signJusticeTx, unsignedJusticeTx.
  cbn [selfOutput revokedOutput amt outpoint attachWitnessFunc].
  rewrite to_int64_sub. reflexivity.
Qed.

Lemma signJusticeTx_Ok (r : retributionInfo) (pkScript : list byte) (tx : MsgTx) :
  signJusticeTx r (unsignedJusticeTx r pkScript) = Ok tx ->
  Version tx = 2
  /\ PreviousOutPoint <$> tx_TxIn tx
     = [outpoint (selfOutput r); outpoint (revokedOutput r)]
  /\ tx_TxOut tx
     = [mkTxOut (to_int64 (amt (selfOutput r) + amt (revokedOutput r) - 5000))
          pkScript].
Proof.
  unfold signJusticeTx.
  destruct (GenWitnessFunc (witnessType (selfOutput r)) _ _ _ 0) as [lw|e];
    [|discriminate].
  ok. cbn [unsignedJusticeTx setWitness tx_TxIn lookup list_lookup]. ok.
  destruct (GenWitnessFunc (witnessType (revokedOutput r)) _ _ _ 1) as [rw|e];
    [|discriminate].
  ok. cbn. intros [= <-]. auto.
Qed.


(** [craftCommitSweepTx] on an output it will not sweep: one call to
    the wallet, then the size check. *)
Lemma craftCommitSweepTx_small (closeInfo : UnilateralCloseSummary) (st : State) :
  - 2 ^ 63 + 5000 <= Value (Output (SelfOutputSignDesc closeInfo)) ->
  Value (Output (SelfOutputSignDesc closeInfo)) <= 5000 ->
  craftCommitSweepTx closeInfo st =
  (match fst (newSweepPkScript (world st)) with
   | Err e => Err e
   | Ok _ => Err errOutputTooSmall
   end,
   mkState (snd (newSweepPkScript (world st))) (retdb st)
     (trace st ++ [EvNewSweepPkScript])).
Proof.
  intros Hlo Hhi. unfold craftCommitSweepTx. run.
  destruct (newSweepPkScript (world st)) as [[pkScript|e] w]; cbn [fst snd];
    run; [|reflexivity].
  rewrite to_int64_id by (unfold is_int64; lia).
  rewrite decide_True by lia. reflexivity.
Qed.

(** C2. Justice builder shape: whenever [createJusticeTx] succeeds, the
    transaction it returns has version 2, exactly two inputs spending
    [selfOutput.outpoint] (index 0) and [revokedOutput.outpoint]
    (index 1), and exactly one output, which pays the script the wallet
    supplied; its value is the int64 result of A + B - 5000 for
    A = [selfOutput.amt] and B = [revokedOutput.amt], that is A + B - 5000
    itself whenever that number is an int64. The HTLC list plays no
    role. *)
Theorem createJusticeTx_shape
    (r r' : retributionInfo) (tx : MsgTx) (st st' : State) :
  createJusticeTx r st = ((r', Ok tx), st') ->
  exists pkScript,
    fst (newSweepPkScript (world st)) = Ok pkScript
    /\ Version tx = 2
    /\ PreviousOutPoint <$> tx_TxIn tx
       = [outpoint (selfOutput r); outpoint (revokedOutput r)]
    /\ PkScript <$> tx_TxOut tx = [pkScript]
    /\ Value <$> tx_TxOut tx
       = [to_int64 (amt (selfOutput r) + amt (revokedOutput r) - 5000)]
    /\ (is_int64 (amt (selfOutput r) + amt (revokedOutput r) - 5000) ->
        Value <$> tx_TxOut tx
        = [amt (selfOutput r) + amt (revokedOutput r) - 5000]).
Proof.
  rewrite createJusticeTx_run.
  destruct (fst (newSweepPkScript (world st))) as [pkScript|e];
    cbv beta iota; [|discriminate].
  intros [= _ Hsign _]. exists pkScript.
  destruct (signJusticeTx_Ok r pkScript tx Hsign) as (Hv & Hin & Hout).
  rewrite Hout. cbn [fmap list_fmap Value PkScript].
  repeat split; auto.
  intros Hrange. now rewrite to_int64_id.
Qed.

(** C4. Commitment sweep rejects dust: for every unilateral-close
    summary whose self-output value is at most 5000 satoshis (and not so
    far below zero that the int64 subtraction wraps),
    [craftCommitSweepTx] returns an error and no transaction: the
    wallet's own error when [newSweepPkScript] failed, and the
    output-too-small one when the wallet has supplied a script. The
    close callback of [breachObserver] therefore publishes nothing. *)
Theorem craftCommitSweepTx_rejects_small_output
    (closeInfo : UnilateralCloseSummary) (chanPoint : OutPoint) (st : State) :
  - 2 ^ 63 + 5000 <= Value (Output (SelfOutputSignDesc closeInfo)) ->
  Value (Output (SelfOutputSignDesc closeInfo)) <= 5000 ->
  (exists e,
      fst (craftCommitSweepTx closeInfo st) = Err e
      /\ (is_Ok (fst (newSweepPkScript (world st))) -> e = errOutputTooSmall)
      /\ (forall e', fst (newSweepPkScript (world st)) = Err e' -> e = e'))
  /\ exists evs,
       trace (snd (sweepAndMarkClosed closeInfo chanPoint st)) = trace st ++ evs
       /\ Forall (fun e => isPublish e = false) evs.
Proof.
  intros Hlo Hhi. split.
  - rewrite (craftCommitSweepTx_small closeInfo st Hlo Hhi). cbn [fst].
    destruct (fst (newSweepPkScript (world st))) as [pk|e].
    + exists errOutputTooSmall. split; [reflexivity|].
      split; [auto|discriminate].
    + exists e. split; [reflexivity|].
      split; [intros [pk [=]]|now intros e' [= ->]].
  - unfold sweepAndMarkClosed.
    destruct (SelfOutPoint closeInfo) as [op|]; run.
    + rewrite (craftCommitSweepTx_small closeInfo st Hlo Hhi).
      destruct (fst (newSweepPkScript (world st))) as [pk|e]; run;
        cbn [world retdb trace];
        destruct (fst (MarkChanFullyClosed chanPoint _)); run;
        cbn [snd trace]; rewrite <- ?app_assoc;
        (eexists; split; [reflexivity|]); repeat constructor.
    + cbn [world retdb trace];
        destruct (fst (MarkChanFullyClosed chanPoint _)); run;
        cbn [snd trace]; rewrite <- ?app_assoc;
        (eexists; split; [reflexivity|]); repeat constructor.
Qed.


End BuilderFacts.

Module BuilderExamples.
Import Double Sample DryWallet DoubleFacts.

Example createJusticeTx_sample :
  createJusticeTx sampleRetribution calm
  = ((withWitnessFuncs sampleRetribution, Ok sampleJusticeTx),
     mkState (world calm) ∅ [EvNewSweepPkScript]).
Proof. reflexivity. Qed.

Lemma createJusticeTx_shape_witness :
  createJusticeTx sampleRetribution calm
  = ((withWitnessFuncs sampleRetribution, Ok sampleJusticeTx),
     mkState (world calm) ∅ [EvNewSweepPkScript])
  /\ exists pkScript,
       fst (newSweepPkScript (world calm)) = Ok pkScript
       /\ Version sampleJusticeTx = 2
       /\ PreviousOutPoint <$> tx_TxIn sampleJusticeTx
          = [outpoint (selfOutput sampleRetribution);
             outpoint (revokedOutput sampleRetribution)]
       /\ PkScript <$> tx_TxOut sampleJusticeTx = [pkScript]
       /\ Value <$> tx_TxOut sampleJusticeTx
          = [to_int64 (amt (selfOutput sampleRetribution)
                       + amt (revokedOutput sampleRetribution) - 5000)]
       /\ (is_int64 (amt (selfOutput sampleRetribution)
                     + amt (revokedOutput sampleRetribution) - 5000) ->
           Value <$> tx_TxOut sampleJusticeTx
           = [amt (selfOutput sampleRetribution)
              + amt (revokedOutput sampleRetribution) - 5000]).
Proof.
  split; [reflexivity|].
  apply (createJusticeTx_shape sampleRetribution
           (withWitnessFuncs sampleRetribution) sampleJusticeTx calm
           (mkState (world calm) ∅ [EvNewSweepPkScript])).
  reflexivity.
Defined.

Example craftCommitSweepTx_dust :
  fst (craftCommitSweepTx dustClose calm) = Err errOutputTooSmall.
Proof. reflexivity. Qed.

Example craftCommitSweepTx_enough :
  fst (craftCommitSweepTx
         (mkUnilateralCloseSummary hash3 100 (Some (mkOutPoint hash3 0))
            (signDesc1 5001)) calm)
  = Ok (mkMsgTx 1 [mkTxIn (mkOutPoint hash3 0) [] [[x30; x01]; key1] 0]
          [mkTxOut 1 sweepScript] 0).
Proof. reflexivity. Qed.

(** C4 fails on the code: on a node whose wallet fails to supply a
    script, [craftCommitSweepTx] on a self output of 4999 satoshis
    returns the wallet's error, which is not the output-too-small one;
    no transaction is returned and the callback publishes nothing. *)
Lemma craftCommitSweepTx_small_output_wallet_error :
  Value (Output (SelfOutputSignDesc dustClose)) = 4999
  /\ fst (newSweepPkScript (Node:=dryNode) (world dry)) = Err errNoScript
  /\ fst (craftCommitSweepTx (N:=dryNode) dustClose dry) = Err errNoScript
  /\ errNoScript <> errOutputTooSmall
  /\ trace (snd (sweepAndMarkClosed (N:=dryNode) dustClose (mkOutPoint hash1 0) dry))
     = [EvNewSweepPkScript;
        EvLog Errorf "unable to generate sweep tx: %v";
        EvLog Infof "Force closed ChannelPoint(%v) is fully closed, updating DB";
        EvMarkChanFullyClosed (mkOutPoint hash1 0) None].
Proof.
  split; [reflexivity|]. split; [reflexivity|]. split; [reflexivity|].
  split; [discriminate|reflexivity].
Qed.

Lemma craftCommitSweepTx_rejects_small_output_witness :
  - 2 ^ 63 + 5000 <= Value (Output (SelfOutputSignDesc dustClose))
  /\ Value (Output (SelfOutputSignDesc dustClose)) <= 5000
  /\ (exists e,
        fst (craftCommitSweepTx dustClose calm) = Err e
        /\ (is_Ok (fst (newSweepPkScript (world calm))) -> e = errOutputTooSmall)
        /\ (forall e', fst (newSweepPkScript (world calm)) = Err e' -> e = e'))
  /\ exists evs,
       trace (snd (sweepAndMarkClosed dustClose (mkOutPoint hash1 0) calm))
       = trace calm ++ evs
       /\ Forall (fun e => isPublish e = false) evs.
Proof.
  assert (Hlo : - 2 ^ 63 + 5000 <= Value (Output (SelfOutputSignDesc dustClose)))
    by (vm_compute; congruence).
  assert (Hhi : Value (Output (SelfOutputSignDesc dustClose)) <= 5000)
    by (vm_compute; congruence).
  split; [exact Hlo|]. split; [exact Hhi|].
  exact (craftCommitSweepTx_rejects_small_output dustClose (mkOutPoint hash1 0)
           calm Hlo Hhi).
Defined.

Example createJusticeTx_negative_output :
  tx_TxOut <$> snd (fst (createJusticeTx smallRetribution calm))
  = Ok [mkTxOut (-1000) sweepScript].
Proof. reflexivity. Qed.


End BuilderExamples.

(** ** The retribution store *)

Lemma pair_from_snd {A B : Type} (p : A * B) (b : B) : snd p = b -> p = (fst p, b).
Proof. destruct p. cbn. now intros ->. Defined.

Lemma retributionBucket_nonempty : retributionBucket <> [].
Proof. discriminate. Qed.

Section StoreFacts.
Context {C : Collaborators} {Sg : Signing}.

(** [Remove] as one equation: an error exactly when the bucket is
    missing, otherwise the key is deleted and nil returned, whether or
    not the key was there. *)
Lemma retributionStore_Remove_run (key : OutPoint) (db : bolt.Tx) :
  retributionStore_Remove key db =
  match db !! retributionBucket with
  | None => (db, Some errNoBucket)
  | Some b => (<[retributionBucket := delete (encodeOutpoint key) b]> db, None)
  end.
Proof.
  unfold retributionStore_Remove, bolt.Update, bolt.Bucket_of, bolt.Delete,
    writeOutpoint, Write.
  destruct (db !! retributionBucket) as [b|] eqn:Hb; [|reflexivity].
  ok. cbn [app]. f_equal.
  apply map_eq. intros name.
  destruct (decide (name = retributionBucket)) as [->|Hne].
  - now rewrite lookup_alter_eq, Hb, lookup_insert_eq.
  - now rewrite lookup_alter_ne, lookup_insert_ne.
Qed.

(** [Add], when it returns nil, has put the encoding of the record under
    the key of its channel point, creating the bucket if need be. *)
Lemma retributionStore_Add_ok (ret : retributionInfo) (db db' : bolt.Tx) :
  retributionStore_Add ret db = (db', None) ->
  db' = <[retributionBucket :=
            <[encodeOutpoint (chanPoint ret) := retribution_bytes ret]>
              (default ∅ (db !! retributionBucket))]> db.
Proof.
  unfold retributionStore_Add, bolt.Update, bolt.CreateBucketIfNotExists,
    writeOutpoint, Write.
  rewrite decide_False by apply retributionBucket_nonempty.
  rewrite (retributionInfo_Encode_bytes ret []). cbn [app].
  unfold bolt.Put.
  destruct (db !! retributionBucket) as [b|] eqn:Hb; ok;
    repeat (case_decide; [intros [=]|]); intros [= <-];
    apply map_eq; intros name;
    destruct (decide (name = retributionBucket)) as [->|Hne].
  - now rewrite lookup_alter_eq, Hb, !lookup_insert_eq.
  - now rewrite lookup_alter_ne, lookup_insert_ne.
  - now rewrite lookup_alter_eq, !lookup_insert_eq.
  - now rewrite lookup_alter_ne, !lookup_insert_ne.
Qed.

(** [Add] fails only on a key or value bolt refuses. *)
Lemma retributionStore_Add_succeeds (ret : retributionInfo) (db : bolt.Tx) :
  encodeOutpoint (chanPoint ret) <> [] ->
  Z.of_nat (length (encodeOutpoint (chanPoint ret))) <= bolt.MaxKeySize ->
  Z.of_nat (length (retribution_bytes ret)) <= bolt.MaxValueSize ->
  snd (retributionStore_Add ret db) = None.
Proof.
  intros Hk Hkl Hvl.
  unfold retributionStore_Add, bolt.Update, bolt.CreateBucketIfNotExists,
    writeOutpoint, Write.
  rewrite decide_False by apply retributionBucket_nonempty.
  rewrite (retributionInfo_Encode_bytes ret []). cbn [app].
  unfold bolt.Put.
  destruct (db !! retributionBucket) as [b|]; ok;
    rewrite decide_False by assumption;
    rewrite decide_False by lia; rewrite decide_False by lia; reflexivity.
Qed.

Lemma decodeValue_bytes (ret : retributionInfo) :
  wf_retributionInfo ret -> decodeValue (retribution_bytes ret) = Some (stored ret).
Proof.
  intros Hwf. unfold decodeValue.
  rewrite <- (app_nil_r (retribution_bytes ret)).
  now rewrite retributionInfo_Decode_bytes.
Qed.

Lemma store_consistent_empty : store_consistent ∅.
Proof. intros b k v Hb. now rewrite lookup_empty in Hb. Qed.

Lemma store_consistent_Add (ret : retributionInfo) (db db' : bolt.Tx) :
  wf_retributionInfo ret -> store_consistent db ->
  retributionStore_Add ret db = (db', None) -> store_consistent db'.
Proof.
  intros Hwf Hdb Hadd b k v.
  rewrite (retributionStore_Add_ok _ _ _ Hadd), lookup_insert_eq.
  intros [= <-].
  destruct (decide (k = encodeOutpoint (chanPoint ret))) as [->|Hne].
  - rewrite lookup_insert_eq. intros [= <-].
    exists (stored ret). split; [now apply decodeValue_bytes | reflexivity].
  - rewrite lookup_insert_ne by congruence.
    destruct (db !! retributionBucket) as [b0|] eqn:Hb0; cbn [default].
    + now apply Hdb.
    + now rewrite lookup_empty.
Qed.

Lemma store_consistent_Remove (key : OutPoint) (db : bolt.Tx) :
  store_consistent db -> store_consistent (fst (retributionStore_Remove key db)).
Proof.
  intros Hdb. rewrite retributionStore_Remove_run.
  destruct (db !! retributionBucket) as [b0|] eqn:Hb0; cbn [fst]; [|exact Hdb].
  intros b k v. rewrite lookup_insert_eq. intros [= <-].
  destruct (decide (k = encodeOutpoint key)) as [->|Hne].
  - now rewrite lookup_delete_eq.
  - rewrite lookup_delete_ne by congruence. now apply Hdb.
Qed.

(** [ForAll] on a bucket whose values all decode: the callback [visit]
    sees them all, in cursor order, and no error is raised. *)
Lemma forEach_visit (kvs : list (list byte * list byte)) (seen : list retributionInfo) :
  Forall (fun kv => is_Some (decodeValue kv.2)) kvs ->
  bolt.forEach (forAllBody visit) kvs seen
  = (seen ++ omap (fun kv => decodeValue kv.2) kvs, None).
Proof.
  intros Hall. revert seen.
  induction Hall as [|[k v] kvs [ret Hret] _ IH]; intros seen;
    cbn [bolt.forEach omap list_omap].
  - now rewrite app_nil_r.
  - cbn [snd] in *. rewrite Hret. unfold forAllBody, visit at 1.
    unfold decodeValue in Hret.
    destruct (retributionInfo_Decode zeroRetributionInfo v) as [[ret' rest]|e];
      [|discriminate].
    injection Hret as ->. rewrite IH. now rewrite <- app_assoc.
Qed.

Lemma retributionStore_ForAll_run {St : Type}
    (cb : retributionInfo -> St -> St * option error) (db : bolt.Tx) (s : St) :
  retributionStore_ForAll cb db s =
  match db !! retributionBucket with
  | None => (s, None)
  | Some b => bolt.forEach (forAllBody cb) (bolt.entries b) s
  end.
Proof. reflexivity. Qed.

Lemma entries_elem_of (b : gmap (list byte) (list byte)) (k v : list byte) :
  (k, v) ∈ bolt.entries b <-> b !! k = Some v.
Proof.
  unfold bolt.entries. rewrite merge_sort_Permutation.
  apply elem_of_map_to_list.
Qed.

Lemma entries_NoDup_keys (b : gmap (list byte) (list byte)) :
  NoDup (bolt.entries b).*1.
Proof.
  unfold bolt.entries. rewrite merge_sort_Permutation.
  apply NoDup_fst_map_to_list.
Qed.

(** Among entries with distinct keys, of which only the one under [k]
    decodes to a record of channel [cp], the decoded records of channel
    [cp] are exactly that one. *)
Lemma filter_decoded_unique (kvs : list (list byte * list byte))
    (k v : list byte) (cp : OutPoint) (ret : retributionInfo) :
  NoDup kvs.*1 ->
  (k, v) ∈ kvs ->
  decodeValue v = Some ret ->
  chanPoint ret = cp ->
  (forall k' v' ret', (k', v') ∈ kvs -> decodeValue v' = Some ret' ->
                      chanPoint ret' = cp -> k' = k) ->
  filter (fun r => chanPoint r = cp) (omap (fun kv => decodeValue kv.2) kvs) = [ret].
Proof.
  induction kvs as [|[k' v'] kvs IH]; intros Hnd Hin Hdec Hcp Honly.
  - now apply elem_of_nil in Hin.
  - cbn [fmap list_fmap fst] in Hnd. apply NoDup_cons in Hnd as [Hk' Hnd].
    cbn [omap list_omap snd].
    apply elem_of_cons in Hin as [[= <- <-]|Hin].
    + rewrite Hdec. rewrite filter_cons_True by assumption. f_equal.
      destruct (filter (fun r => chanPoint r = cp)
                  (omap (fun kv => decodeValue kv.2) kvs)) as [|r rs] eqn:Hf;
        [reflexivity|].
      exfalso.
      assert (Hr : r ∈ filter (fun r => chanPoint r = cp)
                     (omap (fun kv => decodeValue kv.2) kvs))
        by (rewrite Hf; left).
      apply list_elem_of_filter in Hr as [Hrcp Hr].
      apply list_elem_of_omap in Hr as ([k2 v2] & Hin2 & Hd2). cbn [snd] in Hd2.
      assert (k2 = k) as -> by (eapply Honly; [right; eassumption|eassumption..]).
      apply Hk'. apply list_elem_of_fmap. exists (k, v2). auto.
    + assert (Hne : k' <> k).
      { intros ->. apply Hk'. apply list_elem_of_fmap. exists (k, v). auto. }
      destruct (decodeValue v') as [r'|] eqn:Hd'.
      * rewrite filter_cons_False.
        -- apply IH; auto. intros k2 v2 r2 Hin2. apply Honly. now right.
        -- intros Hr'. apply Hne. eapply Honly; [left|eassumption..].
      * apply IH; auto. intros k2 v2 r2 Hin2. apply Honly. now right.
Qed.

Lemma store_consistent_bucket (db : bolt.Tx) (k v : list byte) :
  store_consistent db ->
  default ∅ (db !! retributionBucket) !! k = Some v ->
  exists ret, decodeValue v = Some ret /\ encodeOutpoint (chanPoint ret) = k.
Proof.
  intros Hdb. destruct (db !! retributionBucket) as [b|] eqn:Hb; cbn [default].
  - now apply Hdb.
  - now rewrite lookup_empty.
Qed.

(** C5. Store upsert: for every pair of records [r1], [r2] with the same
    channel point, after [Add r1] and then [Add r2] (both returning nil)
    [ForAll] runs to the end without error and applies its callback to
    exactly one record of that channel point, which equals [r2] in every
    persisted field. *)
Theorem Add_twice_ForAll_visits_latest
    (r1 r2 : retributionInfo) (db db1 db2 : bolt.Tx) :
  chanPoint r1 = chanPoint r2 ->
  wf_retributionInfo r2 ->
  store_consistent db ->
  retributionStore_Add r1 db = (db1, None) ->
  retributionStore_Add r2 db1 = (db2, None) ->
  exists seen ret,
    retributionStore_ForAll visit db2 [] = (seen, None)
    /\ filter (fun r => chanPoint r = chanPoint r2) seen = [ret]
    /\ persisted_eq ret r2.
Proof.
  intros Hcp Hwf Hdb Hadd1 Hadd2.
  apply retributionStore_Add_ok in Hadd1, Hadd2.
  set (k := encodeOutpoint (chanPoint r2)) in *.
  set (b0 := default ∅ (db !! retributionBucket)) in *.
  assert (Hb2 : db2 !! retributionBucket
                = Some (<[k := retribution_bytes r2]> b0)).
  { rewrite Hadd2, lookup_insert_eq. f_equal.
    rewrite Hadd1, lookup_insert_eq. cbn [default].
    rewrite Hcp. fold k. apply insert_insert_eq. }
  assert (Hentry : forall k' v',
             (k', v') ∈ bolt.entries (<[k := retribution_bytes r2]> b0) ->
             k' <> k ->
             exists ret, decodeValue v' = Some ret
                         /\ encodeOutpoint (chanPoint ret) = k').
  { intros k' v' Hin Hne. apply entries_elem_of in Hin.
    rewrite lookup_insert_ne in Hin by congruence.
    now apply (store_consistent_bucket db). }
  exists (omap (fun kv => decodeValue kv.2)
            (bolt.entries (<[k := retribution_bytes r2]> b0))), (stored r2).
  split; [|split].
  - rewrite retributionStore_ForAll_run, Hb2.
    rewrite forEach_visit; [reflexivity|].
    apply Forall_forall. intros [k' v'] Hin. cbn [snd].
    destruct (decide (k' = k)) as [->|Hne].
    + apply entries_elem_of in Hin. rewrite lookup_insert_eq in Hin.
      injection Hin as <-. rewrite decodeValue_bytes by assumption. eauto.
    + destruct (Hentry k' v' Hin Hne) as (ret & -> & _). eauto.
  - apply (filter_decoded_unique _ k (retribution_bytes r2)).
    + apply entries_NoDup_keys.
    + apply entries_elem_of, lookup_insert_eq.
    + now apply decodeValue_bytes.
    + reflexivity.
    + intros k' v' ret' Hin Hdec Hcp'.
      destruct (decide (k' = k)) as [|Hne]; [assumption|].
      destruct (Hentry k' v' Hin Hne) as (ret & Hdec' & Hk).
      rewrite Hdec in Hdec'. injection Hdec' as <-.
      rewrite <- Hk, Hcp'. reflexivity.
  - apply persisted_eq_stored.
Qed.

(** C6, as the code has it: [Remove] returns an error exactly when the
    retribution bucket does not exist, and then changes nothing; on a
    bucket that exists, empty or not, it deletes the key and returns
    nil. *)
Theorem Remove_fails_iff_bucket_missing (key : OutPoint) (db : bolt.Tx) :
  snd (retributionStore_Remove key db)
  = match db !! retributionBucket with
    | None => Some errNoBucket
    | Some _ => None
    end
  /\ fst (retributionStore_Remove key db)
     = match db !! retributionBucket with
       | None => db
       | Some b => <[retributionBucket := delete (encodeOutpoint key) b]> db
       end.
Proof.
  rewrite retributionStore_Remove_run.
  now destruct (db !! retributionBucket).
Qed.

End StoreFacts.

Module StoreExamples.
Import Double Sample DoubleFacts.

Example ForAll_after_two_adds :
  retributionStore_ForAll visit dbTwice [] = ([stored sampleRetribution], None).
Proof. reflexivity. Qed.

Lemma Add_twice_ForAll_visits_latest_witness :
  chanPoint staleRetribution = chanPoint sampleRetribution
  /\ wf_retributionInfo sampleRetribution
  /\ store_consistent ∅
  /\ retributionStore_Add staleRetribution ∅ = (dbOnce, None)
  /\ retributionStore_Add sampleRetribution dbOnce = (dbTwice, None)
  /\ exists seen ret,
       retributionStore_ForAll visit dbTwice [] = (seen, None)
       /\ filter (fun r => chanPoint r = chanPoint sampleRetribution) seen = [ret]
       /\ persisted_eq ret sampleRetribution.
Proof.
  assert (H1 : retributionStore_Add staleRetribution ∅ = (dbOnce, None))
    by (apply pair_from_snd; reflexivity).
  assert (H2 : retributionStore_Add sampleRetribution dbOnce = (dbTwice, None))
    by (apply pair_from_snd; reflexivity).
  split; [reflexivity|]. split; [exact sampleRetribution_wf|].
  split; [exact store_consistent_empty|].
  split; [exact H1|]. split; [exact H2|].
  exact (Add_twice_ForAll_visits_latest staleRetribution sampleRetribution
           ∅ dbOnce dbTwice eq_refl sampleRetribution_wf
           store_consistent_empty H1 H2).
Defined.

(** C6 fails on the code: after an [Add] and the matching [Remove] the
    retribution bucket exists and is empty, [ForAll] visits nothing, and
    a further [Remove] returns nil, not an error. *)
Lemma Remove_on_empty_bucket_returns_nil :
  dbEmptied !! retributionBucket = Some ∅
  /\ retributionStore_ForAll visit dbEmptied [] = ([], None)
  /\ snd (retributionStore_Remove (chanPoint sampleRetribution) dbEmptied) = None.
Proof. repeat split; reflexivity. Qed.

Example Remove_without_bucket :
  retributionStore_Remove (chanPoint sampleRetribution) ∅ = (∅, Some errNoBucket).
Proof. reflexivity. Qed.

End StoreExamples.

(** ** The retribution executor *)

(** A run that stopped before any closing step. *)
Ltac early_exit :=
  eexists; split;
  [ cbn [snd trace]; rewrite <- ?app_assoc; reflexivity
  | left; cbn; repeat split ].

Section ExecutorFacts.
Context {C : Collaborators} {Sg : Signing} {N : Node}.

(** What a run of [exactRetribution] emits: either the confirmation of
    the justice transaction was not received, none of the closing steps
    was taken and the store is untouched; or it was received and the
    closing steps are, in this order, [MarkChanFullyClosed], the store's
    [Remove] (whatever the first returned) and the close of [doneChan]. *)
Lemma exactRetribution_steps (confChan : ConfirmationEvent)
    (breachInfo : retributionInfo) (st : State) :
  exists evs,
    trace (snd (exactRetribution confChan breachInfo st)) = trace st ++ evs
    /\ (justiceConfirmed evs = false
        /\ omap finalStep evs = []
        /\ retdb (snd (exactRetribution confChan breachInfo st)) = retdb st
        \/ justiceConfirmed evs = true
           /\ (exists errM,
                 omap finalStep evs
                 = [ MarkedClosed (chanPoint breachInfo) errM;
                     RecordRemoved (chanPoint breachInfo)
                       (snd (retributionStore_Remove (chanPoint breachInfo) (retdb st)));
                     closeStep (doneChan breachInfo) ])
           /\ retdb (snd (exactRetribution confChan breachInfo st))
              = fst (retributionStore_Remove (chanPoint breachInfo) (retdb st))).
Proof.
  unfold exactRetribution. run.
  destruct (fst (awaitConfirmed confChan (world st))) as [[|]|]; run;
    [|early_exit..].
  rewrite createJusticeTx_run. cbv beta iota. cbn [world retdb trace].
  destruct (fst (newSweepPkScript _)) as [pkScript|e]; cbv beta iota;
    [|run; early_exit].
  destruct (signJusticeTx breachInfo _) as [justiceTx|e]; run;
    [|early_exit].
  cbn [world retdb trace].
  destruct (fst (GetBestBlock _)) as [[h currentHeight]|e]; run;
    [|early_exit].
  cbn [world retdb trace].
  destruct (fst (PublishTransaction justiceTx _)) as [e|]; run;
    [early_exit|].
  cbn [world retdb trace].
  destruct (fst (RegisterConfirmationsNtfn _ _ _ _)) as [confChan'|e]; run;
    [|early_exit].
  cbn [world retdb trace].
  destruct (fst (awaitConfirmed confChan' _)) as [[|]|]; run;
    [|early_exit..].
  cbn [world retdb trace chanPoint doneChan withWitnessFuncs].
  destruct (fst (MarkChanFullyClosed (chanPoint breachInfo) _)) as [errM|];
    run; cbn [world retdb trace];
    destruct (snd (retributionStore_Remove (chanPoint breachInfo) (retdb st)))
      as [errR|];
    run; cbn [world retdb trace];
    destruct (doneChan breachInfo) as [ch|]; run;
    (eexists; split;
     [ cbn [snd trace]; rewrite <- ?app_assoc; reflexivity
     | right; split; [reflexivity|]; split; [eexists; reflexivity | reflexivity] ]).
Qed.

(** C7. Notifier shutdown: whenever the breach-confirmation channel
    yields a receipt with [ok = false], [exactRetribution] returns at
    once. The receipt is the only event of the run: no script is asked of
    the wallet and no witness of the signer (nothing is built), nothing is
    published, and the store is left as it was. *)
Theorem exactRetribution_notifier_shutdown (confChan : ConfirmationEvent)
    (breachInfo : retributionInfo) (st : State) :
  fst (awaitConfirmed confChan (world st)) = Recv false ->
  exists st',
    exactRetribution confChan breachInfo st = (tt, st')
    /\ trace st' = trace st ++ [EvReceive confChan (Recv false)]
    /\ retdb st' = retdb st.
Proof.
  intros Hrecv. unfold exactRetribution. run. rewrite Hrecv. run.
  eexists. split; [reflexivity|]. split; reflexivity.
Qed.

(** C8. Order of the closing steps: in every run of [exactRetribution]
    in which the confirmation of the justice transaction is received, the
    closing steps are exactly [MarkChanFullyClosed], then the store's
    [Remove], then the close of [doneChan], each on the channel point of
    the breach; in every other run none of the three is taken. So
    [Remove] never precedes [MarkChanFullyClosed], and [doneChan] is
    closed only after both. *)
Theorem exactRetribution_closing_order (confChan : ConfirmationEvent)
    (breachInfo : retributionInfo) (st : State) :
  exists evs,
    trace (snd (exactRetribution confChan breachInfo st)) = trace st ++ evs
    /\ (justiceConfirmed evs = true ->
        exists errM errR,
          omap finalStep evs
          = [ MarkedClosed (chanPoint breachInfo) errM;
              RecordRemoved (chanPoint breachInfo) errR;
              closeStep (doneChan breachInfo) ])
    /\ (justiceConfirmed evs = false -> omap finalStep evs = []).
Proof.
  destruct (exactRetribution_steps confChan breachInfo st)
    as (evs & Htrace & [(Hno & Hsteps & _)|(Hyes & (errM & Hsteps) & _)]);
    exists evs; (split; [exact Htrace|]); split; intros Hj;
    try congruence.
  exists errM. eexists. exact Hsteps.
Qed.

End ExecutorFacts.

(** C9. [Remove] runs whatever [MarkChanFullyClosed] returned: in every
    run of [exactRetribution] in which [MarkChanFullyClosed] was called,
    with an error or without, the store's [Remove] was called after it
    and the store is what [Remove] made of it. And there is a run in
    which [MarkChanFullyClosed] returns an error, [Remove] returns nil,
    and the record that was in the store before the run is gone after
    it. *)
Theorem Remove_runs_though_MarkChanFullyClosed_failed :
  (forall (C : Collaborators) (Sg : Signing) (N : Node)
          (confChan : ConfirmationEvent) (breachInfo : retributionInfo)
          (st : State),
      exists evs,
        trace (snd (exactRetribution confChan breachInfo st)) = trace st ++ evs
        /\ forall cp errM,
             MarkedClosed cp errM ∈ omap finalStep evs ->
             exists errR,
               omap finalStep evs
               = [ MarkedClosed cp errM; RecordRemoved cp errR;
                   closeStep (doneChan breachInfo) ]
               /\ cp = chanPoint breachInfo
               /\ retributionStore_Remove cp (retdb st)
                  = (retdb (snd (exactRetribution confChan breachInfo st)), errR))
  /\ (exists (st : @State Double.node) (confChan : ConfirmationEvent)
             (breachInfo : @retributionInfo Double.collaborators) (e : error),
         retributionStore_ForAll visit (retdb st) [] = ([stored breachInfo], None)
         /\ omap finalStep (trace (snd (exactRetribution confChan breachInfo st)))
            = [ MarkedClosed (chanPoint breachInfo) (Some e);
                RecordRemoved (chanPoint breachInfo) None;
                DoneClosed ]
         /\ retributionStore_ForAll visit
              (retdb (snd (exactRetribution confChan breachInfo st))) []
            = ([], None)).
Proof.
  split.
  - intros C Sg N confChan breachInfo st.
    destruct (exactRetribution_steps confChan breachInfo st)
      as (evs & Htrace & [(_ & Hsteps & _)|(_ & (errM' & Hsteps) & Hdb)]);
      exists evs; (split; [exact Htrace|]); intros cp errM Hin;
      rewrite Hsteps in Hin.
    + now apply elem_of_nil in Hin.
    + apply elem_of_cons in Hin as [[= -> ->]|Hin].
      * eexists. split; [exact Hsteps|]. split; [reflexivity|].
        rewrite Hdb. apply surjective_pairing.
      * apply elem_of_cons in Hin as [Hin|Hin]; [discriminate|].
        apply elem_of_cons in Hin as [Hin|Hin];
          [destruct (doneChan breachInfo); discriminate
          |now apply elem_of_nil in Hin].
  - exists Sample.stormy, Sample.breachConf, Sample.sampleRetribution,
      (ErrCollaborator 1).
    repeat split; reflexivity.
Qed.

Module ExecutorExamples.
Import Double Sample DoubleFacts.

Lemma exactRetribution_notifier_shutdown_witness :
  fst (awaitConfirmed breachConf (world closing)) = Recv false
  /\ exists st',
       exactRetribution breachConf sampleRetribution closing = (tt, st')
       /\ trace st' = trace closing ++ [EvReceive breachConf (Recv false)]
       /\ retdb st' = retdb closing.
Proof.
  split; [reflexivity|].
  exact (exactRetribution_notifier_shutdown breachConf
           sampleRetribution closing eq_refl).
Defined.

(** The record is still in the store after a notifier shutdown. *)
Example record_kept_on_shutdown :
  retributionStore_ForAll visit
    (retdb (snd (exactRetribution breachConf sampleRetribution closing))) []
  = ([stored sampleRetribution], None).
Proof. reflexivity. Qed.

(** The calls of a run in which everything succeeds. *)
Example exactRetribution_calm_steps :
  omap finalStep
    (trace (snd (exactRetribution breachConf sampleRetribution
                   (mkState (world calm) dbTwice []))))
  = [ MarkedClosed (chanPoint sampleRetribution) None;
      RecordRemoved (chanPoint sampleRetribution) None;
      DoneClosed ].
Proof. reflexivity. Qed.

(** A record read back from disk has no [doneChan]: the run ends in the
    panic of closing a nil channel, after both other steps. *)
Example exactRetribution_restored_record_steps :
  omap finalStep
    (trace (snd (exactRetribution breachConf (stored sampleRetribution)
                   (mkState (world calm) dbTwice []))))
  = [ MarkedClosed (chanPoint sampleRetribution) None;
      RecordRemoved (chanPoint sampleRetribution) None;
      Panicked ].
Proof. reflexivity. Qed.

End ExecutorExamples.

(** * Further properties of the code *)

(** ** The store: iteration, removal, failures *)

Lemma ReadFull_short (r : Reader) (n : nat) :
  (length r < n)%nat ->
  ReadFull r n = Err (match r with [] => EOF | _ :: _ => ErrUnexpectedEOF end).
Proof.
  intros Hlen. unfold ReadFull.
  destruct (take_exact n r) as [[bs rest]|] eqn:E; [|now destruct r].
  exfalso. revert r bs rest Hlen E.
  induction n as [|n IH]; intros r bs rest Hlen E; [cbn in Hlen; lia|].
  destruct r as [|b r]; [discriminate|]. cbn in E, Hlen.
  destruct (take_exact n r) as [[bs' rest']|] eqn:E'; [|discriminate].
  eapply IH; [|exact E']. lia.
Qed.

Lemma entries_empty : bolt.entries ∅ = [].
Proof. unfold bolt.entries. now rewrite map_to_list_empty. Qed.

Section StoreCoverage.
Context {C : Collaborators} {Sg : Signing}.

Lemma ForAll_run_bucket {St : Type}
    (cb : retributionInfo -> St -> St * option error) (db : bolt.Tx) (s : St) :
  retributionStore_ForAll cb db s
  = bolt.forEach (forAllBody cb) (bolt.entries (retBucket db)) s.
Proof.
  rewrite retributionStore_ForAll_run. unfold retBucket.
  destruct (db !! retributionBucket); cbn [default]; [reflexivity|].
  now rewrite entries_empty.
Qed.

Lemma retBucket_insert (db : bolt.Tx) (b : gmap (list byte) (list byte)) :
  retBucket (<[retributionBucket := b]> db) = b.
Proof. unfold retBucket. now rewrite lookup_insert_eq. Qed.

Lemma store_consistent_retBucket (db : bolt.Tx) (k v : list byte) :
  store_consistent db -> retBucket db !! k = Some v ->
  exists ret, decodeValue v = Some ret /\ encodeOutpoint (chanPoint ret) = k.
Proof. apply store_consistent_bucket. Qed.

Lemma omap_decoded_length (kvs : list (list byte * list byte)) :
  Forall (fun kv => is_Some (decodeValue kv.2)) kvs ->
  length (omap (fun kv => decodeValue kv.2) kvs) = length kvs.
Proof.
  induction 1 as [|kv kvs [ret Hret] _ IH]; cbn [omap list_omap length];
    [reflexivity|].
  rewrite Hret. cbn [length]. now rewrite IH.
Qed.

Lemma omap_decoded_keys (kvs : list (list byte * list byte)) :
  Forall (fun kv => exists ret, decodeValue kv.2 = Some ret
                                /\ encodeOutpoint (chanPoint ret) = kv.1) kvs ->
  (fun ret => encodeOutpoint (chanPoint ret))
    <$> omap (fun kv => decodeValue kv.2) kvs
  = kvs.*1.
Proof.
  induction 1 as [|kv kvs (ret & Hret & Hk) _ IH];
    cbn [omap list_omap fmap list_fmap]; [reflexivity|].
  rewrite Hret. cbn [fmap list_fmap]. now rewrite Hk, IH.
Qed.

(** What [ForAll] with the collecting callback does on a consistent
    file. *)
Lemma ForAll_visit_consistent (db : bolt.Tx) :
  store_consistent db ->
  retributionStore_ForAll visit db []
  = (omap (fun kv => decodeValue kv.2) (bolt.entries (retBucket db)), None)
  /\ Forall (fun kv => exists ret, decodeValue kv.2 = Some ret
                                   /\ encodeOutpoint (chanPoint ret) = kv.1)
       (bolt.entries (retBucket db)).
Proof.
  intros Hdb.
  assert (Hall : Forall (fun kv => exists ret, decodeValue kv.2 = Some ret
                                   /\ encodeOutpoint (chanPoint ret) = kv.1)
                   (bolt.entries (retBucket db))).
  { apply Forall_forall. intros [k v] Hin. apply entries_elem_of in Hin.
    now apply (store_consistent_retBucket db). }
  split; [|exact Hall].
  rewrite ForAll_run_bucket, forEach_visit; [reflexivity|].
  eapply Forall_impl; [exact Hall|]. intros kv (ret & -> & _). eauto.
Qed.

Lemma visited_elem_of (db : bolt.Tx) (ret : retributionInfo) :
  store_consistent db ->
  ret ∈ visited db
  <-> exists v, retBucket db !! encodeOutpoint (chanPoint ret) = Some v
                /\ decodeValue v = Some ret.
Proof.
  intros Hdb. unfold visited.
  destruct (ForAll_visit_consistent db Hdb) as [-> _]. cbn [fst].
  rewrite list_elem_of_omap. split.
  - intros ([k v] & Hin & Hdec). cbn [snd] in Hdec.
    apply entries_elem_of in Hin.
    destruct (store_consistent_retBucket db k v Hdb Hin) as (ret' & Hdec' & Hk).
    rewrite Hdec in Hdec'. injection Hdec' as <-. rewrite Hk. eauto.
  - intros (v & Hv & Hdec).
    exists (encodeOutpoint (chanPoint ret), v). split; [|exact Hdec].
    now apply entries_elem_of.
Qed.

(** X1. Iteration completeness: on a file in which every value decodes
    and sits under the key of its own channel point, [ForAll] runs to the
    end without error, applies the callback once for each entry of the
    bucket, never twice to records of the same channel point, and a
    record is visited exactly when the bucket holds its encoding under
    the key of its channel point. *)
Theorem ForAll_visits_every_record_once (db : bolt.Tx) :
  store_consistent db ->
  exists seen,
    retributionStore_ForAll visit db [] = (seen, None)
    /\ length seen = size (retBucket db)
    /\ NoDup (chanPoint <$> seen)
    /\ forall ret,
         ret ∈ seen
         <-> exists v, retBucket db !! encodeOutpoint (chanPoint ret) = Some v
                       /\ decodeValue v = Some ret.
Proof.
  intros Hdb. destruct (ForAll_visit_consistent db Hdb) as [Hrun Hall].
  eexists. split; [exact Hrun|]. split; [|split].
  - rewrite omap_decoded_length.
    + unfold bolt.entries. rewrite merge_sort_Permutation.
      apply length_map_to_list.
    + eapply Forall_impl; [exact Hall|]. intros kv (ret & -> & _). eauto.
  - apply (NoDup_fmap_1 encodeOutpoint).
    rewrite <- list_fmap_compose.
    change (encodeOutpoint ∘ chanPoint)
      with (fun ret : retributionInfo => encodeOutpoint (chanPoint ret)).
    rewrite (omap_decoded_keys _ Hall). apply entries_NoDup_keys.
  - intros ret. pose proof (visited_elem_of db ret Hdb) as Hv.
    unfold visited in Hv. rewrite Hrun in Hv. exact Hv.
Qed.

(** X2. Removal after insertion: after [Add r] (returning nil) on a
    consistent file, [Remove] of [r]'s channel point returns nil, and
    [ForAll] then visits exactly the records it visited before the [Add]
    that do not live under [r]'s key; none of them has [r]'s channel
    point. *)
Theorem Add_Remove_ForAll_visits_rest
    (r : retributionInfo) (db db1 : bolt.Tx) :
  store_consistent db ->
  retributionStore_Add r db = (db1, None) ->
  snd (retributionStore_Remove (chanPoint r) db1) = None
  /\ exists seen,
       retributionStore_ForAll visit
         (fst (retributionStore_Remove (chanPoint r) db1)) []
       = (seen, None)
       /\ (forall ret,
             ret ∈ seen
             <-> ret ∈ visited db
                 /\ encodeOutpoint (chanPoint ret) <> encodeOutpoint (chanPoint r))
       /\ Forall (fun ret => chanPoint ret <> chanPoint r) seen.
Proof.
  intros Hdb Hadd. apply retributionStore_Add_ok in Hadd.
  assert (Hb1 : db1 !! retributionBucket
                = Some (<[encodeOutpoint (chanPoint r) := retribution_bytes r]>
                          (retBucket db))).
  { rewrite Hadd. apply lookup_insert_eq. }
  rewrite retributionStore_Remove_run, Hb1. cbn [fst snd].
  split; [reflexivity|].
  set (db2 := <[retributionBucket := _]> db1).
  assert (Hb2 : retBucket db2 = delete (encodeOutpoint (chanPoint r)) (retBucket db)).
  { unfold retBucket at 1, db2. rewrite lookup_insert_eq. cbn [default].
    apply delete_insert_eq. }
  assert (Hdb2 : store_consistent db2).
  { intros b k v Hb Hk. apply (store_consistent_retBucket db k v Hdb).
    assert (Hb' : retBucket db2 = b) by (unfold retBucket; now rewrite Hb).
    rewrite Hb2 in Hb'. subst b.
    destruct (decide (k = encodeOutpoint (chanPoint r))) as [->|Hne].
    - now rewrite lookup_delete_eq in Hk.
    - now rewrite lookup_delete_ne in Hk by congruence. }
  assert (Hiff : forall ret,
             ret ∈ visited db2
             <-> ret ∈ visited db
                 /\ encodeOutpoint (chanPoint ret) <> encodeOutpoint (chanPoint r)).
  { intros ret. rewrite (visited_elem_of db2 ret Hdb2), (visited_elem_of db ret Hdb), Hb2.
    split.
    - intros (v & Hv & Hdec).
      destruct (decide (encodeOutpoint (chanPoint ret) = encodeOutpoint (chanPoint r)))
        as [He|Hne].
      + rewrite He, lookup_delete_eq in Hv. discriminate.
      + rewrite lookup_delete_ne in Hv by congruence. eauto.
    - intros [(v & Hv & Hdec) Hne]. exists v.
      rewrite lookup_delete_ne by congruence. auto. }
  destruct (ForAll_visit_consistent db2 Hdb2) as [Hrun _].
  eexists. split; [exact Hrun|].
  unfold visited in Hiff at 1. rewrite Hrun in Hiff. cbn [fst] in Hiff.
  split; [exact Hiff|].
  apply Forall_forall. intros ret Hin Hcp.
  apply Hiff in Hin as [_ Hne]. apply Hne. now rewrite Hcp.
Qed.

Lemma forEach_app {St : Type}
    (fn : list byte -> list byte -> St -> St * option error)
    (l1 l2 : list (list byte * list byte)) (s : St) :
  bolt.forEach fn (l1 ++ l2) s
  = match bolt.forEach fn l1 s with
    | (s1, None) => bolt.forEach fn l2 s1
    | (s1, Some e) => (s1, Some e)
    end.
Proof.
  revert s. induction l1 as [|[k v] l1 IH]; intros s; cbn [app bolt.forEach];
    [reflexivity|].
  destruct (fn k v s) as [s' [e|]]; [reflexivity|apply IH].
Qed.

(** X3. A callback error stops the iteration and is returned: if the
    callback succeeded on the records before some entry and returns an
    error on the record of that entry, [ForAll] returns that error and the
    state the callback left, whatever entries follow. *)
Theorem ForAll_stops_at_callback_error {St : Type}
    (cb : retributionInfo -> St -> St * option error) (db : bolt.Tx)
    (l1 l2 : list (list byte * list byte)) (k v : list byte)
    (ret : retributionInfo) (rest : Reader) (s s1 s2 : St) (e : error) :
  bolt.entries (retBucket db) = l1 ++ (k, v) :: l2 ->
  bolt.forEach (forAllBody cb) l1 s = (s1, None) ->
  retributionInfo_Decode zeroRetributionInfo v = Ok (ret, rest) ->
  cb ret s1 = (s2, Some e) ->
  retributionStore_ForAll cb db s = (s2, Some e).
Proof.
  intros Hentries Hl1 Hdec Hcb.
  rewrite ForAll_run_bucket, Hentries, forEach_app, Hl1.
  cbn [bolt.forEach]. unfold forAllBody at 1. now rewrite Hdec, Hcb.
Qed.



(** X5. What [Add] can return: an error exactly when bolt refuses the
    key (empty, or longer than 32768 bytes) or the value (longer than
    2^31 - 2 bytes), and then the file is unchanged, the bucket not even
    created; otherwise nil, and the bucket holds the encoding of the
    record under the key of its channel point, next to what it held. *)
Theorem Add_fails_only_on_bolt_limits (ret : retributionInfo) (db : bolt.Tx) :
  retributionStore_Add ret db
  = if decide (encodeOutpoint (chanPoint ret) = []) then (db, Some ErrKeyRequired)
    else if decide (bolt.MaxKeySize
                    < Z.of_nat (length (encodeOutpoint (chanPoint ret))))
    then (db, Some ErrKeyTooLarge)
    else if decide (bolt.MaxValueSize
                    < Z.of_nat (length (retribution_bytes ret)))
    then (db, Some ErrValueTooLarge)
    else (<[retributionBucket :=
              <[encodeOutpoint (chanPoint ret) := retribution_bytes ret]>
                (retBucket db)]> db, None).
Proof.
  unfold retributionStore_Add, bolt.Update, bolt.CreateBucketIfNotExists,
    writeOutpoint, Write.
  rewrite decide_False by apply retributionBucket_nonempty.
  rewrite (retributionInfo_Encode_bytes ret []). cbn [app].
  unfold bolt.Put, retBucket.
  destruct (db !! retributionBucket) as [b|] eqn:Hb; ok;
    repeat (case_decide; [reflexivity|]); cbn [default]; f_equal;
    apply map_eq; intros name;
    destruct (decide (name = retributionBucket)) as [->|Hne].
  - now rewrite lookup_alter_eq, Hb, !lookup_insert_eq.
  - now rewrite lookup_alter_ne, lookup_insert_ne.
  - now rewrite lookup_alter_eq, !lookup_insert_eq.
  - now rewrite lookup_alter_ne, !lookup_insert_ne.
Qed.

(** X6. [Add] and [Remove] touch one key of one bucket: every other
    top-level bucket of the file, and every other key of the retribution
    bucket, is after the call what it was before, whether the call
    returned an error or not. *)
Theorem store_writes_touch_one_key
    (ret : retributionInfo) (key : OutPoint) (db : bolt.Tx) :
  (forall name, name <> retributionBucket ->
                fst (retributionStore_Add ret db) !! name = db !! name
                /\ fst (retributionStore_Remove key db) !! name = db !! name)
  /\ (forall k, k <> encodeOutpoint (chanPoint ret) ->
                retBucket (fst (retributionStore_Add ret db)) !! k
                = retBucket db !! k)
  /\ (forall k, k <> encodeOutpoint key ->
                retBucket (fst (retributionStore_Remove key db)) !! k
                = retBucket db !! k).
Proof.
  assert (HA : fst (retributionStore_Add ret db) = db
               \/ fst (retributionStore_Add ret db)
                  = <[retributionBucket :=
                        <[encodeOutpoint (chanPoint ret) := retribution_bytes ret]>
                          (retBucket db)]> db).
  { destruct (retributionStore_Add ret db) as [db' [e|]] eqn:Hadd; cbn [fst].
    - left. revert Hadd. unfold retributionStore_Add, bolt.Update.
      match goal with |- context [match ?m with Ok _ => _ | Err _ => _ end] =>
        destruct m end; now intros [= <- ?].
    - right. now apply retributionStore_Add_ok. }
  assert (HR : fst (retributionStore_Remove key db) = db
               \/ exists b, db !! retributionBucket = Some b
                            /\ fst (retributionStore_Remove key db)
                               = <[retributionBucket := delete (encodeOutpoint key) b]> db).
  { rewrite retributionStore_Remove_run.
    destruct (db !! retributionBucket) as [b|] eqn:Hb; cbn [fst]; eauto. }
  split; [|split].
  - intros name Hne. split.
    + destruct HA as [->| ->]; [reflexivity|]. now rewrite lookup_insert_ne.
    + destruct HR as [->|(b & _ & ->)]; [reflexivity|]. now rewrite lookup_insert_ne.
  - intros k Hne. destruct HA as [->| ->]; [reflexivity|].
    rewrite retBucket_insert. now rewrite lookup_insert_ne.
  - intros k Hne. destruct HR as [->|(b & Hb & ->)]; [reflexivity|].
    rewrite retBucket_insert. unfold retBucket. rewrite Hb. cbn [default].
    now rewrite lookup_delete_ne.
Qed.

(** ** The encoding: short and truncated streams, distinct records *)

(** X7. Short input: on a stream of fewer than 8 bytes
    [breachedOutput.Decode] fails, and on one of fewer than 32 bytes
    [retributionInfo.Decode] fails, with [io.EOF] when the stream is empty
    and [io.ErrUnexpectedEOF] otherwise. *)
Theorem Decode_rejects_short_input
    (bo : breachedOutput) (ret : retributionInfo) (r1 r2 : Reader) :
  (length r1 < 8)%nat ->
  (length r2 < 32)%nat ->
  breachedOutput_Decode bo r1
  = Err (match r1 with [] => EOF | _ :: _ => ErrUnexpectedEOF end)
  /\ retributionInfo_Decode ret r2
     = Err (match r2 with [] => EOF | _ :: _ => ErrUnexpectedEOF end).
Proof.
  intros H1 H2. split.
  - unfold breachedOutput_Decode. now rewrite (ReadFull_short r1 8 H1).
  - unfold retributionInfo_Decode. now rewrite (ReadFull_short r2 32 H2).
Qed.

(** X8. Truncated output: a stream that holds the amount, the outpoint
    and the sign descriptor of an output and then ends is rejected with
    [io.EOF]; one that ends after the first byte of the witness type with
    [io.ErrUnexpectedEOF]; one that ends before the flag byte with
    [io.EOF]. *)
Theorem Decode_rejects_truncated_output (bo : breachedOutput) (b1 b2 : byte) :
  OutpointCodec (outpoint bo) ->
  SignDescCodec (signDescriptor bo) ->
  breachedOutput_Decode zeroBreachedOutput
    (BigEndian.PutUint64 (to_uint64 (amt bo)) ++ encodeOutpoint (outpoint bo)
     ++ encodeSignDescriptor (signDescriptor bo) ++ [])
  = Err EOF
  /\ breachedOutput_Decode zeroBreachedOutput
       (BigEndian.PutUint64 (to_uint64 (amt bo)) ++ encodeOutpoint (outpoint bo)
        ++ encodeSignDescriptor (signDescriptor bo) ++ [b1])
     = Err ErrUnexpectedEOF
  /\ breachedOutput_Decode zeroBreachedOutput
       (BigEndian.PutUint64 (to_uint64 (amt bo)) ++ encodeOutpoint (outpoint bo)
        ++ encodeSignDescriptor (signDescriptor bo) ++ [b1; b2])
     = Err EOF.
Proof.
  intros Hop Hsd.
  assert (Hstep : forall tail,
             breachedOutput_Decode zeroBreachedOutput
               (BigEndian.PutUint64 (to_uint64 (amt bo))
                ++ encodeOutpoint (outpoint bo)
                ++ encodeSignDescriptor (signDescriptor bo) ++ tail)
             = ('(scratch, r) ← ReadFull tail 2;
                let witnessType' := BigEndian.Uint16 scratch in
                '(scratch, r) ← ReadFull r 1;
                Ok (mkBreachedOutput
                      (to_int64 (BigEndian.Uint64
                                   (BigEndian.PutUint64 (to_uint64 (amt bo)))))
                      (outpoint bo) (signDescriptor bo) witnessType' None
                      (bool_decide (scratch = [x01])), r))).
  { intros tail. unfold breachedOutput_Decode.
    rewrite (ReadFull_app _ _ 8 (BigEndian_length_put 8 _)). ok.
    cbn [outpoint signDescriptor zeroBreachedOutput].
    rewrite Hop. ok. rewrite Hsd. ok. reflexivity. }
  rewrite !Hstep. repeat split.
Qed.

(** X9. Distinct records have distinct encodings: two well-formed
    records that [Encode] to the same bytes agree in every persisted
    field. *)
Theorem Encode_injective (r1 r2 : retributionInfo) (buf : list byte) :
  wf_retributionInfo r1 ->
  wf_retributionInfo r2 ->
  retributionInfo_Encode r1 [] = Ok buf ->
  retributionInfo_Encode r2 [] = Ok buf ->
  persisted_eq r1 r2.
Proof.
  intros Hwf1 Hwf2 He1 He2.
  rewrite (retributionInfo_Encode_bytes r1 []) in He1.
  rewrite (retributionInfo_Encode_bytes r2 []) in He2.
  cbn [app] in He1, He2. injection He1 as <-. injection He2 as He.
  pose proof (retributionInfo_Decode_bytes r1 [] Hwf1) as Hd1.
  pose proof (retributionInfo_Decode_bytes r2 [] Hwf2) as Hd2.
  rewrite He, Hd1 in Hd2.
  assert (Hst : stored r1 = stored r2)
    by exact (f_equal (fun m => match m with
                                | Ok (x, _) => x
                                | Err _ => stored r1
                                end) Hd2).
  assert (P1 : persisted_eq (stored r1) r1) by apply persisted_eq_stored.
  assert (P2 : persisted_eq (stored r2) r2) by apply persisted_eq_stored.
  rewrite Hst in P1. clear Hst Hd1.
  destruct P1 as (a1 & a2 & a3 & a4 & a5 & a6 & a7 & a8).
  destruct P2 as (c1 & c2 & c3 & c4 & c5 & c6 & c7 & c8).
  unfold persisted_eq. rewrite <- a1, <- a2, <- a3, <- a4, <- a5.
  repeat (split; [assumption|]).
  assert (Hsym : forall a b, persisted_eq_output a b -> persisted_eq_output b a).
  { intros a b (e1 & e2 & e3 & e4 & e5). unfold persisted_eq_output.
    now rewrite e1, e2, e3, e4, e5. }
  assert (Htrans : forall a b c, persisted_eq_output a b ->
                                 persisted_eq_output b c -> persisted_eq_output a c).
  { intros a b c (e1 & e2 & e3 & e4 & e5) (f1 & f2 & f3 & f4 & f5).
    unfold persisted_eq_output.
    now rewrite e1, e2, e3, e4, e5, f1, f2, f3, f4, f5. }
  split; [|split].
  - eapply Htrans; [apply Hsym; exact a6 | exact c6].
  - eapply Htrans; [apply Hsym; exact a7 | exact c7].
  - clear - a8 c8 Hsym Htrans.
    revert a8 c8. generalize (htlcOutputs (stored r2)) (htlcOutputs r1) (htlcOutputs r2).
    intros l. induction l as [|x l IH]; intros l1 l2 Ha Hc.
    + inversion Ha; subst. inversion Hc; subst. constructor.
    + inversion Ha; subst. inversion Hc; subst. constructor; eauto.
Qed.

End StoreCoverage.

(** ** The builders: witnesses, effects, the sweep that succeeds *)

Section BuilderCoverage.
Context {C : Collaborators} {Sg : Signing} {N : Node}.

Lemma persisted_eq_withWitnessFuncs (r : retributionInfo) :
  persisted_eq (withWitnessFuncs r) r.
Proof.
  repeat split. cbn [htlcOutputs withWitnessFuncs].
  induction (htlcOutputs r) as [|bo bos IH]; constructor; [|exact IH].
  repeat split.
Qed.

(** X10. Witness placement in the justice transaction: when
    [createJusticeTx] succeeds, input 0 carries the witness the
    self-output's generator produced for input index 0 on the unsigned
    transaction, and input 1 the witness the revoked output's generator
    produced for input index 1 on the transaction that already carried
    the first witness; both generators were given the sighash cache of
    the unsigned transaction. Signature scripts are empty, sequence
    numbers and the lock time are zero. *)
Theorem createJusticeTx_witnesses
    (r r' : retributionInfo) (tx : MsgTx) (st st' : State) :
  createJusticeTx r st = ((r', Ok tx), st') ->
  exists pkScript localWitness remoteWitness,
    fst (newSweepPkScript (world st)) = Ok pkScript
    /\ GenWitnessFunc (witnessType (selfOutput r)) (signDescriptor (selfOutput r))
         (unsignedJusticeTx r pkScript)
         (NewTxSigHashes (unsignedJusticeTx r pkScript)) 0
       = Ok localWitness
    /\ GenWitnessFunc (witnessType (revokedOutput r))
         (signDescriptor (revokedOutput r))
         (mkMsgTx 2
            [ mkTxIn (outpoint (selfOutput r)) [] localWitness 0;
              TxIn_of (outpoint (revokedOutput r)) ]
            (tx_TxOut (unsignedJusticeTx r pkScript)) 0)
         (NewTxSigHashes (unsignedJusticeTx r pkScript)) 1
       = Ok remoteWitness
    /\ tx_TxIn tx
       = [ mkTxIn (outpoint (selfOutput r)) [] localWitness 0;
           mkTxIn (outpoint (revokedOutput r)) [] remoteWitness 0 ]
    /\ LockTime tx = 0.
Proof.
  rewrite createJusticeTx_run.
  destruct (fst (newSweepPkScript (world st))) as [pkScript|e];
    cbv beta iota; [|discriminate].
  intros [= _ Hsign _]. exists pkScript. revert Hsign.
  unfold signJusticeTx.
  destruct (GenWitnessFunc (witnessType (selfOutput r)) _ _ _ 0) as [lw|e] eqn:E0;
    [|discriminate].
  ok. cbn [unsignedJusticeTx setWitness tx_TxIn lookup list_lookup]. ok.
  cbn [insert list_insert PreviousOutPoint SignatureScript Sequence TxIn_of
       Version tx_TxOut LockTime].
  match goal with
  | |- context [GenWitnessFunc (witnessType (revokedOutput r)) ?sd ?t ?hc 1] =>
      destruct (GenWitnessFunc (witnessType (revokedOutput r)) sd t hc 1)
        as [rw|e] eqn:E1; [|discriminate]
  end.
  ok. cbn. intros [= <-].
  exists lw, rw. repeat split; assumption.
Qed.

(** X11. What [createJusticeTx] does besides building: it makes exactly
    one call, to the wallet, and leaves the store alone; the record it
    hands back differs from the one it was given in transient fields
    only; when the wallet fails it returns the wallet's error and the
    record untouched, and when the wallet succeeds every output of the
    record, HTLC outputs included, has its witness function attached. *)
Theorem createJusticeTx_effects (r : retributionInfo) (st : State) :
  trace (snd (createJusticeTx r st)) = trace st ++ [EvNewSweepPkScript]
  /\ retdb (snd (createJusticeTx r st)) = retdb st
  /\ world (snd (createJusticeTx r st)) = snd (newSweepPkScript (world st))
  /\ persisted_eq (fst (fst (createJusticeTx r st))) r
  /\ match fst (newSweepPkScript (world st)) with
     | Err e => fst (createJusticeTx r st) = (r, Err e)
     | Ok _ =>
         Forall (fun bo => is_Some (witnessFunc bo))
           (selfOutput (fst (fst (createJusticeTx r st)))
            :: revokedOutput (fst (fst (createJusticeTx r st)))
            :: htlcOutputs (fst (fst (createJusticeTx r st))))
     end.
Proof.
  rewrite createJusticeTx_run. cbn [fst snd trace retdb world].
  repeat (split; [reflexivity|]).
  destruct (fst (newSweepPkScript (world st))) as [pkScript|e]; cbn [fst].
  - split; [apply persisted_eq_withWitnessFuncs|].
    cbn [selfOutput revokedOutput htlcOutputs withWitnessFuncs].
    repeat (constructor; [cbn; eauto|]).
    apply Forall_fmap, Forall_forall. intros bo _. cbn. eauto.
  - split; [|reflexivity].
    repeat split. induction (htlcOutputs r); constructor; auto. repeat split.
Qed.

(** X12. The sweep that succeeds: for a self output worth more than
    5000 satoshis, with a wallet script, a self outpoint and a signature
    from the signer, [craftCommitSweepTx] returns a version-1 transaction
    with one input spending the self outpoint and one output paying the
    value less 5000 to the wallet's script. The witness is the signature
    followed by the [SigHashAll] byte, then the compressed public key
    tweaked with the descriptor's single tweak. The signer was handed the
    unsigned transaction and the descriptor with input index 0 and that
    transaction's sighash cache. *)
Theorem craftCommitSweepTx_shape
    (closeInfo : UnilateralCloseSummary) (st : State)
    (sweepPkScript sweepSig : list byte) (selfOutPoint : OutPoint) :
  5000 < Value (Output (SelfOutputSignDesc closeInfo)) < 2 ^ 63 ->
  fst (newSweepPkScript (world st)) = Ok sweepPkScript ->
  SelfOutPoint closeInfo = Some selfOutPoint ->
  SignOutputRaw
    (mkMsgTx 1 [TxIn_of selfOutPoint]
       [mkTxOut (Value (Output (SelfOutputSignDesc closeInfo)) - 5000) sweepPkScript]
       0)
    (mkSignDescriptor (sd_PubKey (SelfOutputSignDesc closeInfo))
       (SingleTweak (SelfOutputSignDesc closeInfo))
       (DoubleTweak (SelfOutputSignDesc closeInfo))
       (WitnessScript (SelfOutputSignDesc closeInfo))
       (Output (SelfOutputSignDesc closeInfo))
       (HashType (SelfOutputSignDesc closeInfo))
       (Some (NewTxSigHashes
                (mkMsgTx 1 [TxIn_of selfOutPoint]
                   [mkTxOut (Value (Output (SelfOutputSignDesc closeInfo)) - 5000)
                      sweepPkScript] 0)))
       0)
  = Ok sweepSig ->
  fst (craftCommitSweepTx closeInfo st)
  = Ok (mkMsgTx 1
          [ mkTxIn selfOutPoint []
              [ sweepSig ++ [SigHashAll];
                SerializeCompressed
                  (TweakPubKeyWithTweak (sd_PubKey (SelfOutputSignDesc closeInfo))
                     (SingleTweak (SelfOutputSignDesc closeInfo))) ]
              0 ]
          [ mkTxOut (Value (Output (SelfOutputSignDesc closeInfo)) - 5000)
              sweepPkScript ]
          0).
Proof.
  intros Hv Hpk Hop Hsig. unfold craftCommitSweepTx. run. rewrite Hpk. run.
  assert (Hamt : to_int64 (Value (Output (SelfOutputSignDesc closeInfo)) - 5000)
                 = Value (Output (SelfOutputSignDesc closeInfo)) - 5000)
    by (apply to_int64_id; unfold is_int64; lia).
  rewrite !Hamt. rewrite decide_False by lia. rewrite Hop.
  unfold NewMsgTx, AddTxIn, AddTxOut.
  cbn [Version tx_TxIn tx_TxOut LockTime app].
  rewrite Hsig. cbn [sd_PubKey SingleTweak].
  cbn [setWitness tx_TxIn lookup list_lookup]. run. reflexivity.
Qed.

End BuilderCoverage.

(** ** The close callback and the executor: which calls, in which order *)

(** Both sides of a trace equation, flattened. *)
Ltac sweep_trace Htr :=
  cbn [snd trace]; rewrite ?Htr;
  repeat (rewrite <- ?app_assoc; cbn [app]); reflexivity.

(** The initial part of [retributionCalls] a run went through. *)
Ltac call_prefix :=
  first [ exists 1%nat; reflexivity | exists 2%nat; reflexivity
        | exists 3%nat; reflexivity | exists 4%nat; reflexivity
        | exists 5%nat; reflexivity | exists 6%nat; reflexivity
        | exists 7%nat; reflexivity | exists 8%nat; reflexivity
        | exists 9%nat; reflexivity | exists 0%nat; reflexivity ].

(** A run that ended before publishing, and one that ended after. *)
Ltac quiet_exit :=
  eexists; split;
  [ cbn [snd trace]; rewrite <- ?app_assoc; reflexivity
  | split; [call_prefix | left; split; reflexivity] ].

Ltac loud_exit :=
  eexists; split;
  [ cbn [snd trace]; rewrite <- ?app_assoc; reflexivity
  | split;
    [ call_prefix
    | right; eexists _, _, _;
      split; [reflexivity|]; split; [reflexivity|]; split; [eassumption|];
      split; [reflexivity|]; cbv beta iota; eauto 10 ] ].

Section ExecutorCoverage.
Context {C : Collaborators} {Sg : Signing} {N : Node}.

(** [craftCommitSweepTx] asks the wallet for a script and calls nothing
    else: what follows in the trace, if anything, is a log line. *)
Lemma craftCommitSweepTx_calls (closeInfo : UnilateralCloseSummary) (st : State) :
  exists logs,
    trace (snd (craftCommitSweepTx closeInfo st))
    = trace st ++ EvNewSweepPkScript :: logs
    /\ omap callKind logs = []
    /\ publishedTxs logs = []
    /\ markedChannels logs = []
    /\ retdb (snd (craftCommitSweepTx closeInfo st)) = retdb st.
Proof.
  unfold craftCommitSweepTx. run.
  destruct (fst (newSweepPkScript (world st))) as [pk|e]; run;
    [|exists []; repeat split].
  case_decide; run; [exists []; repeat split|].
  destruct (SelfOutPoint closeInfo) as [op|]; run; [|exists []; repeat split].
  destruct (SignOutputRaw _ _) as [sig|e]; run; [|exists []; repeat split].
  unfold NewMsgTx, AddTxIn, AddTxOut.
  cbn [setWitness tx_TxIn lookup list_lookup app]. run.
  exists [EvLog Infof "Sweeping commitment output with: %v"].
  cbn [snd trace retdb]. rewrite <- ?app_assoc. repeat split.
Qed.

(** X13. The close callback always marks the channel: whatever the
    sweep does (no self output, output too small, wallet or signer
    failure, broadcast failure or success), [MarkChanFullyClosed] is
    called exactly once, on the channel point, as the last call of the
    run. At most one transaction is published, and only when a self
    outpoint exists and [craftCommitSweepTx] returned that transaction.
    The retribution store is never touched. *)
Theorem sweepAndMarkClosed_always_marks
    (closeInfo : UnilateralCloseSummary) (chanPoint : OutPoint) (st : State) :
  exists pre errM post,
    trace (snd (sweepAndMarkClosed closeInfo chanPoint st))
    = trace st ++ pre ++ EvMarkChanFullyClosed chanPoint errM :: post
    /\ markedChannels pre = []
    /\ omap callKind post = []
    /\ retdb (snd (sweepAndMarkClosed closeInfo chanPoint st)) = retdb st
    /\ storeRemovals pre = []
    /\ match SelfOutPoint closeInfo, fst (craftCommitSweepTx closeInfo st) with
       | Some _, Ok sweepTx => exists err, publishedTxs pre = [(sweepTx, err)]
       | _, _ => publishedTxs pre = []
       end.
Proof.
  unfold sweepAndMarkClosed.
  destruct (SelfOutPoint closeInfo) as [op|] eqn:Hop; run.
  - destruct (craftCommitSweepTx_calls closeInfo st)
      as (logs & Htr & Hk & Hp & Hm & Hdb).
    destruct (craftCommitSweepTx closeInfo st) as [res st1] eqn:Hcraft.
    cbn [fst snd] in *.
    assert (Hr : storeRemovals logs = []).
    { clear -Hk. induction logs as [|[] logs IH]; cbn in *;
        try discriminate; auto. }
    destruct res as [sweepTx|e]; run.
    + destruct (fst (PublishTransaction sweepTx (world st1))) as [e|] eqn:Hpub;
        run; cbn [world retdb trace];
        (destruct (fst (MarkChanFullyClosed chanPoint _)) as [e'|]; run;
         [ first [ eexists (EvNewSweepPkScript :: logs ++ [_; _; _]), _, [_];
                   split; [sweep_trace Htr|]
                 | eexists (EvNewSweepPkScript :: logs ++ [_; _]), _, [_];
                   split; [sweep_trace Htr|] ]
         | first [ eexists (EvNewSweepPkScript :: logs ++ [_; _; _]), _, [];
                   split; [sweep_trace Htr|]
                 | eexists (EvNewSweepPkScript :: logs ++ [_; _]), _, [];
                   split; [sweep_trace Htr|] ] ]);
        (repeat split;
         [ unfold markedChannels in *; cbn [omap list_omap];
           rewrite omap_app, Hm; reflexivity
         | cbn [snd retdb]; exact Hdb
         | unfold storeRemovals in *; cbn [omap list_omap];
           rewrite omap_app, Hr; reflexivity
         | eexists; unfold publishedTxs in *; cbn [omap list_omap];
           rewrite omap_app, Hp; reflexivity ]).
    + cbn [world retdb trace];
        (destruct (fst (MarkChanFullyClosed chanPoint _)) as [e'|]; run;
         [ eexists (EvNewSweepPkScript :: logs ++ [_; _]), _, [_]
         | eexists (EvNewSweepPkScript :: logs ++ [_; _]), _, [] ];
         (split; [sweep_trace Htr|]));
        (repeat split;
         [ unfold markedChannels in *; cbn [omap list_omap];
           rewrite omap_app, Hm; reflexivity
         | cbn [snd retdb]; exact Hdb
         | unfold storeRemovals in *; cbn [omap list_omap];
           rewrite omap_app, Hr; reflexivity
         | unfold publishedTxs in *; cbn [omap list_omap];
           rewrite omap_app, Hp; reflexivity ]).
  - cbn [world retdb trace].
    destruct (fst (MarkChanFullyClosed chanPoint _)) as [e'|]; run;
      [ eexists [_], _, [_] | eexists [_], _, [] ];
      (split; [cbn [snd trace app]; rewrite <- ?app_assoc; reflexivity
              |repeat split]).
Qed.

(** A run of [exactRetribution] cut where it ended: its calls are an
    initial part of [retributionCalls], and it published nothing, or it
    published the justice transaction built from [breachInfo] and, if
    that succeeded, subscribed to its confirmation. *)
Lemma exactRetribution_calls (confChan : ConfirmationEvent)
    (breachInfo : retributionInfo) (st : State) :
  exists evs,
    trace (snd (exactRetribution confChan breachInfo st)) = trace st ++ evs
    /\ (exists n, omap callKind evs = take n retributionCalls)
    /\ (publishedTxs evs = [] /\ registrations evs = []
        \/ exists pkScript justiceTx err,
             fst (awaitConfirmed confChan (world st)) = Recv true
             /\ fst (newSweepPkScript (snd (awaitConfirmed confChan (world st))))
                = Ok pkScript
             /\ signJusticeTx breachInfo (unsignedJusticeTx breachInfo pkScript)
                = Ok justiceTx
             /\ publishedTxs evs = [(justiceTx, err)]
             /\ match err with
                | Some _ => registrations evs = []
                | None =>
                    exists w bestHash currentHeight,
                      fst (GetBestBlock w) = Ok (bestHash, currentHeight)
                      /\ registrations evs
                         = [(TxHash justiceTx, 1, to_uint32 currentHeight)]
                end).
Proof.
  unfold exactRetribution. run.
  destruct (fst (awaitConfirmed confChan (world st))) as [[|]|] eqn:Hrecv; run;
    [|quiet_exit..].
  rewrite createJusticeTx_run. cbv beta iota. cbn [world retdb trace].
  destruct (fst (newSweepPkScript _)) as [pkScript|e] eqn:Hpk; cbv beta iota;
    [|run; quiet_exit].
  destruct (signJusticeTx breachInfo _) as [justiceTx|e] eqn:Hsign; run;
    [|quiet_exit].
  cbn [world retdb trace].
  destruct (fst (GetBestBlock _)) as [[h currentHeight]|e] eqn:Hbest; run;
    [|quiet_exit].
  cbn [world retdb trace].
  destruct (fst (PublishTransaction justiceTx _)) as [e|]; run;
    [loud_exit|].
  cbn [world retdb trace].
  destruct (fst (RegisterConfirmationsNtfn _ _ _ _)) as [confChan'|e]; run;
    [|loud_exit].
  cbn [world retdb trace].
  destruct (fst (awaitConfirmed confChan' _)) as [[|]|]; run;
    [|loud_exit..].
  cbn [world retdb trace chanPoint doneChan withWitnessFuncs].
  destruct (fst (MarkChanFullyClosed (chanPoint breachInfo) _)) as [errM|];
    run; cbn [world retdb trace];
    destruct (snd (retributionStore_Remove (chanPoint breachInfo) (retdb st)))
      as [errR|];
    run; cbn [world retdb trace];
    destruct (doneChan breachInfo) as [ch|]; run;
    loud_exit.
Qed.

(** X14. [exactRetribution] publishes at most one transaction, and only
    the justice transaction: whenever [PublishTransaction] is called, the
    breach confirmation had been received, the transaction handed over is
    the one [createJusticeTx] builds from [breachInfo] with the script the
    wallet returned, and it is the only transaction published in the
    run. *)
Theorem exactRetribution_publishes_only_justice (confChan : ConfirmationEvent)
    (breachInfo : retributionInfo) (st : State) :
  exists evs,
    trace (snd (exactRetribution confChan breachInfo st)) = trace st ++ evs
    /\ forall tx err,
         (tx, err) ∈ publishedTxs evs ->
         publishedTxs evs = [(tx, err)]
         /\ fst (awaitConfirmed confChan (world st)) = Recv true
         /\ exists pkScript,
              fst (newSweepPkScript (snd (awaitConfirmed confChan (world st))))
              = Ok pkScript
              /\ signJusticeTx breachInfo (unsignedJusticeTx breachInfo pkScript)
                 = Ok tx.
Proof.
  destruct (exactRetribution_calls confChan breachInfo st)
    as (evs & Htrace & _ & [[Hp _]|(pk & jtx & err' & Hr & Hpk & Hs & Hp & _)]);
    exists evs; (split; [exact Htrace|]); intros tx err Hin; rewrite Hp in Hin.
  - now apply elem_of_nil in Hin.
  - apply list_elem_of_singleton in Hin as [= -> ->]. eauto.
Qed.

(** X15. [exactRetribution] subscribes only to the justice transaction
    it managed to publish: every [RegisterConfirmationsNtfn] of a run asks
    for one confirmation of the hash of a transaction whose
    [PublishTransaction] returned nil, with the height [GetBestBlock]
    reported, truncated to 32 bits, as the hint; and there is at most one
    such call. *)
Theorem exactRetribution_registers_published (confChan : ConfirmationEvent)
    (breachInfo : retributionInfo) (st : State) :
  exists evs,
    trace (snd (exactRetribution confChan breachInfo st)) = trace st ++ evs
    /\ forall txid numConfs heightHint,
         (txid, numConfs, heightHint) ∈ registrations evs ->
         registrations evs = [(txid, numConfs, heightHint)]
         /\ numConfs = 1
         /\ (exists justiceTx,
               txid = TxHash justiceTx /\ publishedTxs evs = [(justiceTx, None)])
         /\ exists w bestHash currentHeight,
              fst (GetBestBlock w) = Ok (bestHash, currentHeight)
              /\ heightHint = to_uint32 currentHeight.
Proof.
  destruct (exactRetribution_calls confChan breachInfo st)
    as (evs & Htrace & _ & [[_ Hr]|(pk & jtx & err & _ & _ & _ & Hp & Hr)]);
    exists evs; (split; [exact Htrace|]); intros txid n hint Hin.
  - rewrite Hr in Hin. now apply elem_of_nil in Hin.
  - destruct err as [e|].
    + rewrite Hr in Hin. now apply elem_of_nil in Hin.
    + destruct Hr as (w & bh & h & Hbest & Hr). rewrite Hr in Hin |- *.
      apply list_elem_of_singleton in Hin as [= -> -> ->]. eauto 10.
Qed.

(** X16. The calls of [exactRetribution] come in one fixed order: the
    calls of every run (receipts, wallet, chain, broadcast, subscription,
    channeldb, store, close of [doneChan]; log lines left out) are an
    initial part of receive, newSweepPkScript, GetBestBlock,
    PublishTransaction, RegisterConfirmationsNtfn, receive,
    MarkChanFullyClosed, Remove, close. No call is repeated or made out
    of turn, whatever the collaborators answer. *)
Theorem exactRetribution_call_sequence (confChan : ConfirmationEvent)
    (breachInfo : retributionInfo) (st : State) :
  exists evs n,
    trace (snd (exactRetribution confChan breachInfo st)) = trace st ++ evs
    /\ omap callKind evs = take n retributionCalls.
Proof.
  destruct (exactRetribution_calls confChan breachInfo st)
    as (evs & Htrace & (n & Hn) & _).
  now exists evs, n.
Qed.

End ExecutorCoverage.

(** ** Records read back from disk *)

Section RestartCoverage.
Context {C : Collaborators} {Sg : Signing} {N : Node}.

Lemma retributionInfo_Decode_doneChan (ret0 ret : retributionInfo) (r rest : Reader) :
  retributionInfo_Decode ret0 r = Ok (ret, rest) -> doneChan ret = doneChan ret0.
Proof.
  unfold retributionInfo_Decode.
  repeat match goal with
         | |- context [mbind _ ?m] =>
             destruct m as [[? ?]|?]; cbn [mbind result_bind];
             [|discriminate]
         | |- context [mbind _ (NewHash ?x)] =>
             destruct (NewHash x); cbn [mbind result_bind]; [|discriminate]
         | |- context [mbind _ (ParsePubKey ?x)] =>
             destruct (ParsePubKey x); cbn [mbind result_bind]; [|discriminate]
         end.
  case_decide; [discriminate|].
  destruct (decodeHtlcOutputs _ _) as [[? ?]|?]; cbn [mbind result_bind];
    [|discriminate].
  now intros [= <- _].
Qed.

Lemma forEach_visit_decoded (kvs : list (list byte * list byte))
    (seen : list retributionInfo) (ret : retributionInfo) :
  ret ∈ fst (bolt.forEach (forAllBody visit) kvs seen) ->
  ret ∈ seen \/ exists v, decodeValue v = Some ret.
Proof.
  revert seen. induction kvs as [|[k v] kvs IH]; intros seen;
    cbn [bolt.forEach fst]; [now left|].
  unfold forAllBody at 1, visit at 1.
  destruct (retributionInfo_Decode zeroRetributionInfo v) as [[ret' rest]|e] eqn:Hd;
    cbn [fst]; [|now left].
  intros Hin. destruct (IH _ Hin) as [Hseen|Hdec]; [|now right].
  apply elem_of_app in Hseen as [Hseen|Hseen]; [now left|].
  apply list_elem_of_singleton in Hseen as ->.
  right. exists v. unfold decodeValue. now rewrite Hd.
Qed.

(** X17. The justice transaction depends on persisted fields only:
    [createJusticeTx] overwrites the witness functions with the ones it
    derives from witness type and sign descriptor before it calls them,
    so two records whose self and revoked outputs agree in their
    persisted fields get the same result and leave the same state,
    whatever witness functions, HTLC outputs or [doneChan] they carry. A
    retribution resumed from disk builds the transaction the original
    would have built. *)
Theorem createJusticeTx_ignores_transient (r1 r2 : retributionInfo) (st : State) :
  persisted_eq_output (selfOutput r1) (selfOutput r2) ->
  persisted_eq_output (revokedOutput r1) (revokedOutput r2) ->
  snd (fst (createJusticeTx r1 st)) = snd (fst (createJusticeTx r2 st))
  /\ snd (createJusticeTx r1 st) = snd (createJusticeTx r2 st).
Proof.
  intros (Ha1 & Ho1 & Hs1 & Hw1 & _) (Ha2 & Ho2 & Hs2 & Hw2 & _).
  rewrite !createJusticeTx_run. cbn [fst snd]. split; [|reflexivity].
  destruct (fst (newSweepPkScript (world st))) as [pkScript|e]; cbn [snd];
    [|reflexivity].
  unfold signJusticeTx, unsignedJusticeTx.
  now rewrite Ha1, Ho1, Hs1, Hw1, Ha2, Ho2, Hs2, Hw2.
Qed.

(** X18. A retribution resumed from disk cannot close [doneChan]: every
    record [ForAll] hands to its callback has a nil [doneChan] (it is not
    persisted and [Decode] does not set it), so a run of
    [exactRetribution] on such a record in which the justice transaction
    confirms marks the channel closed, removes the record and then
    panics on [close(breachInfo.doneChan)]; no run on it closes a
    channel. *)
Theorem resumed_retribution_panics (db : bolt.Tx) (ret : retributionInfo)
    (confChan : ConfirmationEvent) (st : State) :
  ret ∈ visited db ->
  doneChan ret = None
  /\ exists evs,
       trace (snd (exactRetribution confChan ret st)) = trace st ++ evs
       /\ (justiceConfirmed evs = true ->
           exists errM errR,
             omap finalStep evs
             = [ MarkedClosed (chanPoint ret) errM;
                 RecordRemoved (chanPoint ret) errR;
                 Panicked ])
       /\ DoneClosed ∉ omap finalStep evs.
Proof.
  intros Hin.
  assert (Hnil : doneChan ret = None).
  { unfold visited in Hin. rewrite ForAll_run_bucket in Hin.
    destruct (forEach_visit_decoded _ _ _ Hin) as [Hno|[v Hdec]];
      [now apply elem_of_nil in Hno|].
    unfold decodeValue in Hdec.
    destruct (retributionInfo_Decode zeroRetributionInfo v) as [[ret' rest]|e] eqn:Hd;
      [|discriminate].
    injection Hdec as ->.
    now rewrite (retributionInfo_Decode_doneChan _ _ _ _ Hd). }
  split; [exact Hnil|].
  destruct (exactRetribution_steps confChan ret st)
    as (evs & Htrace & [(Hno & Hsteps & _)|(Hyes & (errM & Hsteps) & _)]);
    exists evs; (split; [exact Htrace|]); rewrite Hsteps, ?Hnil; cbn [closeStep].
  - split; [congruence|]. apply not_elem_of_nil.
  - split; [eauto|].
    intros Hc. repeat (apply elem_of_cons in Hc as [Hc|Hc]; [discriminate|]).
    now apply elem_of_nil in Hc.
Qed.

End RestartCoverage.

(** ** The properties above on the sample data *)

Module CoverageExamples.
Import Double Sample MoreSamples DoubleFacts.

Lemma staleRetribution_wf : wf_retributionInfo staleRetribution.
Proof. by_evaluation. Defined.

Lemma otherRetribution_wf : wf_retributionInfo otherRetribution.
Proof. by_evaluation. Defined.

Lemma stored_sampleRetribution_wf : wf_retributionInfo (stored sampleRetribution).
Proof. by_evaluation. Defined.

Lemma dbTwice_consistent : store_consistent dbTwice.
Proof.
  apply (store_consistent_Add sampleRetribution dbOnce dbTwice
           sampleRetribution_wf);
    [|apply pair_from_snd; reflexivity].
  apply (store_consistent_Add staleRetribution ∅ dbOnce staleRetribution_wf
           store_consistent_empty).
  apply pair_from_snd; reflexivity.
Defined.

Lemma dbTwoChannels_consistent : store_consistent dbTwoChannels.
Proof.
  apply (store_consistent_Add otherRetribution dbTwice dbTwoChannels
           otherRetribution_wf dbTwice_consistent).
  apply pair_from_snd; reflexivity.
Defined.

Example ForAll_two_channels :
  retributionStore_ForAll visit dbTwoChannels []
  = ([stored sampleRetribution; stored otherRetribution], None).
Proof. reflexivity. Qed.

Lemma ForAll_visits_every_record_once_witness :
  store_consistent dbTwoChannels
  /\ exists seen,
       retributionStore_ForAll visit dbTwoChannels [] = (seen, None)
       /\ length seen = size (retBucket dbTwoChannels)
       /\ NoDup (chanPoint <$> seen)
       /\ forall ret,
            ret ∈ seen
            <-> exists v,
                  retBucket dbTwoChannels !! encodeOutpoint (chanPoint ret) = Some v
                  /\ decodeValue v = Some ret.
Proof.
  split; [exact dbTwoChannels_consistent|].
  exact (ForAll_visits_every_record_once dbTwoChannels dbTwoChannels_consistent).
Defined.

Lemma Add_Remove_ForAll_visits_rest_witness :
  store_consistent dbTwice
  /\ retributionStore_Add otherRetribution dbTwice = (dbTwoChannels, None)
  /\ snd (retributionStore_Remove (chanPoint otherRetribution) dbTwoChannels) = None
  /\ exists seen,
       retributionStore_ForAll visit
         (fst (retributionStore_Remove (chanPoint otherRetribution) dbTwoChannels)) []
       = (seen, None)
       /\ (forall ret,
             ret ∈ seen
             <-> ret ∈ visited dbTwice
                 /\ encodeOutpoint (chanPoint ret)
                    <> encodeOutpoint (chanPoint otherRetribution))
       /\ Forall (fun ret => chanPoint ret <> chanPoint otherRetribution) seen.
Proof.
  assert (H : retributionStore_Add otherRetribution dbTwice = (dbTwoChannels, None))
    by (apply pair_from_snd; reflexivity).
  split; [exact dbTwice_consistent|]. split; [exact H|].
  exact (Add_Remove_ForAll_visits_rest otherRetribution dbTwice dbTwoChannels
           dbTwice_consistent H).
Defined.

Lemma ForAll_stops_at_callback_error_witness :
  bolt.entries (retBucket dbTwoChannels)
  = [] ++ (encodeOutpoint (chanPoint sampleRetribution),
           retribution_bytes sampleRetribution)
       :: [(encodeOutpoint (chanPoint otherRetribution),
            retribution_bytes otherRetribution)]
  /\ bolt.forEach (forAllBody refusing) [] [] = ([], None)
  /\ retributionInfo_Decode zeroRetributionInfo (retribution_bytes sampleRetribution)
     = Ok (stored sampleRetribution, [])
  /\ refusing (stored sampleRetribution) []
     = ([stored sampleRetribution], Some (ErrCollaborator 7))
  /\ retributionStore_ForAll refusing dbTwoChannels []
     = ([stored sampleRetribution], Some (ErrCollaborator 7)).
Proof.
  repeat (split; [reflexivity|]).
  apply (ForAll_stops_at_callback_error refusing dbTwoChannels []
           [(encodeOutpoint (chanPoint otherRetribution),
             retribution_bytes otherRetribution)]
           (encodeOutpoint (chanPoint sampleRetribution))
           (retribution_bytes sampleRetribution)
           (stored sampleRetribution) [] [] [] [stored sampleRetribution]
           (ErrCollaborator 7));
    reflexivity.
Defined.


Lemma Decode_rejects_short_input_witness :
  (length (@nil byte) < 8)%nat
  /\ (length [x01; x02] < 32)%nat
  /\ breachedOutput_Decode zeroBreachedOutput [] = Err EOF
  /\ retributionInfo_Decode zeroRetributionInfo [x01; x02] = Err ErrUnexpectedEOF.
Proof.
  split; [cbn; lia|]. split; [cbn; lia|].
  apply (Decode_rejects_short_input zeroBreachedOutput zeroRetributionInfo
           [] [x01; x02]); cbn; lia.
Defined.

Lemma Decode_rejects_truncated_output_witness :
  OutpointCodec (outpoint sampleOutput)
  /\ SignDescCodec (signDescriptor sampleOutput)
  /\ breachedOutput_Decode zeroBreachedOutput
       (BigEndian.PutUint64 (to_uint64 (amt sampleOutput))
        ++ encodeOutpoint (outpoint sampleOutput)
        ++ encodeSignDescriptor (signDescriptor sampleOutput) ++ [])
     = Err EOF
  /\ breachedOutput_Decode zeroBreachedOutput
       (BigEndian.PutUint64 (to_uint64 (amt sampleOutput))
        ++ encodeOutpoint (outpoint sampleOutput)
        ++ encodeSignDescriptor (signDescriptor sampleOutput) ++ [x00])
     = Err ErrUnexpectedEOF
  /\ breachedOutput_Decode zeroBreachedOutput
       (BigEndian.PutUint64 (to_uint64 (amt sampleOutput))
        ++ encodeOutpoint (outpoint sampleOutput)
        ++ encodeSignDescriptor (signDescriptor sampleOutput) ++ [x00; x02])
     = Err EOF.
Proof.
  split; [intros ?; reflexivity|]. split; [intros ?; reflexivity|].
  apply (Decode_rejects_truncated_output sampleOutput x00 x02);
    intros ?; reflexivity.
Defined.

Lemma Encode_injective_witness :
  wf_retributionInfo sampleRetribution
  /\ wf_retributionInfo (stored sampleRetribution)
  /\ retributionInfo_Encode sampleRetribution []
     = Ok (retribution_bytes sampleRetribution)
  /\ retributionInfo_Encode (stored sampleRetribution) []
     = Ok (retribution_bytes sampleRetribution)
  /\ persisted_eq sampleRetribution (stored sampleRetribution).
Proof.
  split; [exact sampleRetribution_wf|].
  split; [exact stored_sampleRetribution_wf|].
  split; [reflexivity|]. split; [reflexivity|].
  apply (Encode_injective sampleRetribution (stored sampleRetribution)
           (retribution_bytes sampleRetribution)
           sampleRetribution_wf stored_sampleRetribution_wf);
    reflexivity.
Defined.

Lemma createJusticeTx_witnesses_witness :
  createJusticeTx sampleRetribution calm
  = ((withWitnessFuncs sampleRetribution, Ok sampleJusticeTx),
     mkState (world calm) ∅ [EvNewSweepPkScript])
  /\ exists pkScript localWitness remoteWitness,
       fst (newSweepPkScript (world calm)) = Ok pkScript
       /\ GenWitnessFunc (witnessType (selfOutput sampleRetribution))
            (signDescriptor (selfOutput sampleRetribution))
            (unsignedJusticeTx sampleRetribution pkScript)
            (NewTxSigHashes (unsignedJusticeTx sampleRetribution pkScript)) 0
          = Ok localWitness
       /\ GenWitnessFunc (witnessType (revokedOutput sampleRetribution))
            (signDescriptor (revokedOutput sampleRetribution))
            (mkMsgTx 2
               [ mkTxIn (outpoint (selfOutput sampleRetribution)) [] localWitness 0;
                 TxIn_of (outpoint (revokedOutput sampleRetribution)) ]
               (tx_TxOut (unsignedJusticeTx sampleRetribution pkScript)) 0)
            (NewTxSigHashes (unsignedJusticeTx sampleRetribution pkScript)) 1
          = Ok remoteWitness
       /\ tx_TxIn sampleJusticeTx
          = [ mkTxIn (outpoint (selfOutput sampleRetribution)) [] localWitness 0;
              mkTxIn (outpoint (revokedOutput sampleRetribution)) []
                remoteWitness 0 ]
       /\ LockTime sampleJusticeTx = 0.
Proof.
  split; [reflexivity|].
  apply (createJusticeTx_witnesses sampleRetribution
           (withWitnessFuncs sampleRetribution) sampleJusticeTx calm
           (mkState (world calm) ∅ [EvNewSweepPkScript])).
  reflexivity.
Defined.

Lemma craftCommitSweepTx_shape_witness :
  5000 < Value (Output (SelfOutputSignDesc bigClose)) < 2 ^ 63
  /\ fst (newSweepPkScript (world calm)) = Ok sweepScript
  /\ SelfOutPoint bigClose = Some (mkOutPoint hash3 0)
  /\ fst (craftCommitSweepTx bigClose calm) = Ok bigSweepTx.
Proof.
  split; [cbn; lia|]. split; [reflexivity|]. split; [reflexivity|].
  apply (craftCommitSweepTx_shape bigClose calm sweepScript [x30]
           (mkOutPoint hash3 0)); [cbn; lia|reflexivity..].
Defined.

(** A close with no self output publishes nothing and marks the channel;
    a close worth sweeping publishes the sweep first. *)
Example sweepAndMarkClosed_dust :
  trace (snd (sweepAndMarkClosed dustClose (mkOutPoint hash1 0) calm))
  = [ EvNewSweepPkScript;
      EvLog Errorf "unable to generate sweep tx: %v";
      EvLog Infof "Force closed ChannelPoint(%v) is fully closed, updating DB";
      EvMarkChanFullyClosed (mkOutPoint hash1 0) None ].
Proof. reflexivity. Qed.

Example sweepAndMarkClosed_big :
  omap callKind (trace (snd (sweepAndMarkClosed bigClose (mkOutPoint hash1 0) calm)))
  = [KNewSweepPkScript; KPublishTransaction; KMarkChanFullyClosed].
Proof. reflexivity. Qed.

(** The calls of a run in which everything succeeds are all of
    [retributionCalls]. *)
Example exactRetribution_calm_calls :
  omap callKind
    (trace (snd (exactRetribution breachConf sampleRetribution
                   (mkState (world calm) dbTwice []))))
  = retributionCalls.
Proof. reflexivity. Qed.

End CoverageExamples.

(** * The coordinator *)

(** Running the coordinator's monad one bind at a time. *)
Section CoordinatorRun.
Context {C : Collaborators} {Sg : Signing} {N : Node} {D : Daemon}.

Lemma Co_bind_run {A B : Type} (m : Co A) (f : A -> Co B) (b : Arbiter) :
  (m ≫= f) b = (let '(a, b') := m b in f a b').
Proof. reflexivity. Qed.

Lemma Co_ret_run {A : Type} (a : A) (b : Arbiter) : (mret a : Co A) b = (a, b).
Proof. reflexivity. Qed.

Lemma act_run (a : action) (b : Arbiter) :
  act a b = (tt, mkArbiter (a_world b) (a_retdb b) (breachObservers b) (made b)
                   (started b) (stopped b) (acts b ++ [a])).
Proof. reflexivity. Qed.

Lemma ask_run {A : Type} (f : World -> A * World) (a : A -> action) (b : Arbiter) :
  ask f a b =
  (fst (f (a_world b)),
   mkArbiter (snd (f (a_world b))) (a_retdb b) (breachObservers b) (made b)
     (started b) (stopped b) (acts b ++ [a (fst (f (a_world b)))])).
Proof. unfold ask. now destruct (f (a_world b)). Qed.

Lemma lift_call_run {A : Type} (f : World -> A * World) (ev : A -> event)
    (b : Arbiter) :
  lift (call f ev) b =
  (fst (f (a_world b)),
   mkArbiter (snd (f (a_world b))) (a_retdb b) (breachObservers b) (made b)
     (started b) (stopped b) (acts b ++ [ActCall (ev (fst (f (a_world b))))])).
Proof. unfold lift. rewrite call_run. reflexivity. Qed.

Lemma makeChan_run (b : Arbiter) :
  makeChan b = (made b, mkArbiter (a_world b) (a_retdb b) (breachObservers b)
                          (S (made b)) (started b) (stopped b)
                          (acts b ++ [ActMake (made b)])).
Proof. reflexivity. Qed.

Lemma getObserver_run (cp : OutPoint) (b : Arbiter) :
  getObserver cp b = (breachObservers b !! cp, b).
Proof. reflexivity. Qed.

Lemma setObserver_run (cp : OutPoint) (ch : Chan) (b : Arbiter) :
  setObserver cp ch b
  = (tt, mkArbiter (a_world b) (a_retdb b) (<[cp := ch]> (breachObservers b))
           (made b) (started b) (stopped b) (acts b)).
Proof. reflexivity. Qed.

Lemma deleteObserver_run (cp : OutPoint) (b : Arbiter) :
  deleteObserver cp b
  = (tt, mkArbiter (a_world b) (a_retdb b) (delete cp (breachObservers b))
           (made b) (started b) (stopped b) (acts b)).
Proof. reflexivity. Qed.

Lemma storeAdd_run (ret : retributionInfo) (b : Arbiter) :
  storeAdd ret b =
  (snd (retributionStore_Add ret (a_retdb b)),
   mkArbiter (a_world b) (fst (retributionStore_Add ret (a_retdb b)))
     (breachObservers b) (made b) (started b) (stopped b)
     (acts b ++ [ActStoreAdd ret (snd (retributionStore_Add ret (a_retdb b)))])).
Proof. unfold storeAdd. now destruct (retributionStore_Add ret (a_retdb b)). Qed.

Lemma storeForAll_run {St : Type}
    (cb : retributionInfo -> St -> St * option error) (s : St) (b : Arbiter) :
  storeForAll cb s b =
  (retributionStore_ForAll cb (a_retdb b) s,
   mkArbiter (a_world b) (a_retdb b) (breachObservers b) (made b)
     (started b) (stopped b)
     (acts b ++ [ActStoreForAll (snd (retributionStore_ForAll cb (a_retdb b) s))])).
Proof.
  unfold storeForAll. now destruct (retributionStore_ForAll cb (a_retdb b) s).
Qed.

Lemma bestHeight_run (b : Arbiter) :
  bestHeight b =
  (match fst (GetBestBlock (a_world b)) with
   | Ok (_, currentHeight) => (currentHeight, None)
   | Err e => (heightWithError (snd (GetBestBlock (a_world b))), Some e)
   end,
   mkArbiter (snd (GetBestBlock (a_world b))) (a_retdb b) (breachObservers b)
     (made b) (started b) (stopped b) (acts b ++ [ActCall EvGetBestBlock])).
Proof.
  unfold bestHeight. rewrite Co_bind_run, lift_call_run.
  now destruct (fst (GetBestBlock (a_world b))) as [[h z]|e].
Qed.

Lemma register_run (txid : Hash) (currentHeight : Z) (b : Arbiter) :
  register txid currentHeight b =
  (fst (RegisterConfirmationsNtfn txid 1 (to_uint32 currentHeight) (a_world b)),
   mkArbiter
     (snd (RegisterConfirmationsNtfn txid 1 (to_uint32 currentHeight) (a_world b)))
     (a_retdb b) (breachObservers b) (made b) (started b) (stopped b)
     (acts b ++ [ActCall (EvRegisterConfirmationsNtfn txid 1
                            (to_uint32 currentHeight))])).
Proof. unfold register. now rewrite lift_call_run. Qed.

End CoordinatorRun.

Ltac corun :=
  repeat (first [ rewrite Co_bind_run | rewrite Co_ret_run | rewrite bestHeight_run
                | rewrite register_run | rewrite lift_call_run | rewrite ask_run
                | rewrite makeChan_run | rewrite getObserver_run
                | rewrite setObserver_run | rewrite deleteObserver_run
                | rewrite storeAdd_run | rewrite storeForAll_run
                | rewrite act_run
                | progress unfold logf, go, closeSignal ];
          cbv beta iota;
          cbn [a_world a_retdb breachObservers made started stopped acts]).

(** ** contractObserver: the observers' map and the signals *)

(** Nothing is a member of the empty list. *)
Ltac nil_in :=
  intros;
  match goal with H : _ ∈ [] |- _ => now apply elem_of_nil in H end.

Section ObserverFacts.
Context {C : Collaborators} {Sg : Signing} {N : Node} {D : Daemon}.

Lemma closedSignals_app (l1 l2 : list action) :
  closedSignals (l1 ++ l2) = closedSignals l1 ++ closedSignals l2.
Proof. apply omap_app. Qed.

Lemma observersStarted_app (l1 l2 : list action) :
  observersStarted (l1 ++ l2) = observersStarted l1 ++ observersStarted l2.
Proof. apply omap_app. Qed.

Lemma retributionsStarted_app (l1 l2 : list action) :
  retributionsStarted (l1 ++ l2) = retributionsStarted l1 ++ retributionsStarted l2.
Proof. apply omap_app. Qed.

(** One round of the [select], summed up: what it appends, what it does
    to the map and to the number of channels made. *)
Lemma handle_effect (msg : Message) (b : Arbiter) :
  exists new,
    acts (snd (handle msg b)) = acts b ++ new
    /\ a_retdb (snd (handle msg b)) = a_retdb b
    /\ match msg with
       | Breached breachInfo =>
           fst (handle msg b) = true
           /\ made (snd (handle msg b)) = made b
           /\ closedSignals new = []
           /\ observersStarted new = []
           /\ (exists currentHeight,
                 EvRegisterConfirmationsNtfn (commitHash breachInfo) 1
                   (to_uint32 currentHeight) ∈ calls new)
           /\ (exists currentHeight,
                 breachObservers (snd (handle msg b)) = breachObservers b
                 /\ retributionsStarted new = []
                 /\ retributionSteps new
                    = breachSteps (breachInfo, currentHeight, None)
                 \/ exists confChan,
                      breachObservers (snd (handle msg b))
                      = delete (chanPoint breachInfo) (breachObservers b)
                      /\ retributionsStarted new = [(confChan, breachInfo)]
                      /\ retributionSteps new
                         = breachSteps (breachInfo, currentHeight, Some confChan))
       | NewContract contract =>
           fst (handle msg b) = true
           /\ made (snd (handle msg b)) = S (made b)
           /\ breachObservers (snd (handle msg b))
              = <[ChannelPoint contract := made b]> (breachObservers b)
           /\ closedSignals new
              = option_list (breachObservers b !! ChannelPoint contract)
           /\ observersStarted new = [(ChannelPoint contract, made b)]
           /\ retributionsStarted new = []
           /\ retributionSteps new = []
       | Settled cp =>
           fst (handle msg b) = true
           /\ made (snd (handle msg b)) = made b
           /\ breachObservers (snd (handle msg b)) = delete cp (breachObservers b)
           /\ closedSignals new = option_list (breachObservers b !! cp)
           /\ observersStarted new = []
           /\ retributionsStarted new = []
           /\ retributionSteps new = []
       | QuitSignal => handle msg b = (false, b) /\ new = []
       end.
Proof.
  remember (handle msg b) as r eqn:Hr. revert Hr.
  destruct msg as [breachInfo|contract|cp|]; unfold handle.
  - corun.
    destruct (fst (GetBestBlock (a_world b))) as [[h currentHeight]|e]; corun;
      cbn [a_world a_retdb breachObservers made acts];
      (destruct (fst (RegisterConfirmationsNtfn _ _ _ _)) as [confChan|e']; corun;
       intros ->;
       eexists; (split; [cbn [snd acts]; rewrite <- ?app_assoc; reflexivity|]);
       cbn [fst snd a_retdb made breachObservers];
       repeat (split; [reflexivity|]);
       (split; [eexists; cbn; solve [repeat constructor]|]);
       eexists;
       [ right; eexists; repeat split; reflexivity
       | left; repeat split; reflexivity ]).
  - corun. cbn [a_world a_retdb breachObservers made acts].
    destruct (breachObservers b !! ChannelPoint contract) as [old|]; corun;
      intros ->;
      eexists; (split; [cbn [snd acts]; rewrite <- ?app_assoc; reflexivity|]);
      cbn [fst snd a_retdb made breachObservers];
      repeat (split; [reflexivity|]); reflexivity.
  - corun.
    destruct (breachObservers b !! cp) as [kill|] eqn:Hcp; corun;
      intros ->;
      eexists; (split; [cbn [snd acts]; rewrite <- ?app_assoc; reflexivity|]);
      cbn [fst snd a_retdb made breachObservers];
      repeat (split; [reflexivity|]); try reflexivity.
    split; [symmetry; now apply delete_id|repeat split].
  - intros ->. exists []. rewrite app_nil_r. repeat split.
Qed.

Lemma calls_app (l1 l2 : list action) : calls (l1 ++ l2) = calls l1 ++ calls l2.
Proof. apply omap_app. Qed.

Lemma tracks_refl (b : Arbiter) : tracks b [] b.
Proof.
  split; cbn;
    [ lia | constructor | nil_in | nil_in | intros; now left | nil_in
    | constructor ].
Qed.

Lemma accounts_refl (b : Arbiter) : accounts b [] b.
Proof. intros cp ch [H|H]; [now left|now apply elem_of_nil in H]. Qed.

Lemma NoDup_snd_eq {A B : Type} (l : list (A * B)) (a1 a2 : A) (y : B) :
  NoDup (snd <$> l) -> (a1, y) ∈ l -> (a2, y) ∈ l -> a1 = a2.
Proof.
  induction l as [|[a y'] l IH]; cbn [fmap list_fmap snd];
    intros Hnd H1 H2; [now apply elem_of_nil in H1|].
  apply NoDup_cons in Hnd as [Hy Hnd].
  apply elem_of_cons in H1 as [H1|H1];
    apply elem_of_cons in H2 as [H2|H2]; simplify_eq; auto.
  - exfalso. apply Hy. apply list_elem_of_fmap. now exists (a2, y').
  - exfalso. apply Hy. apply list_elem_of_fmap. now exists (a1, y').
Qed.

Lemma tracks_well_tracked (b : Arbiter) (new : list action) (b' : Arbiter) :
  well_tracked b -> tracks b new b' -> well_tracked b'.
Proof.
  intros [Hlt Hinj] T. split.
  - intros cp ch Hch. destruct (tr_map_origin _ _ _ T _ _ Hch) as [Hb|Hs].
    + pose proof (Hlt _ _ Hb). pose proof (tr_made _ _ _ T). lia.
    + pose proof (tr_started_fresh _ _ _ T _ _ Hs). lia.
  - intros cp1 cp2 ch H1 H2.
    destruct (tr_map_origin _ _ _ T _ _ H1) as [Hb1|Hs1];
      destruct (tr_map_origin _ _ _ T _ _ H2) as [Hb2|Hs2].
    + now apply (Hinj cp1 cp2 ch).
    + pose proof (Hlt _ _ Hb1). pose proof (tr_started_fresh _ _ _ T _ _ Hs2). lia.
    + pose proof (Hlt _ _ Hb2). pose proof (tr_started_fresh _ _ _ T _ _ Hs1). lia.
    + exact (NoDup_snd_eq _ _ _ _ (tr_started_own _ _ _ T) Hs1 Hs2).
Qed.

(** Two stretches, one after the other. *)
Lemma tracks_app (b b1 b2 : Arbiter) (n1 n2 : list action) :
  well_tracked b -> tracks b n1 b1 -> tracks b1 n2 b2 -> tracks b (n1 ++ n2) b2.
Proof.
  intros Hwt T1 T2.
  pose proof (tracks_well_tracked _ _ _ Hwt T1) as [Hlt1 Hinj1].
  destruct Hwt as [Hlt Hinj].
  pose proof (tr_made _ _ _ T1) as Hm1. pose proof (tr_made _ _ _ T2) as Hm2.
  assert (Hbelow : forall ch, ch ∈ closedSignals n1 -> (ch < made b1)%nat).
  { intros ch Hc. destruct (tr_closed_origin _ _ _ T1 _ Hc) as (cp & [Hcp|Hs]).
    - pose proof (Hlt _ _ Hcp). lia.
    - pose proof (tr_started_fresh _ _ _ T1 _ _ Hs). lia. }
  split.
  - lia.
  - rewrite closedSignals_app. apply NoDup_app.
    split; [apply (tr_closed_once _ _ _ T1)|].
    split; [|apply (tr_closed_once _ _ _ T2)].
    intros ch Hc1 Hc2.
    destruct (tr_closed_origin _ _ _ T2 _ Hc2) as (cp & [Hcp|Hs]).
    + exact (tr_closed_gone _ _ _ T1 _ _ Hc1 Hcp).
    + pose proof (Hbelow _ Hc1).
      pose proof (tr_started_fresh _ _ _ T2 _ _ Hs). lia.
  - intros ch. rewrite closedSignals_app, elem_of_app.
    setoid_rewrite observersStarted_app. setoid_rewrite elem_of_app.
    intros [Hc|Hc].
    + destruct (tr_closed_origin _ _ _ T1 _ Hc) as (cp & [?|?]); eauto.
    + destruct (tr_closed_origin _ _ _ T2 _ Hc) as (cp & [Hcp|?]); [|eauto].
      destruct (tr_map_origin _ _ _ T1 _ _ Hcp) as [?|?]; eauto.
  - intros ch cp. rewrite closedSignals_app, elem_of_app. intros [Hc|Hc] Hcp.
    + destruct (tr_map_origin _ _ _ T2 _ _ Hcp) as [Hb|Hs].
      * exact (tr_closed_gone _ _ _ T1 _ _ Hc Hb).
      * pose proof (tr_started_fresh _ _ _ T2 _ _ Hs).
        pose proof (Hbelow _ Hc). lia.
    + exact (tr_closed_gone _ _ _ T2 _ _ Hc Hcp).
  - intros cp ch Hcp. rewrite observersStarted_app, elem_of_app.
    destruct (tr_map_origin _ _ _ T2 _ _ Hcp) as [Hb|Hs]; [|auto].
    destruct (tr_map_origin _ _ _ T1 _ _ Hb) as [?|?]; auto.
  - intros cp ch. rewrite observersStarted_app, elem_of_app. intros [Hs|Hs].
    + pose proof (tr_started_fresh _ _ _ T1 _ _ Hs). lia.
    + pose proof (tr_started_fresh _ _ _ T2 _ _ Hs). lia.
  - rewrite observersStarted_app, fmap_app. apply NoDup_app.
    split; [apply (tr_started_own _ _ _ T1)|].
    split; [|apply (tr_started_own _ _ _ T2)].
    intros ch H1 H2.
    apply list_elem_of_fmap in H1 as ([cp1 ch1] & -> & H1).
    apply list_elem_of_fmap in H2 as ([cp2 ch2] & Heq & H2).
    cbn [snd] in Heq. subst ch2.
    pose proof (tr_started_fresh _ _ _ T1 _ _ H1).
    pose proof (tr_started_fresh _ _ _ T2 _ _ H2). lia.
Qed.

Lemma accounts_app (b b1 b2 : Arbiter) (n1 n2 : list action) :
  accounts b n1 b1 -> accounts b1 n2 b2 -> accounts b (n1 ++ n2) b2.
Proof.
  intros A1 A2 cp ch.
  rewrite observersStarted_app, closedSignals_app, retributionsStarted_app.
  setoid_rewrite elem_of_app.
  intros [Hb|[Hs|Hs]].
  - destruct (A1 cp ch (or_introl Hb)) as [H1|[Hc|(conf & bi & Hr & Hcp)]];
      [|now auto|right; right; exists conf, bi; now auto].
    destruct (A2 cp ch (or_introl H1)) as [H2|[Hc|(conf & bi & Hr & Hcp)]];
      [now left|now auto|right; right; exists conf, bi; now auto].
  - destruct (A1 cp ch (or_intror Hs)) as [H1|[Hc|(conf & bi & Hr & Hcp)]];
      [|now auto|right; right; exists conf, bi; now auto].
    destruct (A2 cp ch (or_introl H1)) as [H2|[Hc|(conf & bi & Hr & Hcp)]];
      [now left|now auto|right; right; exists conf, bi; now auto].
  - destruct (A2 cp ch (or_intror Hs)) as [H2|[Hc|(conf & bi & Hr & Hcp)]];
      [now left|now auto|right; right; exists conf, bi; now auto].
Qed.

(** One round of the [select] is such a stretch. *)
Lemma handle_tracks (msg : Message) (b : Arbiter) :
  well_tracked b ->
  exists new,
    acts (snd (handle msg b)) = acts b ++ new
    /\ a_retdb (snd (handle msg b)) = a_retdb b
    /\ tracks b new (snd (handle msg b))
    /\ accounts b new (snd (handle msg b))
    /\ (snd <$> retributionsStarted new) `sublist_of` breaches [msg]
    /\ (forall confChan breachInfo,
          (confChan, breachInfo) ∈ retributionsStarted new ->
          exists currentHeight,
            EvRegisterConfirmationsNtfn (commitHash breachInfo) 1
              (to_uint32 currentHeight) ∈ calls new)
    /\ (fst (handle msg b) = false <-> msg = QuitSignal).
Proof.
  intros [Hlt Hinj].
  destruct (handle_effect msg b) as (new & Hacts & Hdb & Heff).
  exists new. split; [exact Hacts|]. split; [exact Hdb|].
  destruct msg as [breachInfo|contract|cp|].
  - destruct Heff as (Hr & Hmade & Hc & Hs & Hreg & Hmap0).
    assert (Hmap : breachObservers (snd (handle (Breached breachInfo) b))
                   = breachObservers b
                   /\ retributionsStarted new = []
                   \/ exists confChan,
                        breachObservers (snd (handle (Breached breachInfo) b))
                        = delete (chanPoint breachInfo) (breachObservers b)
                        /\ retributionsStarted new = [(confChan, breachInfo)]).
    { destruct Hmap0 as (h0 & [(? & ? & _)|(conf & ? & ? & _)]); eauto. }
    clear Hmap0.
    rewrite Hr. split; [|split; [|split; [|split]]].
    + split; rewrite ?Hmade, ?Hc, ?Hs; cbn [fmap list_fmap];
        [ lia | constructor | nil_in | nil_in | | nil_in | constructor ].
      intros cp ch Hcp. left.
      destruct Hmap as [[Hm _]|(conf & Hm & _)]; rewrite Hm in Hcp;
        [exact Hcp|].
      now apply lookup_delete_Some in Hcp as [_ ?].
    + intros cp ch [Hb|Hin]; [|rewrite Hs in Hin; now apply elem_of_nil in Hin].
      destruct Hmap as [[-> _]|(conf & -> & ->)]; [now left|].
      destruct (decide (chanPoint breachInfo = cp)) as [<-|Hne].
      * right; right. exists conf, breachInfo.
        split; [apply list_elem_of_here|reflexivity].
      * left. apply lookup_delete_Some. now split.
    + destruct Hmap as [[_ ->]|(conf & _ & ->)]; cbn;
        [apply sublist_nil_l|reflexivity].
    + intros conf bi Hin.
      destruct Hmap as [[_ Hn]|(conf' & _ & Hn)]; rewrite Hn in Hin;
        [now apply elem_of_nil in Hin|].
      apply list_elem_of_singleton in Hin as [= _ ->]. exact Hreg.
    + split; [discriminate|discriminate].
  - destruct Heff as (Hr & Hmade & Hmap & Hc & Hs & Hn & _).
    rewrite Hr, Hn. split; [|split; [|split; [|split]]].
    + split; rewrite ?Hmade, ?Hc, ?Hs, ?Hmap; cbn [fmap list_fmap snd].
      * lia.
      * destruct (breachObservers b !! ChannelPoint contract); cbn;
          [apply NoDup_singleton|constructor].
      * intros ch Hin. exists (ChannelPoint contract). left.
        destruct (breachObservers b !! ChannelPoint contract) as [old|];
          cbn in Hin; [|now apply elem_of_nil in Hin].
        now apply list_elem_of_singleton in Hin as ->.
      * intros ch cp Hin Hcp.
        destruct (breachObservers b !! ChannelPoint contract) as [old|] eqn:Hold;
          cbn in Hin; [|now apply elem_of_nil in Hin].
        apply list_elem_of_singleton in Hin as ->.
        apply lookup_insert_Some in Hcp as [[_ Heq]|[Hne Hcp]].
        -- pose proof (Hlt _ _ Hold). lia.
        -- apply Hne. now apply (Hinj _ _ old).
      * intros cp ch Hcp.
        apply lookup_insert_Some in Hcp as [[<- <-]|[_ Hcp]];
          [right; apply list_elem_of_here|now left].
      * intros cp ch Hin. apply list_elem_of_singleton in Hin as [= _ ->]. lia.
      * apply NoDup_singleton.
    + intros cp ch [Hb|Hin].
      * destruct (decide (ChannelPoint contract = cp)) as [<-|Hne].
        -- right; left. rewrite Hc, Hb. apply list_elem_of_here.
        -- left. rewrite Hmap. apply lookup_insert_Some. right. now split.
      * rewrite Hs in Hin. apply list_elem_of_singleton in Hin as [= -> ->].
        left. rewrite Hmap. apply lookup_insert_Some. now left.
    + apply sublist_nil_l.
    + intros conf bi Hin. now apply elem_of_nil in Hin.
    + split; discriminate.
  - destruct Heff as (Hr & Hmade & Hmap & Hc & Hs & Hn & _).
    rewrite Hr, Hn. split; [|split; [|split; [|split]]].
    + split; rewrite ?Hmade, ?Hc, ?Hs, ?Hmap; cbn [fmap list_fmap snd];
        [ lia | | | | | nil_in | constructor ].
      * destruct (breachObservers b !! cp); cbn;
          [apply NoDup_singleton|constructor].
      * intros ch Hin. exists cp. left.
        destruct (breachObservers b !! cp) as [kill|];
          cbn in Hin; [|now apply elem_of_nil in Hin].
        now apply list_elem_of_singleton in Hin as ->.
      * intros ch cp' Hin Hcp.
        destruct (breachObservers b !! cp) as [kill|] eqn:Hkill;
          cbn in Hin; [|now apply elem_of_nil in Hin].
        apply list_elem_of_singleton in Hin as ->.
        apply lookup_delete_Some in Hcp as [Hne Hcp].
        apply Hne. now apply (Hinj _ _ kill).
      * intros cp' ch Hcp. left. now apply lookup_delete_Some in Hcp as [_ ?].
    + intros cp' ch [Hb|Hin]; [|rewrite Hs in Hin; now apply elem_of_nil in Hin].
      destruct (decide (cp = cp')) as [<-|Hne].
      * right; left. rewrite Hc, Hb. apply list_elem_of_here.
      * left. rewrite Hmap. apply lookup_delete_Some. now split.
    + apply sublist_nil_l.
    + intros conf bi Hin. now apply elem_of_nil in Hin.
    + split; discriminate.
  - destruct Heff as [Hrun ->]. rewrite Hrun. cbn [fst snd].
    split; [apply tracks_refl|]. split; [apply accounts_refl|].
    split; [apply sublist_nil_l|].
    split; [intros ? ? Hin; now apply elem_of_nil in Hin|]. split; reflexivity.
Qed.

Lemma breaches_cons (msg : Message) (msgs : list Message) :
  breaches (msg :: msgs) = breaches [msg] ++ breaches msgs.
Proof. unfold breaches. cbn. now destruct msg. Qed.

(** The [select] loop is such a stretch. *)
Lemma observeContracts_tracks (msgs : list Message) (b : Arbiter) :
  well_tracked b ->
  exists new,
    acts (snd (observeContracts msgs b)) = acts b ++ new
    /\ tracks b new (snd (observeContracts msgs b))
    /\ accounts b new (snd (observeContracts msgs b)).
Proof.
  revert b. induction msgs as [|msg rest IH]; intros b Hwt.
  - exists []. cbn. rewrite app_nil_r.
    split; [reflexivity|]. split; [apply tracks_refl|apply accounts_refl].
  - cbn [observeContracts]. rewrite Co_bind_run.
    destruct (handle_tracks msg b Hwt) as (n1 & Ha1 & _ & T1 & A1 & _).
    destruct (handle msg b) as [[|] b1]; cbn [fst snd] in *.
    + destruct (IH b1 (tracks_well_tracked _ _ _ Hwt T1)) as (n2 & Ha2 & T2 & A2).
      exists (n1 ++ n2). rewrite Ha2, Ha1, app_assoc.
      split; [reflexivity|].
      split; [now apply (tracks_app b b1)|now apply (accounts_app b b1)].
    + exists n1. auto.
Qed.

Lemma retributionSteps_app (l1 l2 : list action) :
  retributionSteps (l1 ++ l2) = retributionSteps l1 ++ retributionSteps l2.
Proof. apply omap_app. Qed.

(** One round of the [select] and the node: a breach costs the two calls
    of [nodeAnswer], in the world the round found, and the retribution is
    started exactly when the second one granted a subscription; no other
    message reaches the node, subscribes or starts a retribution. *)
Lemma handle_answers (msg : Message) (b : Arbiter) :
  exists new,
    acts (snd (handle msg b)) = acts b ++ new
    /\ a_retdb (snd (handle msg b)) = a_retdb b
    /\ match msg with
       | Breached breachInfo =>
           fst (handle msg b) = true
           /\ retributionSteps new
              = breachSteps (fst (nodeAnswer breachInfo (a_world b)))
           /\ retributionsStarted new
              = granted [fst (nodeAnswer breachInfo (a_world b))]
           /\ a_world (snd (handle msg b))
              = snd (nodeAnswer breachInfo (a_world b))
       | QuitSignal => handle msg b = (false, b) /\ new = []
       | _ =>
           fst (handle msg b) = true
           /\ retributionSteps new = []
           /\ retributionsStarted new = []
           /\ a_world (snd (handle msg b)) = a_world b
       end.
Proof.
  remember (handle msg b) as r eqn:Hr. revert Hr.
  destruct msg as [breachInfo|contract|cp|]; unfold handle.
  - unfold nodeAnswer. cbv zeta. cbn [fst snd]. corun.
    destruct (fst (GetBestBlock (a_world b))) as [[h currentHeight]|e]; corun;
      cbn [a_world a_retdb breachObservers made acts];
      (destruct (fst (RegisterConfirmationsNtfn _ _ _ _)) as [confChan|e']; corun;
       intros ->;
       eexists; (split; [cbn [snd acts]; rewrite <- ?app_assoc; reflexivity|]);
       cbn [fst snd a_retdb a_world];
       repeat (split; [reflexivity|]); reflexivity).
  - corun. cbn [a_world a_retdb breachObservers made acts].
    destruct (breachObservers b !! ChannelPoint contract) as [old|]; corun;
      intros ->;
      eexists; (split; [cbn [snd acts]; rewrite <- ?app_assoc; reflexivity|]);
      cbn [fst snd a_retdb a_world];
      repeat (split; [reflexivity|]); reflexivity.
  - corun.
    destruct (breachObservers b !! cp) as [kill|] eqn:Hcp; corun;
      intros ->;
      eexists; (split; [cbn [snd acts]; rewrite <- ?app_assoc; reflexivity|]);
      cbn [fst snd a_retdb a_world];
      repeat (split; [reflexivity|]); reflexivity.
  - intros ->. exists []. rewrite app_nil_r. repeat split.
Qed.

Lemma nodeAnswers_cons (breachInfo : retributionInfo)
    (rest : list retributionInfo) (w : World) :
  nodeAnswers (breachInfo :: rest) w
  = (fst (nodeAnswer breachInfo w)
     :: fst (nodeAnswers rest (snd (nodeAnswer breachInfo w))),
     snd (nodeAnswers rest (snd (nodeAnswer breachInfo w)))).
Proof.
  cbn [nodeAnswers]. destruct (nodeAnswer breachInfo w) as [o w1]. cbn [fst snd].
  now destruct (nodeAnswers rest w1).
Qed.

(** The loop, breach by breach: for each breach it is told of before it
    quits, the subscription and, exactly when the node granted it, the
    retribution; nothing else subscribes, starts a retribution or
    reaches the node, and the store is left alone. *)
Lemma observeContracts_retribution_steps (msgs : list Message) (b : Arbiter) :
  exists new,
    acts (snd (observeContracts msgs b)) = acts b ++ new
    /\ a_retdb (snd (observeContracts msgs b)) = a_retdb b
    /\ retributionSteps new
       = fst (nodeAnswers (breaches (untilQuit msgs)) (a_world b)) ≫= breachSteps
    /\ retributionsStarted new
       = granted (fst (nodeAnswers (breaches (untilQuit msgs)) (a_world b)))
    /\ a_world (snd (observeContracts msgs b))
       = snd (nodeAnswers (breaches (untilQuit msgs)) (a_world b)).
Proof.
  revert b. induction msgs as [|msg rest IH]; intros b.
  - exists []. cbn. rewrite app_nil_r. repeat split.
  - cbn [observeContracts]. rewrite Co_bind_run.
    destruct (handle_answers msg b) as (n1 & Ha1 & Hdb1 & Heff).
    destruct msg as [breachInfo|contract|cp|].
    + destruct Heff as (Hr & Hs1 & Hg1 & Hw1).
      destruct (handle (Breached breachInfo) b) as [c b1]. cbn [fst snd] in *.
      subst c. destruct (IH b1) as (n2 & Ha2 & Hdb2 & Hs2 & Hg2 & Hw2).
      exists (n1 ++ n2).
      cbn [untilQuit]. unfold breaches in *. cbn [omap list_omap].
      rewrite nodeAnswers_cons. cbn [fst snd].
      rewrite Ha2, Ha1, app_assoc, Hdb2, Hdb1, retributionSteps_app,
        retributionsStarted_app, Hs1, Hs2, Hg1, Hg2, Hw2, Hw1.
      repeat split.
      unfold granted. cbn [omap list_omap].
      now destruct (fst (nodeAnswer breachInfo (a_world b))).2.
    + destruct Heff as (Hr & Hs1 & Hg1 & Hw1).
      destruct (handle (NewContract contract) b) as [c b1]. cbn [fst snd] in *.
      subst c. destruct (IH b1) as (n2 & Ha2 & Hdb2 & Hs2 & Hg2 & Hw2).
      exists (n1 ++ n2).
      cbn [untilQuit]. unfold breaches in *. cbn [omap list_omap].
      rewrite Ha2, Ha1, app_assoc, Hdb2, Hdb1, retributionSteps_app,
        retributionsStarted_app, Hs1, Hs2, Hg1, Hg2, Hw2, Hw1.
      repeat split.
    + destruct Heff as (Hr & Hs1 & Hg1 & Hw1).
      destruct (handle (Settled cp) b) as [c b1]. cbn [fst snd] in *.
      subst c. destruct (IH b1) as (n2 & Ha2 & Hdb2 & Hs2 & Hg2 & Hw2).
      exists (n1 ++ n2).
      cbn [untilQuit]. unfold breaches in *. cbn [omap list_omap].
      rewrite Ha2, Ha1, app_assoc, Hdb2, Hdb1, retributionSteps_app,
        retributionsStarted_app, Hs1, Hs2, Hg1, Hg2, Hw2, Hw1.
      repeat split.
    + destruct Heff as [-> ->]. exists []. cbn. rewrite app_nil_r.
      repeat split.
Qed.

(** The loop over the channels read from disk: one observer each, with
    a signal of its own; nothing is closed, no retribution started. *)
Lemma watchActive_tracks (activeChannels : list LightningChannel) (b : Arbiter) :
  well_tracked b ->
  exists new,
    acts (snd (watchActive activeChannels b)) = acts b ++ new
    /\ a_retdb (snd (watchActive activeChannels b)) = a_retdb b
    /\ tracks b new (snd (watchActive activeChannels b))
    /\ closedSignals new = []
    /\ retributionsStarted new = []
    /\ calls new = []
    /\ fst <$> observersStarted new = ChannelPoint <$> activeChannels
    /\ (NoDup (ChannelPoint <$> activeChannels) ->
        (forall c, c ∈ activeChannels ->
                   breachObservers b !! ChannelPoint c = None) ->
        accounts b new (snd (watchActive activeChannels b))).
Proof.
  revert b. induction activeChannels as [|channel rest IH]; intros b Hwt.
  - exists []. cbn. rewrite app_nil_r.
    repeat (split; [reflexivity|]). split; [apply tracks_refl|].
    repeat (split; [reflexivity|]). intros _ _. apply accounts_refl.
  - cbn [watchActive]. corun.
    set (b1 := mkArbiter (a_world b) (a_retdb b)
                 (<[ChannelPoint channel := made b]> (breachObservers b))
                 (S (made b)) (started b) (stopped b)
                 (acts b ++ [ActMake (made b)]
                  ++ [ActGo true (GoBreachObserver channel (made b))])).
    rewrite <- app_assoc. change (watchActive rest _) with (watchActive rest b1).
    assert (T1 : tracks b [ActMake (made b);
                           ActGo true (GoBreachObserver channel (made b))] b1).
    { destruct Hwt as [Hlt Hinj]. split; cbn.
      - lia.
      - constructor.
      - nil_in.
      - nil_in.
      - intros cp ch Hcp.
        apply lookup_insert_Some in Hcp as [[<- <-]|[_ Hcp]];
          [right; apply list_elem_of_here|now left].
      - intros cp ch Hin. apply list_elem_of_singleton in Hin as [= _ ->]. lia.
      - apply NoDup_singleton. }
    destruct (IH b1 (tracks_well_tracked _ _ _ Hwt T1))
      as (n2 & Ha2 & Hdb2 & T2 & Hc2 & Hr2 & Hk2 & Hs2 & A2).
    exists ([ActMake (made b); ActGo true (GoBreachObserver channel (made b))] ++ n2).
    rewrite Ha2, Hdb2.
    split; [subst b1; cbn [acts]; now rewrite <- !app_assoc|].
    split; [reflexivity|].
    split; [exact (tracks_app _ _ _ _ _ Hwt T1 T2)|].
    rewrite closedSignals_app, retributionsStarted_app, calls_app,
      observersStarted_app, fmap_app, Hc2, Hr2, Hk2, Hs2.
    repeat (split; [reflexivity|]).
    intros Hnd Hnone. cbn [fmap list_fmap] in Hnd.
    apply NoDup_cons in Hnd as [Hnotin Hnd].
    apply (accounts_app b b1); [|apply A2; [exact Hnd|]].
    + intros cp ch [Hb|Hin].
      * left. subst b1. cbn [breachObservers]. apply lookup_insert_Some. right.
        split; [|exact Hb]. intros <-.
        rewrite (Hnone channel) in Hb by apply list_elem_of_here. discriminate.
      * cbn in Hin. apply list_elem_of_singleton in Hin as [= -> ->].
        left. subst b1. cbn [breachObservers]. apply lookup_insert_Some. now left.
    + intros c Hc. subst b1. cbn [breachObservers].
      rewrite lookup_insert_ne; [apply Hnone; now apply list_elem_of_further|].
      intros Heq. apply Hnotin. rewrite Heq.
      apply list_elem_of_fmap. now exists c.
Qed.

Lemma well_tracked_newArbiter (w : World) (db : bolt.Tx) :
  well_tracked (newArbiter w db).
Proof.
  split; intros *; cbn [newArbiter breachObservers]; rewrite lookup_empty;
    discriminate.
Qed.

(** X19. No signal is closed twice: in a run of [contractObserver]
    from a state in which every tracked signal was made and no two
    channel points share one, on any channels and any messages, the
    signals closed are pairwise different, each belongs to an observer
    tracked at the start or started during the run, and none is still in
    the observers' map when the run ends; the map is again in such a
    state. Closing a closed channel panics in Go; this run never does. *)
Theorem contractObserver_closes_each_signal_once
    (activeChannels : list LightningChannel) (msgs : list Message) (b : Arbiter) :
  well_tracked b ->
  exists new,
    acts (snd (contractObserver activeChannels msgs b)) = acts b ++ new
    /\ NoDup (closedSignals new)
    /\ (forall ch, ch ∈ closedSignals new ->
          (exists cp, breachObservers b !! cp = Some ch
                      \/ (cp, ch) ∈ observersStarted new)
          /\ forall cp,
               breachObservers (snd (contractObserver activeChannels msgs b)) !! cp
               <> Some ch)
    /\ well_tracked (snd (contractObserver activeChannels msgs b)).
Proof.
  intros Hwt. unfold contractObserver. rewrite Co_bind_run.
  destruct (watchActive_tracks activeChannels b Hwt) as (n1 & Ha1 & _ & T1 & _).
  destruct (watchActive activeChannels b) as [[] b1]. cbn [snd] in *.
  pose proof (tracks_well_tracked _ _ _ Hwt T1) as Hwt1.
  destruct (observeContracts_tracks msgs b1 Hwt1) as (n2 & Ha2 & T2 & _).
  pose proof (tracks_app _ _ _ _ _ Hwt T1 T2) as T.
  exists (n1 ++ n2). rewrite Ha2, Ha1, app_assoc. split; [reflexivity|].
  split; [apply (tr_closed_once _ _ _ T)|].
  split; [|exact (tracks_well_tracked _ _ _ Hwt T)].
  intros ch Hch. split; [exact (tr_closed_origin _ _ _ T _ Hch)|].
  intros cp. exact (tr_closed_gone _ _ _ T _ _ Hch).
Qed.

(** X20. No observer is lost: started on a fresh arbiter with channels
    of pairwise different channel points, [contractObserver] tracks in
    its map exactly observers it started, each under its own channel
    point and with a signal no other observer has; and every observer it
    started is still tracked when the run ends, or had its signal
    closed, or its channel was handed to a retribution. *)
Theorem contractObserver_accounts_for_observers
    (activeChannels : list LightningChannel) (msgs : list Message) (b : Arbiter) :
  breachObservers b = ∅ ->
  NoDup (ChannelPoint <$> activeChannels) ->
  exists new,
    acts (snd (contractObserver activeChannels msgs b)) = acts b ++ new
    /\ (forall cp ch,
          breachObservers (snd (contractObserver activeChannels msgs b)) !! cp
          = Some ch ->
          (cp, ch) ∈ observersStarted new)
    /\ NoDup (snd <$> observersStarted new)
    /\ forall cp ch,
         (cp, ch) ∈ observersStarted new ->
         breachObservers (snd (contractObserver activeChannels msgs b)) !! cp
         = Some ch
         \/ ch ∈ closedSignals new
         \/ exists confChan breachInfo,
              (confChan, breachInfo) ∈ retributionsStarted new
              /\ chanPoint breachInfo = cp.
Proof.
  intros Hempty Hnd.
  assert (Hwt : well_tracked b).
  { split; intros *; rewrite Hempty, lookup_empty; discriminate. }
  unfold contractObserver. rewrite Co_bind_run.
  destruct (watchActive_tracks activeChannels b Hwt)
    as (n1 & Ha1 & _ & T1 & _ & _ & _ & _ & A1).
  assert (A1' := A1 Hnd (fun c _ => eq_ind_r (fun m => m !! _ = None)
                                      (lookup_empty _) Hempty)).
  destruct (watchActive activeChannels b) as [[] b1]. cbn [snd] in *.
  pose proof (tracks_well_tracked _ _ _ Hwt T1) as Hwt1.
  destruct (observeContracts_tracks msgs b1 Hwt1) as (n2 & Ha2 & T2 & A2).
  pose proof (tracks_app _ _ _ _ _ Hwt T1 T2) as T.
  pose proof (accounts_app _ _ _ _ _ A1' A2) as A.
  exists (n1 ++ n2). rewrite Ha2, Ha1, app_assoc. split; [reflexivity|].
  split; [|split; [apply (tr_started_own _ _ _ T)|]].
  - intros cp ch Hcp. destruct (tr_map_origin _ _ _ T _ _ Hcp) as [Hb|?]; [|done].
    rewrite Hempty, lookup_empty in Hb. discriminate.
  - intros cp ch Hin. apply A. now right.
Qed.

(** X21. Retributions follow breaches: for each record received on
    [breachedContracts] before the quit signal, in the order of arrival,
    [contractObserver] asks [GetBestBlock] and then
    [RegisterConfirmationsNtfn] once, for one confirmation of the record's
    [commitHash], and starts [exactRetribution] on that record, with the
    subscription the node returned, right after it exactly when the node
    returned one and not an error. It subscribes to nothing else, starts
    no other retribution and makes no other call to the node, whatever
    else it is told; and it never touches the retribution store. *)
Theorem contractObserver_retributions_follow_breaches
    (activeChannels : list LightningChannel) (msgs : list Message) (b : Arbiter) :
  exists new,
    acts (snd (contractObserver activeChannels msgs b)) = acts b ++ new
    /\ a_retdb (snd (contractObserver activeChannels msgs b)) = a_retdb b
    /\ retributionSteps new
       = fst (nodeAnswers (breaches (untilQuit msgs)) (a_world b)) ≫= breachSteps
    /\ retributionsStarted new
       = granted (fst (nodeAnswers (breaches (untilQuit msgs)) (a_world b)))
    /\ a_world (snd (contractObserver activeChannels msgs b))
       = snd (nodeAnswers (breaches (untilQuit msgs)) (a_world b)).
Proof.
  unfold contractObserver. rewrite Co_bind_run.
  assert (H1 : exists n1,
             acts (snd (watchActive activeChannels b)) = acts b ++ n1
             /\ a_retdb (snd (watchActive activeChannels b)) = a_retdb b
             /\ a_world (snd (watchActive activeChannels b)) = a_world b
             /\ retributionSteps n1 = []
             /\ retributionsStarted n1 = []).
  { clear msgs. revert b.
    induction activeChannels as [|channel rest IH]; intros b.
    - exists []. cbn. now rewrite app_nil_r.
    - cbn [watchActive]. corun.
      match goal with
      | |- context [watchActive rest ?b1] =>
          destruct (IH b1) as (n2 & Ha2 & Hdb2 & Hw2 & Hr2 & Hg2)
      end.
      exists ([ActMake (made b); ActGo true (GoBreachObserver channel (made b))]
              ++ n2).
      rewrite Ha2, Hdb2, Hw2. cbn [acts a_retdb a_world].
      rewrite retributionSteps_app, retributionsStarted_app, Hr2, Hg2.
      split; [now rewrite <- !app_assoc|]. repeat split. }
  destruct H1 as (n1 & Ha1 & Hdb1 & Hw1 & Hr1 & Hg1).
  destruct (watchActive activeChannels b) as [[] b1]. cbn [snd] in *.
  destruct (observeContracts_retribution_steps msgs b1)
    as (n2 & Ha2 & Hdb2 & Hsteps & Hgranted & Hworld).
  exists (n1 ++ n2). rewrite Ha2, Ha1, app_assoc, Hdb2, Hdb1.
  rewrite retributionSteps_app, retributionsStarted_app, Hr1, Hg1. cbn [app].
  rewrite Hsteps, Hgranted, Hworld, Hw1.
  repeat split.
Qed.

End ObserverFacts.

(** ** breachObserver and what a restart finds *)

Section BreachFacts.
Context {C : Collaborators} {Sg : Signing} {N : Node} {D : Daemon}.

Lemma visited_NoDup (db : bolt.Tx) :
  store_consistent db -> NoDup (chanPoint <$> visited db).
Proof.
  intros Hdb. unfold visited.
  destruct (ForAll_visit_consistent db Hdb) as [-> Hall]. cbn [fst].
  apply (NoDup_fmap_1 encodeOutpoint).
  rewrite <- list_fmap_compose.
  change (encodeOutpoint ∘ chanPoint)
    with (fun ret : retributionInfo => encodeOutpoint (chanPoint ret)).
  rewrite (omap_decoded_keys _ Hall). apply entries_NoDup_keys.
Qed.

(** On a consistent file [ForAll] folds a callback that never fails over
    the records [visited] lists. *)
Lemma ForAll_fold {St : Type} (cb : retributionInfo -> St -> St * option error)
    (db : bolt.Tx) (s : St) :
  store_consistent db ->
  (forall ret s', snd (cb ret s') = None) ->
  retributionStore_ForAll cb db s
  = (foldl (fun s' ret => fst (cb ret s')) s (visited db), None).
Proof.
  intros Hdb Hcb. unfold visited.
  destruct (ForAll_visit_consistent db Hdb) as [-> Hall]. cbn [fst].
  rewrite ForAll_run_bucket. revert s.
  induction Hall as [|[k v] kvs (ret & Hret & _) _ IH]; intros s;
    cbn [bolt.forEach omap list_omap foldl]; [reflexivity|].
  cbn [snd] in *. rewrite Hret. cbn [foldl]. unfold forAllBody at 1.
  unfold decodeValue in Hret.
  destruct (retributionInfo_Decode zeroRetributionInfo v) as [[ret' rest]|e];
    [|discriminate].
  injection Hret as ->. specialize (Hcb ret s).
  destruct (cb ret s) as [s' err]. cbn [fst snd] in *. subst err. apply IH.
Qed.

(** The maps [Start] loads hold, under each channel point, the record
    visited for it and the close summary made from that record. *)
Lemma load_fold_lookup (l : list retributionInfo)
    (maps : gmap OutPoint retributionInfo * gmap OutPoint ChannelCloseSummary)
    (cp : OutPoint) :
  NoDup (chanPoint <$> l) ->
  maps.2 = closeSummaryOf <$> maps.1 ->
  (forall ret, ret ∈ l -> maps.1 !! chanPoint ret = None) ->
  (foldl (fun s' ret => fst (loadRetribution ret s')) maps l).2
  = closeSummaryOf <$> (foldl (fun s' ret => fst (loadRetribution ret s')) maps l).1
  /\ forall ret,
       (foldl (fun s' ret => fst (loadRetribution ret s')) maps l).1 !! cp = Some ret
       <-> maps.1 !! cp = Some ret \/ (ret ∈ l /\ chanPoint ret = cp).
Proof.
  revert maps. induction l as [|r l IH]; intros maps Hnd Hsum Hfresh; cbn [foldl].
  - split; [exact Hsum|]. intros ret. split; [now left|].
    intros [?|[Hin _]]; [done|now apply elem_of_nil in Hin].
  - cbn [fmap list_fmap] in Hnd. apply NoDup_cons in Hnd as [Hnotin Hnd].
    destruct (IH (fst (loadRetribution r maps)) Hnd) as [Hsum' Hlook].
    + cbn [loadRetribution fst snd]. rewrite Hsum. now rewrite fmap_insert.
    + intros ret Hin. cbn [loadRetribution fst].
      rewrite lookup_insert_ne; [apply Hfresh; now apply list_elem_of_further|].
      intros Heq. apply Hnotin. rewrite Heq. apply list_elem_of_fmap. now exists ret.
    + split; [exact Hsum'|]. intros ret. rewrite Hlook.
      cbn [loadRetribution fst]. rewrite lookup_insert_Some, elem_of_cons.
      split.
      * intros [[[<- <-]|[_ ?]]|[? ?]]; auto.
      * intros [Hm|[[->|Hin] <-]]; auto.
        left. destruct (decide (chanPoint r = cp)) as [<-|?]; [|auto].
        rewrite (Hfresh r) in Hm by apply list_elem_of_here. discriminate.
Qed.

Lemma loadedRetributions_spec (db : bolt.Tx) :
  store_consistent db ->
  retributionStore_ForAll loadRetribution db (∅, ∅) = (loadedRetributions db, None)
  /\ (loadedRetributions db).2 = closeSummaryOf <$> (loadedRetributions db).1
  /\ forall cp ret,
       (loadedRetributions db).1 !! cp = Some ret
       <-> ret ∈ visited db /\ chanPoint ret = cp.
Proof.
  intros Hdb. unfold loadedRetributions.
  rewrite (ForAll_fold loadRetribution db (∅, ∅) Hdb) by reflexivity.
  cbn [fst]. split; [reflexivity|].
  assert (Hsplit : forall cp,
             (foldl (fun s' ret => fst (loadRetribution ret s')) (∅, ∅) (visited db)).2
             = closeSummaryOf
                 <$> (foldl (fun s' ret => fst (loadRetribution ret s')) (∅, ∅)
                        (visited db)).1
             /\ forall ret,
                  (foldl (fun s' ret => fst (loadRetribution ret s')) (∅, ∅)
                     (visited db)).1 !! cp = Some ret
                  <-> (∅ : gmap OutPoint retributionInfo) !! cp = Some ret
                      \/ (ret ∈ visited db /\ chanPoint ret = cp)).
  { intros cp. apply (load_fold_lookup (visited db) (∅, ∅) cp).
    - now apply visited_NoDup.
    - cbn. now rewrite fmap_empty.
    - intros. apply lookup_empty. }
  split; [exact (proj1 (Hsplit (mkOutPoint [] 0)))|].
  intros cp ret. rewrite (proj2 (Hsplit cp) ret), lookup_empty.
  split; [intros [?|?]; [discriminate|done]|now right].
Qed.

(** [breachObserver] on a breach, in one equation. *)
Lemma breachObserver_breach_run (contract : LightningChannel) (settleSignal : Chan)
    (breachInfo : BreachRetribution) (sent : bool) (b : Arbiter) :
  exists new errD,
    acts (snd (breachObserver contract settleSignal (ContractBreach breachInfo)
                 sent b))
    = acts b ++ new
    /\ steps new
       = [ ActCloseLink (ChannelPoint contract);
           ActStateSnapshot contract;
           ActMake (made b);
           ActStoreAdd (breachRecord contract breachInfo b)
             (snd (retributionStore_Add (breachRecord contract breachInfo b)
                     (a_retdb b)));
           ActDeleteState contract
             (closeSummaryOf (breachRecord contract breachInfo b)) errD;
           ActOffer (breachRecord contract breachInfo b) sent ]
    /\ a_retdb (snd (breachObserver contract settleSignal
                       (ContractBreach breachInfo) sent b))
       = fst (retributionStore_Add (breachRecord contract breachInfo b) (a_retdb b))
    /\ breachObservers (snd (breachObserver contract settleSignal
                               (ContractBreach breachInfo) sent b))
       = breachObservers b.
Proof.
  remember (breachObserver contract settleSignal (ContractBreach breachInfo) sent b)
    as r eqn:Hr.
  revert Hr. unfold breachObserver. corun.
  fold (breachRecord contract breachInfo b).
  destruct (snd (retributionStore_Add (breachRecord contract breachInfo b)
                   (a_retdb b))) as [eA|] eqn:HA; corun;
    (destruct (fst (DeleteState contract _ _)) as [eD|] eqn:HD; corun;
     intros ->; eexists; eexists;
     (split; [cbn [snd acts]; rewrite <- ?app_assoc; reflexivity|]);
     cbn [snd a_retdb breachObservers]; repeat split).
Qed.

(** X22. The breach path of [breachObserver]: whatever [Add] and
    [DeleteState] return, the steps are, in this order, [CloseLink] on
    the channel point, [StateSnapshot], the making of [doneChan], [Add]
    of the assembled record, [DeleteState], and the offer of the same
    record on [breachedContracts]; an error of [Add] or [DeleteState] is
    logged and nothing else. The close summary given to [DeleteState] is
    the one [Start] reconstructs from that record; the observers' map is
    not touched. *)
Theorem breachObserver_breach_steps (contract : LightningChannel)
    (settleSignal : Chan) (breachInfo : BreachRetribution) (sent : bool)
    (b : Arbiter) :
  exists new errD,
    acts (snd (breachObserver contract settleSignal (ContractBreach breachInfo)
                 sent b))
    = acts b ++ new
    /\ steps new
       = [ ActCloseLink (ChannelPoint contract);
           ActStateSnapshot contract;
           ActMake (made b);
           ActStoreAdd (breachRecord contract breachInfo b)
             (snd (retributionStore_Add (breachRecord contract breachInfo b)
                     (a_retdb b)));
           ActDeleteState contract
             (closeSummaryOf (breachRecord contract breachInfo b)) errD;
           ActOffer (breachRecord contract breachInfo b) sent ]
    /\ witnessType (selfOutput (breachRecord contract breachInfo b))
       = CommitmentNoDelay
    /\ witnessType (revokedOutput (breachRecord contract breachInfo b))
       = CommitmentRevoke
    /\ htlcOutputs (breachRecord contract breachInfo b) = []
    /\ doneChan (breachRecord contract breachInfo b) = Some (made b)
    /\ breachObservers (snd (breachObserver contract settleSignal
                               (ContractBreach breachInfo) sent b))
       = breachObservers b.
Proof.
  destruct (breachObserver_breach_run contract settleSignal breachInfo sent b)
    as (new & errD & Hacts & Hsteps & _ & Hmap).
  exists new, errD. repeat split; assumption.
Qed.

(** X23. A breach survives a restart: if the file is consistent, the
    record [breachObserver] assembles is well formed and [Add] returns
    nil, then after the run [ForAll] with the callback of [Start]
    succeeds, finds under the channel point the assembled record (without
    its transient fields), and reconstructs for it exactly the close
    summary that [breachObserver] handed to [DeleteState]. *)
Theorem breach_survives_restart (contract : LightningChannel) (settleSignal : Chan)
    (breachInfo : BreachRetribution) (sent : bool) (b : Arbiter) :
  store_consistent (a_retdb b) ->
  wf_retributionInfo (breachRecord contract breachInfo b) ->
  snd (retributionStore_Add (breachRecord contract breachInfo b) (a_retdb b))
  = None ->
  exists summary errD,
    ActDeleteState contract summary errD
    ∈ acts (snd (breachObserver contract settleSignal (ContractBreach breachInfo)
                   sent b))
    /\ snd (retributionStore_ForAll loadRetribution
              (a_retdb (snd (breachObserver contract settleSignal
                               (ContractBreach breachInfo) sent b)))
              (∅, ∅))
       = None
    /\ (loadedRetributions
          (a_retdb (snd (breachObserver contract settleSignal
                           (ContractBreach breachInfo) sent b)))).1
       !! ChannelPoint contract
       = Some (stored (breachRecord contract breachInfo b))
    /\ (loadedRetributions
          (a_retdb (snd (breachObserver contract settleSignal
                           (ContractBreach breachInfo) sent b)))).2
       !! ChannelPoint contract
       = Some summary.
Proof.
  intros Hdb Hwf Hadd.
  destruct (breachObserver_breach_run contract settleSignal breachInfo sent b)
    as (new & errD & Hacts & Hsteps & Hretdb & _).
  set (ret := breachRecord contract breachInfo b) in *.
  exists (closeSummaryOf ret), errD. rewrite Hretdb, Hacts.
  assert (Hpair : retributionStore_Add ret (a_retdb b)
                  = (fst (retributionStore_Add ret (a_retdb b)), None))
    by now apply pair_from_snd.
  pose proof (store_consistent_Add _ _ _ Hwf Hdb Hpair) as Hdb'.
  destruct (loadedRetributions_spec _ Hdb') as (Hrun & Hsum & Hlook).
  assert (Hin : stored ret ∈ visited (fst (retributionStore_Add ret (a_retdb b)))).
  { apply (visited_elem_of _ _ Hdb'). exists (retribution_bytes ret).
    split; [|now apply decodeValue_bytes].
    rewrite (retributionStore_Add_ok _ _ _ Hpair).
    change (default ∅ (a_retdb b !! retributionBucket)) with (retBucket (a_retdb b)).
    rewrite retBucket_insert. cbn [chanPoint stored]. apply lookup_insert_eq. }
  assert (Hrec : (loadedRetributions (fst (retributionStore_Add ret (a_retdb b)))).1
                 !! ChannelPoint contract = Some (stored ret)).
  { apply Hlook. split; [exact Hin|reflexivity]. }
  split; [|split; [now rewrite Hrun|split; [exact Hrec|]]].
  - apply elem_of_app. right.
    assert (Hs : ActDeleteState contract (closeSummaryOf ret) errD ∈ steps new)
      by (rewrite Hsteps; do 4 apply list_elem_of_further; apply list_elem_of_here).
    unfold steps in Hs. apply list_elem_of_omap in Hs as (a & Ha & Hsome).
    destruct a as [[]| | | | | | | | | | | | | | |]; cbn in Hsome;
      try discriminate. now simplify_eq.
  - rewrite Hsum, lookup_fmap, Hrec. reflexivity.
Qed.

End BreachFacts.

(** ** Start and Stop *)

Section StartFacts.
Context {C : Collaborators} {Sg : Signing} {N : Node} {D : Daemon}.

Lemma same_struct_refl (b : Arbiter) : same_struct b b.
Proof. repeat split. Qed.

Lemma same_struct_trans (b1 b2 b3 : Arbiter) :
  same_struct b1 b2 -> same_struct b2 b3 -> same_struct b1 b3.
Proof.
  intros (? & ? & ? & ? & ?) (? & ? & ? & ? & ?). repeat split; congruence.
Qed.

Lemma closedLinks_app (l1 l2 : list action) :
  closedLinks (l1 ++ l2) = closedLinks l1 ++ closedLinks l2.
Proof. apply omap_app. Qed.

Lemma deletedStates_app (l1 l2 : list action) :
  deletedStates (l1 ++ l2) = deletedStates l1 ++ deletedStates l2.
Proof. apply omap_app. Qed.

Lemma goroutines_app (l1 l2 : list action) :
  goroutines (l1 ++ l2) = goroutines l1 ++ goroutines l2.
Proof. apply omap_app. Qed.

Lemma pendingWatched_app (l1 l2 : list action) :
  pendingWatched (l1 ++ l2) = pendingWatched l1 ++ pendingWatched l2.
Proof. apply omap_app. Qed.

Lemma contractObservers_app (l1 l2 : list action) :
  contractObservers (l1 ++ l2) = contractObservers l1 ++ contractObservers l2.
Proof. apply omap_app. Qed.

(** The loop over the active channels: it starts nothing; when it runs
    to the end it has closed the link and deleted the state of exactly
    the channels with a close summary, in order, and kept the others. *)
Lemma promoteBreached_spec (closeSummaries : gmap OutPoint ChannelCloseSummary)
    (activeChannels : list OpenChannel) (channelsToWatch : list LightningChannel)
    (b : Arbiter) (res : result (list LightningChannel)) (b' : Arbiter) :
  promoteBreached closeSummaries activeChannels channelsToWatch b = (res, b') ->
  exists new,
    acts b' = acts b ++ new
    /\ same_struct b b'
    /\ goroutines new = []
    /\ match res with
       | Err _ => True
       | Ok toWatch =>
           closedLinks new
           = FundingOutpoint
               <$> filter (fun c => is_Some (closeSummaries !! FundingOutpoint c))
                     activeChannels
           /\ (fun x => (x.1.2, x.2)) <$> deletedStates new
              = omap (fun c => (fun s => (s, None))
                                 <$> closeSummaries !! FundingOutpoint c)
                  activeChannels
           /\ length toWatch
              = (length channelsToWatch
                 + length (filter (fun c => closeSummaries !! FundingOutpoint c = None)
                             activeChannels))%nat
       end.
Proof.
  revert channelsToWatch b.
  induction activeChannels as [|chanState rest IH]; intros watch b.
  - cbn [promoteBreached]. corun. intros [= <- <-]. exists [].
    rewrite app_nil_r. repeat split. cbn. lia.
  - cbn [promoteBreached]. corun.
    destruct (fst (NewLightningChannel chanState (a_world b))) as [channel|e];
      corun.
    2:{ intros [= <- <-]. eexists.
        split; [cbn [acts]; rewrite <- ?app_assoc; reflexivity|].
        repeat split. }
    destruct (closeSummaries !! FundingOutpoint chanState) as [summary|] eqn:Hsum;
      corun.
    + destruct (fst (DeleteState channel summary _)) as [e|]; corun.
      { intros [= <- <-]. eexists.
        split; [cbn [acts]; rewrite <- ?app_assoc; reflexivity|].
        repeat split. }
      intros Hrest. destruct (IH _ _ Hrest) as (n2 & Ha2 & Hs2 & Hg2 & Hres).
      eexists ([_; _; _] ++ n2). rewrite Ha2. cbn [acts].
      split; [rewrite <- ?app_assoc; reflexivity|].
      split; [exact Hs2|].
      rewrite goroutines_app, Hg2. split; [reflexivity|].
      destruct res as [toWatch|e]; [|exact I].
      destruct Hres as (Hc & Hd & Hl).
      rewrite closedLinks_app, deletedStates_app, fmap_app, Hc, Hd.
      rewrite filter_cons_True by (rewrite Hsum; eauto).
      rewrite filter_cons_False by (rewrite Hsum; discriminate).
      cbn [omap list_omap]. rewrite Hsum.
      split; [reflexivity|]. split; [reflexivity|exact Hl].
    + intros Hrest. destruct (IH _ _ Hrest) as (n2 & Ha2 & Hs2 & Hg2 & Hres).
      eexists ([_] ++ n2). rewrite Ha2. cbn [acts].
      split; [rewrite <- ?app_assoc; reflexivity|].
      split; [exact Hs2|].
      rewrite goroutines_app, Hg2. split; [reflexivity|].
      destruct res as [toWatch|e]; [|exact I].
      destruct Hres as (Hc & Hd & Hl).
      rewrite closedLinks_app, deletedStates_app, fmap_app, Hc, Hd.
      rewrite filter_cons_False by (rewrite Hsum; intros [? ?]; discriminate).
      rewrite filter_cons_True by exact Hsum.
      cbn [omap list_omap]. rewrite Hsum.
      split; [reflexivity|]. split; [reflexivity|].
      rewrite Hl, length_app. cbn. lia.
Qed.

(** The loop over the close summaries: it closes no link and deletes no
    state; when it runs to the end it has subscribed to the breach
    transaction of every summary and started one retribution for each,
    on the record loaded for its channel point. *)
Lemma resumeRetributions_spec (currentHeight : Z)
    (breachRetInfos : gmap OutPoint retributionInfo)
    (summaries : list (OutPoint * ChannelCloseSummary))
    (b : Arbiter) (res : option error) (b' : Arbiter) :
  resumeRetributions currentHeight breachRetInfos summaries b = (res, b') ->
  exists new,
    acts b' = acts b ++ new
    /\ same_struct b b'
    /\ closedLinks new = [] /\ deletedStates new = []
    /\ contractObservers new = [] /\ pendingWatched new = []
    /\ (res = None ->
        snd <$> retributionsStarted new
        = (fun p => default zeroRetributionInfo (breachRetInfos !! p.1))
            <$> summaries
        /\ registrations (calls new)
           = (fun p => (ClosingTXID p.2, 1, to_uint32 currentHeight)) <$> summaries).
Proof.
  revert b. induction summaries as [|[chanPoint closeSummary] rest IH]; intros b.
  - cbn [resumeRetributions]. corun. intros [= <- <-]. exists [].
    rewrite app_nil_r. repeat split.
  - cbn [resumeRetributions]. corun.
    destruct (fst (RegisterConfirmationsNtfn _ _ _ _)) as [confChan|e]; corun.
    + intros Hrest. destruct (IH _ Hrest) as (n2 & Ha2 & Hs2 & Hc & Hd & Ho & Hp & Hres).
      eexists ([_; _] ++ n2). rewrite Ha2. cbn [acts].
      split; [rewrite <- ?app_assoc; reflexivity|].
      split; [exact Hs2|].
      rewrite closedLinks_app, deletedStates_app, contractObservers_app,
        pendingWatched_app, retributionsStarted_app, calls_app, Hc, Hd, Ho, Hp.
      repeat (split; [reflexivity|]).
      intros ->. destruct (Hres eq_refl) as [Hr Hreg].
      unfold registrations in *. rewrite fmap_app, omap_app, Hr, Hreg.
      split; reflexivity.
    + intros [= <- <-]. eexists.
      split; [cbn [acts]; rewrite <- ?app_assoc; reflexivity|].
      split; [repeat split|]. repeat (split; [reflexivity|]). discriminate.
Qed.

(** The loop over the pending closes: a watcher for each one that is
    not a force close with a time-locked balance. *)
Lemma watchPendingCloses_spec (currentHeight : Z)
    (pendingCloseChans : list ChannelCloseSummary)
    (b : Arbiter) (res : option error) (b' : Arbiter) :
  watchPendingCloses currentHeight pendingCloseChans b = (res, b') ->
  exists new,
    acts b' = acts b ++ new
    /\ same_struct b b'
    /\ closedLinks new = [] /\ deletedStates new = []
    /\ retributionsStarted new = [] /\ contractObservers new = []
    /\ (res = None ->
        pendingWatched new
        = ChanPoint
            <$> filter (fun p => ~ (CloseType p = ForceClose
                                    /\ TimeLockedBalance p <> 0))
                  pendingCloseChans).
Proof.
  revert b. induction pendingCloseChans as [|pendingClose rest IH]; intros b.
  - cbn [watchPendingCloses]. corun. intros [= <- <-]. exists [].
    rewrite app_nil_r. repeat split.
  - cbn [watchPendingCloses].
    destruct (decide (CloseType pendingClose = ForceClose
                      /\ TimeLockedBalance pendingClose <> 0)) as [Hskip|Hwatch].
    + intros Hrest. destruct (IH _ Hrest) as (n2 & Ha2 & Hs2 & Hc & Hd & Hr & Ho & Hres).
      exists n2. repeat (split; [assumption|]).
      intros ->. rewrite (Hres eq_refl).
      now rewrite filter_cons_False by (intros Hn; now apply Hn).
    + corun.
      destruct (fst (RegisterConfirmationsNtfn _ _ _ _)) as [confNtfn|e]; corun.
      * intros Hrest.
        destruct (IH _ Hrest) as (n2 & Ha2 & Hs2 & Hc & Hd & Hr & Ho & Hres).
        eexists ([_; _; _] ++ n2). rewrite Ha2. cbn [acts].
        split; [rewrite <- ?app_assoc; reflexivity|].
        split; [exact Hs2|].
        rewrite closedLinks_app, deletedStates_app, contractObservers_app,
          pendingWatched_app, retributionsStarted_app, Hc, Hd, Hr, Ho.
        repeat (split; [reflexivity|]).
        intros ->. rewrite filter_cons_True by exact Hwatch.
        rewrite (Hres eq_refl). reflexivity.
      * intros [= <- <-]. eexists.
        split; [cbn [acts]; rewrite <- ?app_assoc; reflexivity|].
        split; [repeat split|]. repeat (split; [reflexivity|]). discriminate.
Qed.

Lemma rangeOver_run {A : Type} (m : gmap OutPoint A) (b : Arbiter) :
  rangeOver m b = (rangeMap A m (a_world b), b).
Proof. reflexivity. Qed.

(** [Start] on an arbiter not yet started, phase by phase: what it
    appends splits into a part that starts no goroutine and a part that
    closes no link and deletes no channel state; it fails at once when
    [ForAll] fails; and when it returns nil every phase ran to its end. *)
Lemma Start_phases (b : Arbiter) (res : option error) (b' : Arbiter) :
  started b = 0 ->
  Start b = (res, b') ->
  exists pre post,
    acts b' = acts b ++ pre ++ post
    /\ (a_retdb b' = a_retdb b /\ breachObservers b' = breachObservers b
        /\ made b' = made b /\ stopped b' = stopped b /\ started b' = 1)
    /\ goroutines pre = []
    /\ closedLinks post = [] /\ deletedStates post = []
    /\ (forall e,
          snd (retributionStore_ForAll loadRetribution (a_retdb b) (∅, ∅)) = Some e ->
          res = Some e
          /\ pre ++ post
             = [ActTracef "Starting breach arbiter"; ActStoreForAll (Some e)])
    /\ (res = None ->
        snd (retributionStore_ForAll loadRetribution (a_retdb b) (∅, ∅)) = None
        /\ exists toWatch currentHeight summaries w pendingCloseChans more,
             closedLinks pre
             = FundingOutpoint
                 <$> filter (fun c => is_Some ((loadedRetributions (a_retdb b)).2
                                               !! FundingOutpoint c))
                       (fst (fst (FetchAllChannels (a_world b))))
             /\ (fun x => (x.1.2, x.2)) <$> deletedStates pre
                = omap (fun c => (fun s => (s, None))
                                   <$> (loadedRetributions (a_retdb b)).2
                                       !! FundingOutpoint c)
                    (fst (fst (FetchAllChannels (a_world b))))
             /\ contractObservers post = [toWatch]
             /\ length toWatch
                = length (filter (fun c => (loadedRetributions (a_retdb b)).2
                                           !! FundingOutpoint c = None)
                            (fst (fst (FetchAllChannels (a_world b)))))
             /\ summaries ≡ₚ map_to_list (loadedRetributions (a_retdb b)).2
             /\ snd <$> retributionsStarted post
                = (fun p => default zeroRetributionInfo
                              ((loadedRetributions (a_retdb b)).1 !! p.1))
                    <$> summaries
             /\ registrations (calls post)
                = ((fun p => (ClosingTXID p.2, 1, to_uint32 currentHeight))
                     <$> summaries) ++ more
             /\ fst (FetchClosedChannels w) = Ok pendingCloseChans
             /\ pendingWatched post
                = ChanPoint
                    <$> filter (fun p => ~ (CloseType p = ForceClose
                                            /\ TimeLockedBalance p <> 0))
                          pendingCloseChans).
Proof.
  intros Hs. unfold Start. rewrite Co_bind_run. unfold casStarted.
  rewrite decide_True by exact Hs. cbv beta iota. cbn [negb]. corun.
  unfold loadedRetributions.
  destruct (retributionStore_ForAll loadRetribution (a_retdb b) (∅, ∅))
    as [maps errF] eqn:HF.
  cbn [fst snd]. destruct errF as [eF|]; corun.
  { intros [= <- <-]. eexists [_; _], [].
    split; [cbn [acts]; rewrite <- ?app_assoc; reflexivity|].
    split; [repeat split|]. repeat (split; [reflexivity|]).
    split; [intros e [= <-]; split; reflexivity|discriminate]. }
  destruct (fst (FetchAllChannels (a_world b))) as [activeChannels errC] eqn:HC.
  cbn [fst snd]. case_decide as Hfatal; corun.
  { intros [= <- <-]. eexists [_; _; _; _], [].
    split; [cbn [acts]; rewrite <- ?app_assoc; reflexivity|].
    split; [repeat split|]. repeat (split; [reflexivity|]).
    split; [discriminate|]. intros ->. now destruct Hfatal. }
  set (wake := if decide (0 < length activeChannels)%nat
               then [ActCall (EvLog Infof
                       "Retrieved %v channels from database, watching with vigilance!")]
               else []).
  assert (Hlog : forall bx : Arbiter,
             (if decide (0 < length activeChannels)%nat
              then act (ActCall (EvLog Infof
                     "Retrieved %v channels from database, watching with vigilance!"))
              else mret ()) bx
             = (tt, mkArbiter (a_world bx) (a_retdb bx) (breachObservers bx)
                      (made bx) (started bx) (stopped bx) (acts bx ++ wake))).
  { intros bx. subst wake. destruct (decide (0 < length activeChannels)%nat).
    - reflexivity.
    - rewrite Co_ret_run. destruct bx. cbn. now rewrite app_nil_r. }
  rewrite Hlog. corun.
  destruct (promoteBreached maps.2 activeChannels [] _) as [resP b1] eqn:HP.
  apply promoteBreached_spec in HP as (n1 & Ha1 & Hs1 & Hg1 & Hres1).
  cbn [acts] in Ha1. destruct Hs1 as (Hdb1 & Hmap1 & Hmade1 & Hst1 & Hsp1).
  cbn [a_retdb breachObservers made started stopped] in *.
  assert (Hgw : goroutines wake = [])
    by (subst wake; now destruct (decide (0 < length activeChannels)%nat)).
  destruct resP as [toWatch|eP]; corun.
  2:{ intros [= <- <-].
      exists ([ActTracef "Starting breach arbiter"; ActStoreForAll None;
               ActFetchAllChannels activeChannels errC] ++ wake ++ n1), [].
      rewrite Ha1, app_nil_r.
      split; [now rewrite <- ?app_assoc|].
      split; [repeat split; assumption|].
      rewrite !goroutines_app, Hgw, Hg1.
      repeat (split; [reflexivity|]). split; discriminate. }
  destruct (fst (GetBestBlock (a_world b1))) as [[bestHash currentHeight]|eB]; corun.
  2:{ intros [= <- <-].
      exists ([ActTracef "Starting breach arbiter"; ActStoreForAll None;
               ActFetchAllChannels activeChannels errC] ++ wake ++ n1
              ++ [ActCall EvGetBestBlock]), [].
      rewrite Ha1, app_nil_r.
      split; [now rewrite <- ?app_assoc|].
      split; [repeat split; assumption|].
      rewrite !goroutines_app, Hgw, Hg1.
      repeat (split; [reflexivity|]). split; discriminate. }
  rewrite rangeOver_run. cbv beta iota. cbn [a_world]. rewrite Co_bind_run.
  destruct (resumeRetributions currentHeight maps.1 _ _) as [resR b2] eqn:HR.
  apply resumeRetributions_spec in HR
    as (n2 & Ha2 & Hs2 & Hc2 & Hd2 & Ho2 & Hp2 & Hres2).
  cbn [acts] in Ha2. destruct Hs2 as (Hdb2 & Hmap2 & Hmade2 & Hst2 & Hsp2).
  cbn [a_retdb breachObservers made started stopped] in *.
  destruct resR as [eR|]; corun.
  { intros [= <- <-].
    exists ([ActTracef "Starting breach arbiter"; ActStoreForAll None;
             ActFetchAllChannels activeChannels errC] ++ wake ++ n1
            ++ [ActCall EvGetBestBlock]), n2.
    rewrite Ha2, Ha1.
    split; [now rewrite <- ?app_assoc|].
    split; [cbn [a_retdb breachObservers made started stopped]; repeat split; congruence|].
    rewrite !goroutines_app, Hgw, Hg1.
    repeat (split; [first [reflexivity|assumption]|]). split; discriminate. }
  destruct (fst (FetchClosedChannels (a_world b2))) as [pendingCloseChans|eC] eqn:HFC;
    corun.
  2:{ intros [= <- <-].
      exists ([ActTracef "Starting breach arbiter"; ActStoreForAll None;
               ActFetchAllChannels activeChannels errC] ++ wake ++ n1
              ++ [ActCall EvGetBestBlock]),
             (n2 ++ [ActGo true (GoContractObserver toWatch);
                     ActFetchClosedChannels (Some eC);
                     ActCall (EvLog Errorf "unable to fetch closing channels: %v")]).
      cbn [acts]. rewrite Ha2, Ha1.
      split; [now rewrite <- ?app_assoc|].
      split; [cbn [a_retdb breachObservers made started stopped]; repeat split; congruence|].
      rewrite !goroutines_app, Hgw, Hg1, closedLinks_app, deletedStates_app, Hc2, Hd2.
      repeat (split; [reflexivity|]). split; discriminate. }
  destruct (watchPendingCloses currentHeight pendingCloseChans _) as [resW b3] eqn:HW.
  apply watchPendingCloses_spec in HW
    as (n3 & Ha3 & Hs3 & Hc3 & Hd3 & Hr3 & Ho3 & Hres3).
  cbn [acts] in Ha3. destruct Hs3 as (Hdb3 & Hmap3 & Hmade3 & Hst3 & Hsp3).
  cbn [a_retdb breachObservers made started stopped] in *.
  intros [= <- <-].
  exists ([ActTracef "Starting breach arbiter"; ActStoreForAll None;
           ActFetchAllChannels activeChannels errC] ++ wake ++ n1
          ++ [ActCall EvGetBestBlock]),
         (n2 ++ [ActGo true (GoContractObserver toWatch);
                 ActFetchClosedChannels None] ++ n3).
  rewrite Ha3, Ha2, Ha1.
  split; [now rewrite <- ?app_assoc|].
  split; [cbn [a_retdb breachObservers made started stopped]; repeat split; congruence|].
  rewrite !goroutines_app, Hgw, Hg1, !closedLinks_app, !deletedStates_app,
    Hc2, Hd2, Hc3, Hd3.
  repeat (split; [reflexivity|]). split; [discriminate|].
  intros HresW. split; [reflexivity|].
  destruct Hres1 as (Hc1 & Hd1 & Hl1).
  destruct (Hres2 eq_refl) as [Hr2 Hreg2].
  exists toWatch, currentHeight,
    (rangeMap _ maps.2 (snd (GetBestBlock (a_world b1)))), (a_world b2),
    pendingCloseChans, (registrations (calls n3)).
  assert (Hcw : closedLinks wake = [] /\ deletedStates wake = [])
    by (subst wake; now destruct (decide (0 < length activeChannels)%nat)).
  destruct Hcw as [Hcw Hdw].
  split; [rewrite Hcw, Hc1; cbn; now rewrite app_nil_r|].
  split; [rewrite Hdw, !fmap_app, Hd1; cbn; now rewrite app_nil_r|].
  rewrite !contractObservers_app, Ho2, Ho3.
  split; [reflexivity|]. split; [exact Hl1|].
  split; [apply rangeMap_Permutation|].
  rewrite !retributionsStarted_app, Hr3, !fmap_app, Hr2.
  split; [cbn; now rewrite app_nil_r|].
  split.
  { unfold registrations in *. rewrite !calls_app, !omap_app, Hreg2. reflexivity. }
  split; [exact HFC|].
  rewrite !pendingWatched_app, Hp2. cbn [app]. apply Hres3, HresW.
Qed.

Lemma Start_started (b : Arbiter) : started b <> 0 -> Start b = (None, b).
Proof.
  intros Hs. unfold Start. rewrite Co_bind_run. unfold casStarted.
  now rewrite decide_False by exact Hs.
Qed.

Lemma goroutines_nil_retributions (l : list action) :
  goroutines l = [] -> retributionsStarted l = [].
Proof.
  induction l as [|a l IH]; [reflexivity|].
  destruct a as [| | | | | | | | | | | | | | |tracked g]; cbn; try exact IH.
  discriminate.
Qed.

Lemma visited_doneChan (db : bolt.Tx) (ret : retributionInfo) :
  ret ∈ visited db -> doneChan ret = None.
Proof.
  intros Hin. unfold visited in Hin. rewrite ForAll_run_bucket in Hin.
  destruct (forEach_visit_decoded _ _ _ Hin) as [Hno|[v Hdec]];
    [now apply elem_of_nil in Hno|].
  unfold decodeValue in Hdec.
  destruct (retributionInfo_Decode zeroRetributionInfo v) as [[ret' rest]|e] eqn:Hd;
    [|discriminate].
  injection Hdec as ->.
  now rewrite (retributionInfo_Decode_doneChan _ _ _ _ Hd).
Qed.

(** The records loaded, listed: a rearrangement of [visited]. *)
Lemma loaded_records_Permutation (db : bolt.Tx) :
  store_consistent db ->
  snd <$> map_to_list (loadedRetributions db).1 ≡ₚ visited db.
Proof.
  intros Hdb. destruct (loadedRetributions_spec db Hdb) as (_ & _ & Hlook).
  assert (Hperm : map_to_list (loadedRetributions db).1
                  ≡ₚ (fun r => (chanPoint r, r)) <$> visited db).
  { apply NoDup_Permutation.
    - apply NoDup_map_to_list.
    - apply (NoDup_fmap_1 fst). rewrite <- list_fmap_compose.
      now apply visited_NoDup.
    - intros [cp r]. rewrite elem_of_map_to_list, Hlook, list_elem_of_fmap.
      split.
      + intros [Hin <-]. now exists r.
      + intros (r' & [= -> ->] & Hin). now split. }
  rewrite Hperm, <- list_fmap_compose. now rewrite list_fmap_id.
Qed.

(** X24. [Start] runs once: whatever the first call did and returned,
    an error included, a further call returns nil at once and changes
    nothing, so a [Start] that failed half-way is not retried; the file,
    the observers' map and the channels made are as before the first
    call. *)
Theorem Start_runs_once (b : Arbiter) :
  Start (snd (Start b)) = (None, snd (Start b))
  /\ started (snd (Start b)) <> 0
  /\ a_retdb (snd (Start b)) = a_retdb b
  /\ breachObservers (snd (Start b)) = breachObservers b
  /\ made (snd (Start b)) = made b.
Proof.
  destruct (decide (started b = 0)) as [Hs|Hs].
  - destruct (Start b) as [res b'] eqn:HS. cbn [snd].
    destruct (Start_phases b res b' Hs HS)
      as (pre & post & _ & (Hdb & Hmap & Hmade & _ & Hst) & _).
    assert (Hne : started b' <> 0) by (rewrite Hst; discriminate).
    split; [now apply Start_started|]. repeat split; assumption.
  - rewrite (Start_started b Hs). cbn [snd].
    split; [now apply Start_started|]. repeat split; assumption.
Qed.


(** X26. [Start] resumes every stored retribution: when it returns nil
    on a consistent file, the records of the [exactRetribution] tasks it
    started are the records in the store, each once (in the order the
    runtime ranges over the map); for each of them one confirmation of
    the record's [commitHash] was subscribed to, all with the same
    height hint; and each record has a nil [doneChan]. *)
Theorem Start_resumes_stored_retributions (b : Arbiter) :
  started b = 0 ->
  store_consistent (a_retdb b) ->
  fst (Start b) = None ->
  exists new currentHeight,
    acts (snd (Start b)) = acts b ++ new
    /\ snd <$> retributionsStarted new ≡ₚ visited (a_retdb b)
    /\ forall confChan ret,
         (confChan, ret) ∈ retributionsStarted new ->
         doneChan ret = None
         /\ (commitHash ret, 1, to_uint32 currentHeight)
            ∈ registrations (calls new).
Proof.
  intros Hs Hdb Hnil.
  destruct (Start b) as [res b'] eqn:HS. cbn [fst snd] in *. subst res.
  destruct (Start_phases b None b' Hs HS)
    as (pre & post & Hacts & _ & Hg & _ & _ & _ & Hok).
  destruct (Hok eq_refl)
    as (_ & toWatch & h & summaries & w & pend & more
        & _ & _ & _ & _ & Hperm & Hr & Hreg & _).
  destruct (loadedRetributions_spec _ Hdb) as (_ & Hsum & Hlook).
  exists (pre ++ post), h. split; [exact Hacts|].
  rewrite retributionsStarted_app, (goroutines_nil_retributions _ Hg). cbn [app].
  assert (Hp : forall p, p ∈ summaries ->
               (loadedRetributions (a_retdb b)).1 !! p.1
               = Some (default zeroRetributionInfo
                         ((loadedRetributions (a_retdb b)).1 !! p.1))
               /\ ClosingTXID p.2
                  = commitHash (default zeroRetributionInfo
                                  ((loadedRetributions (a_retdb b)).1 !! p.1))).
  { intros [cp summary] Hin. rewrite Hperm in Hin.
    apply elem_of_map_to_list in Hin. rewrite Hsum, lookup_fmap in Hin.
    cbn [fst snd].
    destruct ((loadedRetributions (a_retdb b)).1 !! cp) as [r|]; [|discriminate].
    injection Hin as <-. split; reflexivity. }
  split.
  - rewrite Hr, Hperm, Hsum, map_to_list_fmap, <- list_fmap_compose.
    rewrite <- (loaded_records_Permutation _ Hdb).
    match goal with
    | |- ?f <$> ?l ≡ₚ ?g <$> ?l =>
        assert (Heq : f <$> l = g <$> l); [|now rewrite Heq]
    end.
    apply list_fmap_ext.
    intros i [cp r] Hi. cbn. apply list_elem_of_lookup_2 in Hi.
    apply elem_of_map_to_list in Hi. now rewrite Hi.
  - intros conf ret Hin.
    assert (Hret : ret ∈ snd <$> retributionsStarted post)
      by (apply list_elem_of_fmap; now exists (conf, ret)).
    rewrite Hr in Hret. apply list_elem_of_fmap in Hret as (p & -> & Hpin).
    destruct (Hp p Hpin) as [Hload Htx].
    split.
    + apply (visited_doneChan (a_retdb b)). now apply (Hlook p.1).
    + rewrite calls_app. unfold registrations in *.
      rewrite omap_app, Hreg, <- Htx.
      apply elem_of_app. right. apply elem_of_app. left.
      apply list_elem_of_fmap. now exists p.
Qed.

(** X27. Channels are closed before anything is started: what a run
    of [Start] does splits into a first part that starts no goroutine and
    a second part that closes no link and deletes no channel state. So
    every breached channel still open is closed in the switch and in
    channeldb before the first retribution is resumed. *)
Theorem Start_promotes_before_it_spawns (b : Arbiter) :
  exists pre post,
    acts (snd (Start b)) = acts b ++ pre ++ post
    /\ goroutines pre = []
    /\ closedLinks post = [] /\ deletedStates post = [].
Proof.
  destruct (decide (started b = 0)) as [Hs|Hs].
  - destruct (Start b) as [res b'] eqn:HS. cbn [snd].
    destruct (Start_phases b res b' Hs HS)
      as (pre & post & Hacts & _ & Hg & Hc & Hd & _).
    exists pre, post. auto.
  - rewrite (Start_started b Hs). exists [], []. cbn. now rewrite app_nil_r.
Qed.

(** X28. Breached channels are closed, the others watched: when
    [Start] returns nil on a consistent file, it has called [CloseLink]
    on the funding outpoint of exactly the active channels for which the
    store holds a record, in the order [FetchAllChannels] listed them,
    and [DeleteState] on each with the close summary made from that
    record, each returning nil; and it has started one
    [contractObserver], with as many channels as are left. *)
Theorem Start_closes_breached_channels (b : Arbiter) :
  started b = 0 ->
  store_consistent (a_retdb b) ->
  fst (Start b) = None ->
  exists new toWatch,
    acts (snd (Start b)) = acts b ++ new
    /\ (forall cp ret,
          (loadedRetributions (a_retdb b)).1 !! cp = Some ret
          <-> ret ∈ visited (a_retdb b) /\ chanPoint ret = cp)
    /\ closedLinks new
       = FundingOutpoint
           <$> filter (fun c => is_Some ((loadedRetributions (a_retdb b)).1
                                         !! FundingOutpoint c))
                 (fst (fst (FetchAllChannels (a_world b))))
    /\ (fun x => (x.1.2, x.2)) <$> deletedStates new
       = omap (fun c => (fun ret => (closeSummaryOf ret, None))
                          <$> (loadedRetributions (a_retdb b)).1
                              !! FundingOutpoint c)
           (fst (fst (FetchAllChannels (a_world b))))
    /\ contractObservers new = [toWatch]
    /\ length toWatch
       = length (filter (fun c => (loadedRetributions (a_retdb b)).1
                                  !! FundingOutpoint c = None)
                   (fst (fst (FetchAllChannels (a_world b))))).
Proof.
  intros Hs Hdb Hnil.
  destruct (Start b) as [res b'] eqn:HS. cbn [fst snd] in *. subst res.
  destruct (Start_phases b None b' Hs HS)
    as (pre & post & Hacts & _ & Hg & Hc & Hd & _ & Hok).
  destruct (Hok eq_refl)
    as (_ & toWatch & h & summaries & w & pend & more
        & Hcl & Hds & Hco & Hlen & _).
  destruct (loadedRetributions_spec _ Hdb) as (_ & Hsum & Hlook).
  exists (pre ++ post), toWatch. split; [exact Hacts|]. split; [exact Hlook|].
  rewrite closedLinks_app, deletedStates_app, contractObservers_app, Hc, Hd,
    !app_nil_r, Hcl, Hds, Hlen.
  assert (Hnone : contractObservers pre = []).
  { clear -Hg. induction pre as [|a l IH]; [reflexivity|].
    destruct a as [| | | | | | | | | | | | | | |tracked g]; cbn in *;
      try (now apply IH). discriminate. }
  rewrite Hnone, Hco. cbn [app].
  split; [|split; [|split; [reflexivity|]]].
  - f_equal. apply list_filter_iff. intros c.
    now rewrite Hsum, lookup_fmap, fmap_is_Some.
  - rewrite Hsum.
    generalize (fst (fst (FetchAllChannels (a_world b)))). intros l.
    induction l as [|c l IH]; cbn [omap list_omap]; [reflexivity|].
    rewrite lookup_fmap, IH.
    now destruct ((loadedRetributions (a_retdb b)).1 !! FundingOutpoint c).
  - f_equal. apply list_filter_iff. intros c.
    now rewrite Hsum, lookup_fmap, fmap_None.
Qed.

(** X29. Pending closes get a watcher unless the nursery has them:
    when [Start] returns nil, it has started a watcher for exactly the
    pending closes [FetchClosedChannels] returned that are not force
    closes with a time-locked balance, in order. And a watcher marks its
    channel fully closed only when the confirmation arrives, publishes
    nothing and leaves the store alone. *)
Theorem Start_watches_pending_closes (b : Arbiter) :
  started b = 0 ->
  fst (Start b) = None ->
  (exists new w pendingCloseChans,
     acts (snd (Start b)) = acts b ++ new
     /\ fst (FetchClosedChannels w) = Ok pendingCloseChans
     /\ pendingWatched new
        = ChanPoint
            <$> filter (fun p => ~ (CloseType p = ForceClose
                                    /\ TimeLockedBalance p <> 0))
                  pendingCloseChans)
  /\ forall (confNtfn : ConfirmationEvent) (chanPoint : OutPoint) (st : State),
       exists evs,
         trace (snd (awaitPendingClose confNtfn chanPoint st)) = trace st ++ evs
         /\ retdb (snd (awaitPendingClose confNtfn chanPoint st)) = retdb st
         /\ publishedTxs evs = []
         /\ markedChannels evs
            = match fst (awaitConfirmed confNtfn (world st)) with
              | Recv true => [chanPoint]
              | _ => []
              end.
Proof.
  intros Hs Hnil. split.
  - destruct (Start b) as [res b'] eqn:HS. cbn [fst snd] in *. subst res.
    destruct (Start_phases b None b' Hs HS)
      as (pre & post & Hacts & _ & Hg & _ & _ & _ & Hok).
    destruct (Hok eq_refl)
      as (_ & toWatch & h & summaries & w & pend & more
          & _ & _ & _ & _ & _ & _ & _ & Hfc & Hpw).
    exists (pre ++ post), w, pend. split; [exact Hacts|]. split; [exact Hfc|].
    rewrite pendingWatched_app, Hpw.
    assert (Hnone : pendingWatched pre = []).
    { clear -Hg. induction pre as [|a l IH]; [reflexivity|].
      destruct a as [| | | | | | | | | | | | | | |tracked g]; cbn in *;
        try (now apply IH). discriminate. }
    now rewrite Hnone.
  - intros confNtfn chanPoint st.
    remember (awaitPendingClose confNtfn chanPoint st) as r eqn:Hr. revert Hr.
    unfold awaitPendingClose. run.
    destruct (fst (awaitConfirmed confNtfn (world st))) as [[|]|]; run;
      cbn [world retdb trace];
      try (destruct (fst (MarkChanFullyClosed chanPoint _)) as [e|]; run);
      intros ->; eexists;
      (split; [cbn [snd trace]; rewrite <- ?app_assoc; reflexivity|]);
      repeat split.
Qed.

(** X30. [Stop] closes [quit] once: the first [Stop] logs, closes the
    quit channel, waits for the goroutines and returns nil; any number
    of further calls return nil and do nothing, so the channel is never
    closed twice. [Stop] touches neither the file nor the observers'
    map. *)
Theorem Stop_closes_quit_once (b : Arbiter) (n : nat) :
  stopped b = 0 ->
  Stop b
  = (None, mkArbiter (a_world b) (a_retdb b) (breachObservers b) (made b)
             (started b) 1
             (acts b ++ [ActCall (EvLog Infof "Breach arbiter shutting down");
                         ActCloseQuit; ActWait]))
  /\ Stop (Nat.iter n (fun s => snd (Stop s)) (snd (Stop b)))
     = (None, snd (Stop b)).
Proof.
  intros Hs.
  assert (H1 : Stop b
               = (None, mkArbiter (a_world b) (a_retdb b) (breachObservers b)
                          (made b) (started b) 1
                          (acts b
                           ++ [ActCall (EvLog Infof "Breach arbiter shutting down");
                               ActCloseQuit; ActWait]))).
  { unfold Stop. rewrite Co_bind_run. unfold casStopped.
    rewrite decide_True by exact Hs. cbv beta iota. cbn [negb]. corun.
    now rewrite <- !app_assoc. }
  split; [exact H1|]. rewrite H1. cbn [snd].
  assert (H2 : forall s, stopped s <> 0 -> Stop s = (None, s)).
  { intros s Hne. unfold Stop. rewrite Co_bind_run. unfold casStopped.
    now rewrite decide_False by exact Hne. }
  induction n as [|n IH].
  - now apply H2.
  - rewrite Nat.iter_succ, IH. cbn [snd]. now apply H2.
Qed.

End StartFacts.

Module CoordinatorExamples.
Import Double Sample MoreSamples DoubleFacts DaemonDouble.

Example contractObserver_inbox :
  acts (snd (contractObserver activeOnDisk inbox arbiter1))
  = [ ActMake 0%nat; ActGo true (GoBreachObserver breachedChannel 0%nat);
      ActMake 1%nat; ActGo true (GoBreachObserver healthyChannel 1%nat);
      ActMake 2%nat;
      ActCall (EvLog Infof
        "ChannelPoint(%v) is now live, abandoning state contract for live version");
      ActCall (EvClose 1%nat);
      ActCall (EvLog Debugf "New contract detected, launching breachObserver");
      ActGo true (GoBreachObserver healthyChannel' 2%nat);
      ActCall EvGetBestBlock;
      ActCall (EvRegisterConfirmationsNtfn hash2 1 100);
      ActCall (EvLog Warnf
        "A channel has been breached with txid: %v. Waiting for confirmation, then justice will be served!");
      ActGo true (GoExactRetribution (mkConfirmationEvent 1%nat) sampleRetribution);
      ActCall (EvLog Debugf
        "ChannelPoint(%v) has been settled, cancelling breachObserver");
      ActCall (EvClose 2%nat);
      ActCall (EvLog Errorf "Unable to find contract: %v") ].
Proof. reflexivity. Qed.

Example contractObserver_inbox_map :
  breachObservers (snd (contractObserver activeOnDisk inbox arbiter1)) = ∅.
Proof. reflexivity. Qed.

(** The sample node grants the subscription for the one breach of
    [inbox], at height 100. *)
Example contractObserver_inbox_answers :
  fst (nodeAnswers (breaches (untilQuit inbox)) (a_world arbiter1))
  = [(sampleRetribution, 100, Some (mkConfirmationEvent 1%nat))]
  /\ retributionsStarted (acts (snd (contractObserver activeOnDisk inbox arbiter1)))
     = [(mkConfirmationEvent 1%nat, sampleRetribution)].
Proof. split; reflexivity. Qed.

(** [Start] on the sample node: the breached channel is closed, the
    stored retribution resumed, the healthy channel watched, and of the
    two pending closes the cooperative one gets a watcher. *)
Example Start_arbiter1 :
  fst (Start arbiter1) = None
  /\ acts (snd (Start arbiter1))
     = [ ActTracef "Starting breach arbiter";
         ActStoreForAll None;
         ActFetchAllChannels activeOnDisk None;
         ActCall (EvLog Infof
           "Retrieved %v channels from database, watching with vigilance!");
         ActNewLightningChannel breachedChannel None;
         ActCloseLink (mkOutPoint hash1 0);
         ActDeleteState breachedChannel
           (closeSummaryOf (stored sampleRetribution)) None;
         ActNewLightningChannel healthyChannel None;
         ActCall EvGetBestBlock;
         ActCall (EvRegisterConfirmationsNtfn hash2 1 100);
         ActGo true (GoExactRetribution (mkConfirmationEvent 1%nat)
                       (stored sampleRetribution));
         ActGo true (GoContractObserver [healthyChannel]);
         ActFetchClosedChannels None;
         ActCall (EvLog Infof "Watching for the closure of ChannelPoint(%v)");
         ActCall (EvRegisterConfirmationsNtfn hash2 1 100);
         ActGo true (GoPendingClose (mkConfirmationEvent 1%nat)
                       (mkOutPoint hash3 6)) ].
Proof. split; reflexivity. Qed.

Example breachObserver_breach1 :
  steps (acts (snd (breachObserver healthyChannel 1%nat (ContractBreach breach1)
                      true arbiter1)))
  = [ ActCloseLink (mkOutPoint hash2 7);
      ActStateSnapshot healthyChannel;
      ActMake 0%nat;
      ActStoreAdd (breachRecord healthyChannel breach1 arbiter1) None;
      ActDeleteState healthyChannel
        (mkChannelCloseSummary (mkOutPoint hash2 7)
           (TxHash (BreachTransaction breach1)) (Some key1) 10000 7000 0 2 true)
        None;
      ActOffer (breachRecord healthyChannel breach1 arbiter1) true ].
Proof. reflexivity. Qed.

Lemma createJusticeTx_ignores_transient_witness :
  persisted_eq_output (selfOutput sampleRetribution)
    (selfOutput (stored sampleRetribution))
  /\ persisted_eq_output (revokedOutput sampleRetribution)
       (revokedOutput (stored sampleRetribution))
  /\ snd (fst (createJusticeTx sampleRetribution calm))
     = snd (fst (createJusticeTx (stored sampleRetribution) calm))
  /\ snd (createJusticeTx sampleRetribution calm)
     = snd (createJusticeTx (stored sampleRetribution) calm).
Proof.
  split; [repeat split|]. split; [repeat split|].
  apply (createJusticeTx_ignores_transient sampleRetribution
           (stored sampleRetribution) calm); repeat split.
Defined.

Lemma stored_sample_visited : stored sampleRetribution ∈ visited dbTwice.
Proof.
  change (visited dbTwice) with (fst (retributionStore_ForAll visit dbTwice [])).
  rewrite StoreExamples.ForAll_after_two_adds. apply list_elem_of_here.
Defined.

Lemma resumed_retribution_panics_witness :
  stored sampleRetribution ∈ visited dbTwice
  /\ doneChan (stored sampleRetribution) = None
  /\ exists evs,
       trace (snd (exactRetribution breachConf (stored sampleRetribution) stormy))
       = trace stormy ++ evs
       /\ (justiceConfirmed evs = true ->
           exists errM errR,
             omap finalStep evs
             = [ MarkedClosed (chanPoint (stored sampleRetribution)) errM;
                 RecordRemoved (chanPoint (stored sampleRetribution)) errR;
                 Panicked ])
       /\ DoneClosed ∉ omap finalStep evs.
Proof.
  split; [exact stored_sample_visited|].
  exact (resumed_retribution_panics dbTwice (stored sampleRetribution) breachConf
           stormy stored_sample_visited).
Defined.

Lemma contractObserver_closes_each_signal_once_witness :
  well_tracked arbiter1
  /\ exists new,
       acts (snd (contractObserver activeOnDisk inbox arbiter1))
       = acts arbiter1 ++ new
       /\ NoDup (closedSignals new)
       /\ (forall ch, ch ∈ closedSignals new ->
             (exists cp, breachObservers arbiter1 !! cp = Some ch
                         \/ (cp, ch) ∈ observersStarted new)
             /\ forall cp,
                  breachObservers (snd (contractObserver activeOnDisk inbox arbiter1))
                  !! cp <> Some ch)
       /\ well_tracked (snd (contractObserver activeOnDisk inbox arbiter1)).
Proof.
  split; [exact (well_tracked_newArbiter (world calm) dbTwice)|].
  exact (contractObserver_closes_each_signal_once activeOnDisk inbox arbiter1
           (well_tracked_newArbiter (world calm) dbTwice)).
Defined.

Lemma activeOnDisk_NoDup : NoDup (ChannelPoint <$> activeOnDisk).
Proof.
  apply NoDup_cons. split; [|apply NoDup_singleton].
  intros Hin. apply list_elem_of_singleton in Hin. discriminate.
Defined.

Lemma contractObserver_accounts_for_observers_witness :
  breachObservers arbiter1 = ∅
  /\ NoDup (ChannelPoint <$> activeOnDisk)
  /\ exists new,
       acts (snd (contractObserver activeOnDisk inbox arbiter1))
       = acts arbiter1 ++ new
       /\ (forall cp ch,
             breachObservers (snd (contractObserver activeOnDisk inbox arbiter1))
             !! cp = Some ch ->
             (cp, ch) ∈ observersStarted new)
       /\ NoDup (snd <$> observersStarted new)
       /\ forall cp ch,
            (cp, ch) ∈ observersStarted new ->
            breachObservers (snd (contractObserver activeOnDisk inbox arbiter1))
            !! cp = Some ch
            \/ ch ∈ closedSignals new
            \/ exists confChan breachInfo,
                 (confChan, breachInfo) ∈ retributionsStarted new
                 /\ chanPoint breachInfo = cp.
Proof.
  split; [reflexivity|]. split; [exact activeOnDisk_NoDup|].
  exact (contractObserver_accounts_for_observers activeOnDisk inbox arbiter1
           eq_refl activeOnDisk_NoDup).
Defined.

Lemma breach1_record_wf :
  wf_retributionInfo (breachRecord (D:=daemon) healthyChannel breach1 arbiter1).
Proof. by_evaluation. Defined.

Lemma breach_survives_restart_witness :
  store_consistent (a_retdb arbiter1)
  /\ wf_retributionInfo (breachRecord (D:=daemon) healthyChannel breach1 arbiter1)
  /\ snd (retributionStore_Add
            (breachRecord (D:=daemon) healthyChannel breach1 arbiter1)
            (a_retdb arbiter1)) = None
  /\ exists summary errD,
       ActDeleteState healthyChannel summary errD
       ∈ acts (snd (breachObserver healthyChannel 1%nat (ContractBreach breach1)
                      true arbiter1))
       /\ snd (retributionStore_ForAll loadRetribution
                 (a_retdb (snd (breachObserver healthyChannel 1%nat
                                  (ContractBreach breach1) true arbiter1)))
                 (∅, ∅))
          = None
       /\ (loadedRetributions
             (a_retdb (snd (breachObserver healthyChannel 1%nat
                              (ContractBreach breach1) true arbiter1)))).1
          !! ChannelPoint healthyChannel
          = Some (stored (breachRecord healthyChannel breach1 arbiter1))
       /\ (loadedRetributions
             (a_retdb (snd (breachObserver healthyChannel 1%nat
                              (ContractBreach breach1) true arbiter1)))).2
          !! ChannelPoint healthyChannel
          = Some summary.
Proof.
  split; [exact CoverageExamples.dbTwice_consistent|].
  split; [exact breach1_record_wf|]. split; [reflexivity|].
  apply (breach_survives_restart (D:=daemon) healthyChannel 1%nat breach1 true
           arbiter1 CoverageExamples.dbTwice_consistent breach1_record_wf).
  reflexivity.
Defined.


Lemma Start_resumes_stored_retributions_witness :
  started arbiter1 = 0
  /\ store_consistent (a_retdb arbiter1)
  /\ fst (Start arbiter1) = None
  /\ exists new currentHeight,
       acts (snd (Start arbiter1)) = acts arbiter1 ++ new
       /\ snd <$> retributionsStarted new ≡ₚ visited (a_retdb arbiter1)
       /\ forall confChan ret,
            (confChan, ret) ∈ retributionsStarted new ->
            doneChan ret = None
            /\ (commitHash ret, 1, to_uint32 currentHeight)
               ∈ registrations (calls new).
Proof.
  split; [reflexivity|]. split; [exact CoverageExamples.dbTwice_consistent|].
  split; [reflexivity|].
  apply (Start_resumes_stored_retributions arbiter1);
    [reflexivity|exact CoverageExamples.dbTwice_consistent|reflexivity].
Defined.

Lemma Start_closes_breached_channels_witness :
  started arbiter1 = 0
  /\ store_consistent (a_retdb arbiter1)
  /\ fst (Start arbiter1) = None
  /\ exists new toWatch,
       acts (snd (Start arbiter1)) = acts arbiter1 ++ new
       /\ (forall cp ret,
             (loadedRetributions (a_retdb arbiter1)).1 !! cp = Some ret
             <-> ret ∈ visited (a_retdb arbiter1) /\ chanPoint ret = cp)
       /\ closedLinks new
          = FundingOutpoint
              <$> filter (fun c => is_Some ((loadedRetributions (a_retdb arbiter1)).1
                                            !! FundingOutpoint c))
                    (fst (fst (FetchAllChannels (a_world arbiter1))))
       /\ (fun x => (x.1.2, x.2)) <$> deletedStates new
          = omap (fun c => (fun ret => (closeSummaryOf ret, None))
                             <$> (loadedRetributions (a_retdb arbiter1)).1
                                 !! FundingOutpoint c)
              (fst (fst (FetchAllChannels (a_world arbiter1))))
       /\ contractObservers new = [toWatch]
       /\ length toWatch
          = length (filter (fun c => (loadedRetributions (a_retdb arbiter1)).1
                                     !! FundingOutpoint c = None)
                      (fst (fst (FetchAllChannels (a_world arbiter1))))).
Proof.
  split; [reflexivity|]. split; [exact CoverageExamples.dbTwice_consistent|].
  split; [reflexivity|].
  apply (Start_closes_breached_channels arbiter1);
    [reflexivity|exact CoverageExamples.dbTwice_consistent|reflexivity].
Defined.

Lemma Start_watches_pending_closes_witness :
  started arbiter1 = 0
  /\ fst (Start arbiter1) = None
  /\ (exists new w pendingCloseChans,
        acts (snd (Start arbiter1)) = acts arbiter1 ++ new
        /\ fst (FetchClosedChannels w) = Ok pendingCloseChans
        /\ pendingWatched new
           = ChanPoint
               <$> filter (fun p => ~ (CloseType p = ForceClose
                                       /\ TimeLockedBalance p <> 0))
                     pendingCloseChans)
  /\ forall (confNtfn : ConfirmationEvent) (chanPoint : OutPoint) (st : State),
       exists evs,
         trace (snd (awaitPendingClose confNtfn chanPoint st)) = trace st ++ evs
         /\ retdb (snd (awaitPendingClose confNtfn chanPoint st)) = retdb st
         /\ publishedTxs evs = []
         /\ markedChannels evs
            = match fst (awaitConfirmed confNtfn (world st)) with
              | Recv true => [chanPoint]
              | _ => []
              end.
Proof.
  split; [reflexivity|]. split; [reflexivity|].
  apply (Start_watches_pending_closes arbiter1); reflexivity.
Defined.

Lemma Stop_closes_quit_once_witness :
  stopped arbiter1 = 0
  /\ Stop arbiter1
     = (None, mkArbiter (a_world arbiter1) (a_retdb arbiter1)
                (breachObservers arbiter1) (made arbiter1) (started arbiter1) 1
                (acts arbiter1
                 ++ [ActCall (EvLog Infof "Breach arbiter shutting down");
                     ActCloseQuit; ActWait]))
  /\ Stop (Nat.iter 3 (fun s => snd (Stop s)) (snd (Stop arbiter1)))
     = (None, snd (Stop arbiter1)).
Proof.
  split; [reflexivity|].
  apply (Stop_closes_quit_once arbiter1 3). reflexivity.
Defined.

End CoordinatorExamples.
